(** * McRhythm documentation link validator

    A shallow embedding of [docs/validation/validate_links.py] (class
    [LinkValidator]) together with the properties its specification
    states about it.

    Text.  A Python [str] is modelled by [string]; a character is a code
    point in the range 0..255 ([ascii]), and the character classes below
    follow what Python's [re] and [str] methods do on that range.

    Regular expressions.  The validator is driven by [re.finditer] and
    [re.sub]; the patterns are kept as data ([regex]) and run by a
    backtracking matcher with Python's priorities (leftmost, greedy).

    Output on standard output ([print]) is not modelled.

    The priority groups of [docs/validation/apply-edits.py] are embedded
    in the module [ApplyEdits]. *)

From Stdlib Require Import ZArith Ascii String List Bool Lia Sorting.Sorted Sorting.Permutation.
From stdpp Require Import gmap strings.
Import ListNotations.

Local Open Scope string_scope.
Local Open Scope list_scope.

(* ===================================================================== *)
(** ** Characters *)
(* ===================================================================== *)

Module Char.

Definition code (c : ascii) : N := N_of_ascii c.

Definition between (lo hi : N) (c : ascii) : bool :=
    ((lo <=? code c) && (code c <=? hi))%N.

Definition is_char (a c : ascii) : bool := Ascii.eqb c a.

Definition newline : ascii := "010"%char.

  (** [[A-Z]] *)
Definition upper_AZ : ascii -> bool := between 65 90.

  (** [\d] : the decimal digits; below 256 these are [0-9]. *)
Definition digit : ascii -> bool := between 48 57.

  (** [\s] and [str.strip()] : tab, line feed, vertical tab, form feed,
      carriage return, the four separators 0x1c..0x1f, space, NEL and the
      no-break space. *)
Definition space (c : ascii) : bool :=
    between 9 13 c || between 28 32 c || is_char "133" c || is_char "160" c.

  (** [\w] : letters, digits (decimal or not), numerics and underscore. *)
Definition word (c : ascii) : bool :=
    between 97 122 c || between 65 90 c || between 48 57 c || is_char "_" c
    || is_char "170" c || between 178 179 c || is_char "181" c || between 185 186 c
    || between 188 190 c || between 192 214 c || between 216 246 c
    || between 248 255 c.

  (** [.] without [re.DOTALL] *)
Definition dot (c : ascii) : bool := negb (is_char newline c).

  (** One character of [str.lower()]. *)
Definition lower (c : ascii) : ascii :=
    if between 65 90 c || (between 192 222 c && negb (is_char "215" c))
    then ascii_of_N (code c + 32)
    else c.

End Char.

(* ===================================================================== *)
(** ** Strings *)
(* ===================================================================== *)

Module Str.

Fixpoint map (f : ascii -> ascii) (s : string) : string :=
    match s with
    | EmptyString => EmptyString
    | String c s' => String (f c) (map f s')
    end.

  (** [s.lower()] *)
Definition lower : string -> string := map Char.lower.

Fixpoint lstrip (s : string) : string :=
    match s with
    | String c s' => if Char.space c then lstrip s' else s
    | EmptyString => EmptyString
    end.

  (** Drops trailing white space: the character is kept when it is not
      white space or when something is kept after it. *)
Fixpoint rstrip (s : string) : string :=
    match s with
    | EmptyString => EmptyString
    | String c s' =>
        match rstrip s' with
        | EmptyString => if Char.space c then EmptyString else String c EmptyString
        | r => String c r
        end
    end.

  (** [s.strip()] *)
Definition strip (s : string) : string := rstrip (lstrip s).

  (** [s.startswith(p)] *)
Fixpoint startswith (p s : string) : bool :=
    match p, s with
    | EmptyString, _ => true
    | String a p', String b s' => Ascii.eqb a b && startswith p' s'
    | String _ _, EmptyString => false
    end.

  (** [needle in s] *)
Fixpoint contains (needle s : string) : bool :=
    startswith needle s ||
    match s with
    | EmptyString => false
    | String _ s' => contains needle s'
    end.

  (** [c in s] for one character *)
Fixpoint has_char (a : ascii) (s : string) : bool :=
    match s with
    | EmptyString => false
    | String c s' => Ascii.eqb c a || has_char a s'
    end.

  (** [s.split(sep, 1)] for a one-character separator, when [sep] occurs
      in [s]: the text before the first [sep] and the text after it. *)
Fixpoint split_first (sep : ascii) (s : string) : string * string :=
    match s with
    | EmptyString => (EmptyString, EmptyString)
    | String c s' =>
        if Ascii.eqb c sep then (EmptyString, s')
        else let '(a, b) := split_first sep s' in (String c a, b)
    end.

  (** [s.split(sep)[0]] : the text before the first [sep], or all of [s]. *)
Fixpoint before_first (sep : ascii) (s : string) : string :=
    match s with
    | EmptyString => EmptyString
    | String c s' => if Ascii.eqb c sep then EmptyString else String c (before_first sep s')
    end.

  (** The first [n] characters. *)
Fixpoint take (n : nat) (s : string) : string :=
    match n, s with
    | S n', String c s' => String c (take n' s')
    | _, _ => EmptyString
    end.

  (** [sep.join(l)] *)
Definition join (sep : string) (l : list string) : string := String.concat sep l.

  (** Every character of [s] is in the class [p]. *)
Fixpoint all (p : ascii -> bool) (s : string) : bool :=
    match s with
    | EmptyString => true
    | String c s' => p c && all p s'
    end.

  (** The characters of [s] that are in the class [p]. *)
Fixpoint keep (p : ascii -> bool) (s : string) : string :=
    match s with
    | EmptyString => EmptyString
    | String c s' => if p c then String c (keep p s') else keep p s'
    end.

End Str.

(* ===================================================================== *)
(** ** Regular expressions *)
(* ===================================================================== *)

Module Re.

  (** The fragment of Python's pattern language the validator uses.  Every
      quantifier of the source is a [+] on a one-character class. *)
Inductive regex : Type :=
  | Chr (a : ascii)                 (* a literal character *)
  | Cls (p : ascii -> bool)         (* one character of a class *)
  | Rep1 (p : ascii -> bool)        (* class+, greedy *)
  | Cat (r1 r2 : regex)
  | Alt (r1 r2 : regex)
  | Grp (i : nat) (r : regex)       (* capturing group number i *)
  | Bol                             (* ^ under re.MULTILINE *)
  | Eol.                            (* $ under re.MULTILINE *)

Fixpoint lit (s : string) : regex -> regex :=
    match s with
    | EmptyString => fun r => r
    | String c s' => fun r => Cat (Chr c) (lit s' r)
    end.

Definition captures := list (nat * string).

Fixpoint group (i : nat) (cs : captures) : string :=
    match cs with
    | [] => EmptyString
    | (j, s) :: cs' => if Nat.eqb i j then s else group i cs'
    end.

  (** A position in the subject: the character before it (for [^]) and
      the text from it on. *)
Definition result : Type := string * captures.
Definition cont : Type := option ascii -> string -> captures -> option result.

  (** The tail of a greedy [p+] after its first character: take one more
      character if possible and retry with fewer when the rest of the
      pattern fails. *)
Fixpoint star_loop (p : ascii -> bool) (k : option ascii -> string -> option result)
           (prev : option ascii) (s : string) : option result :=
    match s with
    | String c s' =>
        if p c then
          match star_loop p k (Some c) s' with
          | Some r => Some r
          | None => k prev s
          end
        else k prev s
    | EmptyString => k prev s
    end.

Definition at_bol (prev : option ascii) : bool :=
    match prev with
    | None => true
    | Some c => Char.is_char Char.newline c
    end.

Definition at_eol (s : string) : bool :=
    match s with
    | EmptyString => true
    | String c _ => Char.is_char Char.newline c
    end.

  (** The character before the position reached by reading [w]. *)
Fixpoint last_char (prev : option ascii) (w : string) : option ascii :=
    match w with
    | EmptyString => prev
    | String c w' => last_char (Some c) w'
    end.

  (** A greedy [p+] cannot go on into [t]. *)
Definition stops (p : ascii -> bool) (t : string) : Prop :=
    match t with
    | EmptyString => True
    | String c _ => p c = false
    end.

  (** What [s] has lost to reach its suffix [t]. *)
Definition consumed (s t : string) : string :=
    Str.take (String.length s - String.length t) s.

Fixpoint run (r : regex) (k : cont) (prev : option ascii) (s : string)
           (cs : captures) : option result :=
    match r with
    | Chr a =>
        match s with
        | String c s' => if Ascii.eqb c a then k (Some c) s' cs else None
        | EmptyString => None
        end
    | Cls p =>
        match s with
        | String c s' => if p c then k (Some c) s' cs else None
        | EmptyString => None
        end
    | Rep1 p =>
        match s with
        | String c s' =>
            if p c then star_loop p (fun pv t => k pv t cs) (Some c) s' else None
        | EmptyString => None
        end
    | Cat r1 r2 => run r1 (run r2 k) prev s cs
    | Alt r1 r2 =>
        match run r1 k prev s cs with
        | Some x => Some x
        | None => run r2 k prev s cs
        end
    | Grp i r1 => run r1 (fun pv t cs' => k pv t ((i, consumed s t) :: cs')) prev s cs
    | Bol => if at_bol prev then k prev s cs else None
    | Eol => if at_eol s then k prev s cs else None
    end.

  (** No [^] in the pattern. *)
Fixpoint bol_free (r : regex) : bool :=
    match r with
    | Bol => false
    | Cat r1 r2 | Alt r1 r2 => bol_free r1 && bol_free r2
    | Grp _ r1 => bol_free r1
    | _ => true
    end.

  (** A match object: [m.group(0)] and the numbered groups. *)
Record rmatch : Type := { m_text : string; m_groups : captures }.

Definition m_group (i : nat) (m : rmatch) : string := group i (m_groups m).

  (** A match of [r] that starts exactly here. *)
Definition match_here (r : regex) (prev : option ascii) (s : string) : option rmatch :=
    match run r (fun _ t cs => Some (t, cs)) prev s [] with
    | Some (t, cs) => Some {| m_text := consumed s t; m_groups := cs |}
    | None => None
    end.

  (** [re.finditer(r, s)]: the matches from left to right, none
      overlapping.  [skip] counts the characters of the last match that
      remain to be passed.  The patterns of the source never match the
      empty string; an empty match is not reported. *)
Fixpoint scan (r : regex) (skip : nat) (prev : option ascii) (s : string) : list rmatch :=
    match skip with
    | S n =>
        match s with
        | String c s' => scan r n (Some c) s'
        | EmptyString => []
        end
    | O =>
        match s with
        | String c s' =>
            match match_here r prev s with
            | Some m =>
                match String.length (m_text m) with
                | S n => m :: scan r n (Some c) s'
                | O => scan r 0 (Some c) s'
                end
            | None => scan r 0 (Some c) s'
            end
        | EmptyString => []
        end
    end.

Definition finditer (r : regex) (s : string) : list rmatch := scan r 0 None s.

  (** [re.sub(r, repl, s)], the replacement being computed from the match. *)
Fixpoint sub_scan (r : regex) (repl : rmatch -> string) (skip : nat)
           (prev : option ascii) (s : string) : string :=
    match skip with
    | S n =>
        match s with
        | String c s' => sub_scan r repl n (Some c) s'
        | EmptyString => EmptyString
        end
    | O =>
        match s with
        | String c s' =>
            match match_here r prev s with
            | Some m =>
                match String.length (m_text m) with
                | S n => String.append (repl m) (sub_scan r repl n (Some c) s')
                | O => String c (sub_scan r repl 0 (Some c) s')
                end
            | None => String c (sub_scan r repl 0 (Some c) s')
            end
        | EmptyString => EmptyString
        end
    end.

Definition sub (r : regex) (repl : rmatch -> string) (s : string) : string :=
    sub_scan r repl 0 None s.

End Re.

(* ===================================================================== *)
(** ** The patterns of the validator *)
(* ===================================================================== *)

Module Pat.
Import Re.

  (** [^#+\s+(.+)$] with [re.MULTILINE] *)
Definition header : regex :=
    Cat Bol (Cat (Rep1 (Char.is_char "#")) (Cat (Rep1 Char.space) (Cat (Grp 1 (Rep1 Char.dot)) Eol))).

  (** [[^\w\s-]] *)
Definition special_char (c : ascii) : bool :=
    negb (Char.word c || Char.space c || Char.is_char "-" c).
Definition special : regex := Cls special_char.

  (** [\s+] *)
Definition spaces : regex := Rep1 Char.space.

  (** [[A-Z]+-[A-Z]+-\d+] *)
Definition req_body : regex :=
    Cat (Rep1 Char.upper_AZ) (Cat (Chr "-") (Cat (Rep1 Char.upper_AZ) (Cat (Chr "-") (Rep1 Char.digit)))).

  (** [\[([A-Z]+-[A-Z]+-\d+)\]] *)
Definition req_id : regex := Cat (Chr "[") (Cat (Grp 1 req_body) (Chr "]")).

  (** [\[([^\]]+)\]\(([^)]+)\)] *)
Definition not_rbracket (c : ascii) : bool := negb (Char.is_char "]" c).
Definition not_rparen (c : ascii) : bool := negb (Char.is_char ")" c).
Definition link : regex :=
    Cat (Chr "[") (Cat (Grp 1 (Rep1 not_rbracket)) (Cat (Chr "]")
      (Cat (Chr "(") (Cat (Grp 2 (Rep1 not_rparen)) (Chr ")"))))).

  (** [(DBD-[A-Z]+-\d+|SRC-[A-Z]+-\d+)] *)
Definition family (p : string) : regex :=
    lit p (Cat (Rep1 Char.upper_AZ) (Cat (Chr "-") (Rep1 Char.digit))).
Definition orphan : regex := Grp 1 (Alt (family "DBD-") (family "SRC-")).

End Pat.

Definition nl : string := String Char.newline EmptyString.

(* ===================================================================== *)
(** ** Binary64 arithmetic of the health score *)
(* ===================================================================== *)

(** [int((valid / total) * 100)] is computed by Python on IEEE-754
    binary64 numbers: [/] on two integers returns the correctly rounded
    quotient, [*] the correctly rounded product, ties going to the even
    mantissa.  Only non-negative numbers occur.

    Every finite binary64 number is an integer multiple of [2^-1074], the
    smallest subnormal; a float is kept as that integer, so the float
    [m * 2^e] is the integer [m * 2^(e + 1074)]. *)
Module F64.
Local Open Scope Z_scope.

Definition float : Type := Z.

  (** One, in units of [2^-1074]. *)
Definition unit : Z := 2 ^ 1074.

  (** The integer nearest to [n / d], the even one on a tie ([0 <= n], [0 < d]). *)
Definition rne_div (n d : Z) : Z :=
    let q := n / d in
    match 2 * (n mod d) ?= d with
    | Lt => q
    | Gt => q + 1
    | Eq => if Z.even q then q else q + 1
    end.

  (** The exponent of the last mantissa bit of the binary64 number nearest
      to [n / d], counted from -1074: 52 below the leading bit of [n / d],
      and 0 for the subnormals. *)
Definition shift (n d : Z) : Z :=
    Z.max (Z.log2 (n * unit / d) - 52) 0.

  (** [n / d] rounded to nearest-even: a 53-bit mantissa at that exponent.
      [None] when the result is [2^1024] or more (Python raises
      [OverflowError]). *)
Definition round (n d : Z) : option float :=
    let s := shift n d in
    let m := rne_div (n * unit) (d * 2 ^ s) in
    let x := m * 2 ^ s in
    if x <? 2 ^ 1024 * unit then Some x else None.

  (** [float(k)] for a small integer, [0 <= k < 2^53]: exact. *)
Definition of_int (k : Z) : float := k * unit.

  (** [a / b] on two integers, [0 <= a], [0 < b] *)
Definition div_int (a b : Z) : option float := round a b.

  (** [x * y] on two floats *)
Definition mul (x y : float) : option float := round (x * y) (unit * unit).

  (** [int(x)]: the fraction is dropped. *)
Definition to_int (x : float) : Z := x / unit.

End F64.

(* ===================================================================== *)
(** ** The validator *)
(* ===================================================================== *)

(** A file of the documentation directory: [file_path.name] and what
    [file_path.read_text(encoding='utf-8')] returns. *)
Record Document : Type := { doc_name : string; doc_text : string }.

Record BrokenLink : Type :=
  { bl_file : string; bl_link_text : string; bl_link_target : string; bl_error : string }.

Record InvalidRequirement : Type :=
  { ir_file : string; ir_requirement_id : string; ir_error : string }.

Record OrphanedReference : Type :=
  { or_file : string; or_reference : string }.

(** [self] *)
Record LinkValidator : Type := {
  all_files : list Document;
  file_names : gset string;
  total_links : nat;
  valid_links : nat;
  broken_links : list BrokenLink;
  invalid_requirement_ids : list InvalidRequirement;
  missing_anchors : list string;
  orphaned_references : list OrphanedReference;
  documents_with_issues : list (string * list string);   (* in insertion order *)
  critical_issues : list string;
  warnings : list string;
  requirement_ids : gmap string (gset string);
  anchors : gmap string (gset string)
}.

(** [__init__] *)
Definition init (docs : list Document) : LinkValidator := {|
  all_files := docs;
  file_names := list_to_set (map doc_name docs);
  total_links := 0;
  valid_links := 0;
  broken_links := [];
  invalid_requirement_ids := [];
  missing_anchors := [];
  orphaned_references := [];
  documents_with_issues := [];
  critical_issues := [];
  warnings := [];
  requirement_ids := ∅;
  anchors := ∅
|}.

(** Lines 43-44: the anchor of a header. *)
Definition header_anchor (header : string) : string :=
  let anchor := Re.sub Pat.special (fun _ => "") (Str.lower header) in
  Re.sub Pat.spaces (fun _ => "-") (Str.strip anchor).

Definition extract_anchors_from_file (file_path : Document) : gset string :=
  let anchors : gset string := ∅ in
  let content := doc_text file_path in
  let anchors :=
    fold_left (fun (anchors : gset string) m =>
                 let header := Re.m_group 1 m in
                 {[ header_anchor header ]} ∪ anchors)
              (Re.finditer Pat.header content) anchors in
  let anchors :=
    fold_left (fun (anchors : gset string) m =>
                 let req_id := Re.m_group 1 m in
                 {[ req_id ]} ∪ ({[ Str.lower req_id ]} ∪ anchors))
              (Re.finditer Pat.req_id content) anchors in
  anchors.

Definition extract_requirement_ids_from_file (file_path : Document) : gset string :=
  let req_ids : gset string := ∅ in
  let content := doc_text file_path in
  fold_left (fun (req_ids : gset string) m => {[ Re.m_group 1 m ]} ∪ req_ids)
            (Re.finditer Pat.req_id content) req_ids.

Definition set_anchors (self : LinkValidator) (a : gmap string (gset string))
           (r : gmap string (gset string)) : LinkValidator :=
  {| all_files := all_files self; file_names := file_names self;
     total_links := total_links self; valid_links := valid_links self;
     broken_links := broken_links self;
     invalid_requirement_ids := invalid_requirement_ids self;
     missing_anchors := missing_anchors self;
     orphaned_references := orphaned_references self;
     documents_with_issues := documents_with_issues self;
     critical_issues := critical_issues self; warnings := warnings self;
     requirement_ids := r; anchors := a |}.

Definition cache_all_anchors_and_ids (self : LinkValidator) : LinkValidator :=
  fold_left (fun self file_path =>
               set_anchors self
                 (<[ doc_name file_path := extract_anchors_from_file file_path ]> (anchors self))
                 (<[ doc_name file_path := extract_requirement_ids_from_file file_path ]> (requirement_ids self)))
            (all_files self) self.

Definition validate_link (self : LinkValidator) (source_file : Document)
           (link_text link_target : string) : bool * string :=
  let '(file_part, anchor_part) :=
    if Str.has_char "#" link_target
    then let '(f, a) := Str.split_first "#" link_target in (f, Some a)
    else (link_target, None) in
  let target_file :=
    match file_part with
    | EmptyString => doc_name source_file
    | _ => file_part
    end in
  if negb (bool_decide (target_file ∈ file_names self))
  then (false, "Target file not found: " +:+ target_file)
  else
    match anchor_part with
    | Some (String _ _ as anchor_part) =>
        match anchors self !! target_file with
        | None => (false, "No anchors cached for " +:+ target_file)
        | Some known =>
            if negb (bool_decide (anchor_part ∈ known))
            then (false, "Anchor #" +:+ anchor_part +:+ " not found in " +:+ target_file)
            else (true, "")
        end
    | _ => (true, "")
    end.

Definition extract_links_from_file (file_path : Document) : list (string * string) :=
  let content := doc_text file_path in
  fold_left (fun links m =>
               let link_text := Re.m_group 1 m in
               let link_target := Re.m_group 2 m in
               if Str.startswith "http://" link_target || Str.startswith "https://" link_target
               then links
               else links ++ [(link_text, link_target)])
            (Re.finditer Pat.link content) [].

Definition find_requirement_references (file_path : Document) : list string :=
  let content := doc_text file_path in
  fold_left (fun refs m => refs ++ [Re.m_group 1 m]) (Re.finditer Pat.req_id content) [].

(** A value of [file_map]: one file name or a list of them. *)
Inductive expected : Type :=
| One (f : string)
| Many (fs : list string).

Definition file_map : list (string * expected) :=
  [ ("REQ", One "REQ001-requirements.md");
    ("GOV", Many ["GOV001-document_hierarchy.md"; "GOV002-requirements_enumeration.md";
                  "GOV003-filename_convention.md"]);
    ("ARCH", One "SPEC001-architecture.md");
    ("XFD", One "SPEC002-crossfade.md");
    ("FLV", One "SPEC003-musical_flavor.md");
    ("API", One "SPEC007-api_design.md");
    ("DBD", One "SPEC016-decoder_buffer_design.md");
    ("SRC", One "SPEC017-sample_rate_conversion.md");
    ("VOL", One "SPEC013-single_stream_playback.md");
    ("SSP", One "SPEC014-single_stream_design.md");
    ("DB", One "IMPL001-database_schema.md") ].

Fixpoint dict_get {V : Type} (d : list (string * V)) (k : string) : option V :=
  match d with
  | [] => None
  | (k', v) :: d' => if String.eqb k' k then Some v else dict_get d' k
  end.

(** [file_map.get(prefix, [])], a single name wrapped in a list. *)
Definition expected_files_of (prefix : string) : list string :=
  match dict_get file_map prefix with
  | None => []
  | Some (One f) => [f]
  | Some (Many fs) => fs
  end.

Definition defined_in (self : LinkValidator) (req_id expected_file : string) : bool :=
  match requirement_ids self !! expected_file with
  | Some ids => bool_decide (req_id ∈ ids)
  | None => false
  end.

Definition validate_requirement_reference (self : LinkValidator) (req_id : string)
  : bool * string :=
  let prefix := Str.before_first "-" req_id in
  let expected_files := expected_files_of prefix in
  match expected_files with
  | [] => (true, "")
  | _ =>
      if existsb (defined_in self req_id) expected_files
      then (true, "")
      else (false, "Requirement ID " +:+ req_id +:+ " not found in expected file(s): "
                   +:+ Str.join ", " expected_files)
  end.

Definition find_orphaned_references (file_path : Document) : list string :=
  let content := doc_text file_path in
  let content_no_links := Re.sub Pat.link (Re.m_group 1) content in
  fold_left (fun orphaned m => orphaned ++ [Re.m_group 1 m])
            (Re.finditer Pat.orphan content_no_links) [].

(** *** The main loop *)

(** [self.documents_with_issues[name].append(error)] on a
    [defaultdict(list)]: a new key goes last. *)
Fixpoint dwi_append (name error : string) (d : list (string * list string))
  : list (string * list string) :=
  match d with
  | [] => [(name, [error])]
  | (k, errors) :: d' =>
      if String.eqb k name then (k, errors ++ [error]) :: d'
      else (k, errors) :: dwi_append name error d'
  end.

(** The result lists and counters the loop writes to. *)
Definition set_results (self : LinkValidator) (total valid : nat)
           (broken : list BrokenLink) (invalid : list InvalidRequirement)
           (orphans : list OrphanedReference) (dwi : list (string * list string))
           (critical warns : list string) : LinkValidator :=
  {| all_files := all_files self; file_names := file_names self;
     total_links := total; valid_links := valid;
     broken_links := broken;
     invalid_requirement_ids := invalid;
     missing_anchors := missing_anchors self;
     orphaned_references := orphans;
     documents_with_issues := dwi;
     critical_issues := critical; warnings := warns;
     requirement_ids := requirement_ids self; anchors := anchors self |}.

(** Lines 203-218: one link of [file_path]. *)
Definition check_link (file_path : Document) (self : LinkValidator)
           (link : string * string) : LinkValidator :=
  let '(link_text, link_target) := link in
  let total := S (total_links self) in
  let '(is_valid, error) := validate_link self file_path link_text link_target in
  if is_valid then
    set_results self total (S (valid_links self)) (broken_links self)
      (invalid_requirement_ids self) (orphaned_references self)
      (documents_with_issues self) (critical_issues self) (warnings self)
  else
    let broken := broken_links self ++
      [ {| bl_file := doc_name file_path; bl_link_text := link_text;
           bl_link_target := link_target; bl_error := error |} ] in
    let dwi := dwi_append (doc_name file_path) error (documents_with_issues self) in
    let critical :=
      if Str.contains "SPEC016" link_target || Str.contains "SPEC017" link_target
      then critical_issues self ++ [doc_name file_path +:+ ": " +:+ error]
      else critical_issues self in
    set_results self total (valid_links self) broken
      (invalid_requirement_ids self) (orphaned_references self)
      dwi critical (warnings self).

(** Lines 223-231: one requirement reference of [file_path]. *)
Definition check_requirement (file_path : Document) (self : LinkValidator)
           (req_id : string) : LinkValidator :=
  let '(is_valid, error) := validate_requirement_reference self req_id in
  if negb is_valid then
    set_results self (total_links self) (valid_links self) (broken_links self)
      (invalid_requirement_ids self ++
         [ {| ir_file := doc_name file_path; ir_requirement_id := req_id;
              ir_error := error |} ])
      (orphaned_references self)
      (dwi_append (doc_name file_path) error (documents_with_issues self))
      (critical_issues self) (warnings self)
  else self.

(** Lines 237-241: one orphaned reference of [file_path]. *)
Definition note_orphan (file_path : Document) (self : LinkValidator)
           (ref : string) : LinkValidator :=
  set_results self (total_links self) (valid_links self) (broken_links self)
    (invalid_requirement_ids self)
    (orphaned_references self ++
       [ {| or_file := doc_name file_path; or_reference := ref |} ])
    (documents_with_issues self) (critical_issues self)
    (warnings self ++
       [doc_name file_path +:+ ": Orphaned reference " +:+ ref +:+ " (not in markdown link)"]).

(** The body of the loop over [self.all_files]. *)
Definition check_file (self : LinkValidator) (file_path : Document) : LinkValidator :=
  let links := extract_links_from_file file_path in
  let self := fold_left (check_link file_path) links self in
  let req_refs := find_requirement_references file_path in
  let self := fold_left (check_requirement file_path) req_refs self in
  let orphaned := find_orphaned_references file_path in
  fold_left (note_orphan file_path) orphaned self.

(** *** The report *)

Record Summary : Type := {
  s_total_files_checked : nat;
  s_total_links : nat;
  s_valid_links : nat;
  s_broken_links_count : nat;
  s_invalid_req_ids_count : nat;
  s_orphaned_refs_count : nat;
  s_critical_issues_count : nat;
  s_warnings_count : nat;
  s_health_score : Z
}.

Record Report : Type := {
  r_total_links_checked : nat;
  r_valid_links : nat;
  r_broken_links : list BrokenLink;
  r_invalid_requirement_ids : list InvalidRequirement;
  r_missing_anchors : list string;
  r_orphaned_references : list OrphanedReference;
  r_documents_with_issues : list (string * list string);
  r_critical_issues : list string;
  r_warnings : list string;
  r_health_score : Z;
  r_summary : Summary
}.

(** Lines 250-253: [int((valid_links / total_links) * 100)], or 100 when
    no link was checked.  [None] stands for an exception of the float
    arithmetic. *)
Definition link_score (total_links valid_links : nat) : option Z :=
  if (0 <? total_links)%nat then
    match F64.div_int (Z.of_nat valid_links) (Z.of_nat total_links) with
    | Some q =>
        match F64.mul q (F64.of_int 100) with
        | Some p => Some (F64.to_int p)
        | None => None
        end
    | None => None
    end
  else Some 100%Z.

(** Lines 256-257: the adjustment for requirement ID issues, made when
    the list of them is not empty. *)
Definition penalised (health_score : Z) (invalid_count : nat) : Z :=
  match invalid_count with
  | O => health_score
  | S _ => Z.max 0 (health_score - Z.of_nat invalid_count * 2)
  end.

Definition health_score (total_links valid_links invalid_count : nat) : option Z :=
  match link_score total_links valid_links with
  | Some health_score => Some (penalised health_score invalid_count)
  | None => None
  end.

(** [sorted(items, key=lambda x: len(x[1]), reverse=True)]: a stable sort,
    entries with as many issues keep their order. *)
Fixpoint insert_by_count (x : string * list string) (l : list (string * list string))
  : list (string * list string) :=
  match l with
  | [] => [x]
  | y :: l' =>
      if (length (snd y) <=? length (snd x))%nat then x :: y :: l'
      else y :: insert_by_count x l'
  end.

Definition sorted_by_count (d : list (string * list string)) : list (string * list string) :=
  fold_right insert_by_count [] d.

Definition generate_report (self : LinkValidator) : option Report :=
  match health_score (total_links self) (valid_links self)
                     (length (invalid_requirement_ids self)) with
  | Some health_score =>
      let docs_sorted := firstn 10 (sorted_by_count (documents_with_issues self)) in
      Some {|
        r_total_links_checked := total_links self;
        r_valid_links := valid_links self;
        r_broken_links := broken_links self;
        r_invalid_requirement_ids := invalid_requirement_ids self;
        r_missing_anchors := missing_anchors self;
        r_orphaned_references := orphaned_references self;
        r_documents_with_issues := docs_sorted;
        r_critical_issues := critical_issues self;
        r_warnings := warnings self;
        r_health_score := health_score;
        r_summary := {|
          s_total_files_checked := length (all_files self);
          s_total_links := total_links self;
          s_valid_links := valid_links self;
          s_broken_links_count := length (broken_links self);
          s_invalid_req_ids_count := length (invalid_requirement_ids self);
          s_orphaned_refs_count := length (orphaned_references self);
          s_critical_issues_count := length (critical_issues self);
          s_warnings_count := length (warnings self);
          s_health_score := health_score
        |}
      |}
  | None => None
  end.

Definition validate_all (self : LinkValidator) : option Report :=
  let self := cache_all_anchors_and_ids self in
  let self := fold_left check_file (all_files self) self in
  generate_report self.

(** [LinkValidator(docs_dir).validate_all()] for a directory holding [docs]. *)
Definition run_validator (docs : list Document) : option Report :=
  validate_all (init docs).

(* ===================================================================== *)
(** ** What a file contributes to the results *)
(* ===================================================================== *)

(** The verdicts of the checks of file [d] against the caches of [c]. *)

Definition link_ok (c : LinkValidator) (d : Document) (l : string * string) : bool :=
  fst (validate_link c d (fst l) (snd l)).

Definition link_error (c : LinkValidator) (d : Document) (l : string * string) : string :=
  snd (validate_link c d (fst l) (snd l)).

Definition broken_entry (c : LinkValidator) (d : Document) (l : string * string) : BrokenLink :=
  {| bl_file := doc_name d; bl_link_text := fst l; bl_link_target := snd l;
     bl_error := link_error c d l |}.

(** The test of line 217. *)
Definition names_spec016_017 (link_target : string) : bool :=
  Str.contains "SPEC016" link_target || Str.contains "SPEC017" link_target.

Definition critical_entry (c : LinkValidator) (d : Document) (l : string * string) : string :=
  doc_name d +:+ ": " +:+ link_error c d l.

Definition broken_of (c : LinkValidator) (d : Document) (links : list (string * string))
  : list (string * string) :=
  List.filter (fun l => negb (link_ok c d l)) links.

Definition critical_of (c : LinkValidator) (d : Document) (links : list (string * string))
  : list (string * string) :=
  List.filter (fun l => names_spec016_017 (snd l)) (broken_of c d links).

Definition req_ok (c : LinkValidator) (r : string) : bool :=
  fst (validate_requirement_reference c r).

Definition req_error (c : LinkValidator) (r : string) : string :=
  snd (validate_requirement_reference c r).

Definition invalid_entry (c : LinkValidator) (d : Document) (r : string) : InvalidRequirement :=
  {| ir_file := doc_name d; ir_requirement_id := r; ir_error := req_error c r |}.

Definition invalid_of (c : LinkValidator) (refs : list string) : list string :=
  List.filter (fun r => negb (req_ok c r)) refs.

Definition orphan_entry (d : Document) (ref : string) : OrphanedReference :=
  {| or_file := doc_name d; or_reference := ref |}.

Definition orphan_warning (d : Document) (ref : string) : string :=
  doc_name d +:+ ": Orphaned reference " +:+ ref +:+ " (not in markdown link)".

Definition dwi_extend (d : Document) (errors : list string) (dwi : list (string * list string))
  : list (string * list string) :=
  fold_left (fun dwi e => dwi_append (doc_name d) e dwi) errors dwi.

(** The errors [d] contributes to [documents_with_issues], in order. *)
Definition errors_of_file (c : LinkValidator) (d : Document) : list string :=
  map (link_error c d) (broken_of c d (extract_links_from_file d)) ++
  map (req_error c) (invalid_of c (find_requirement_references d)).

(** What the checks read of [self]: the file names and the two caches. *)
Definition same_cache (c self : LinkValidator) : Prop :=
  file_names self = file_names c /\ anchors self = anchors c /\
  requirement_ids self = requirement_ids c.

(** [self] once the caches are filled. *)
Definition cached (docs : list Document) : LinkValidator :=
  cache_all_anchors_and_ids (init docs).

(** The state the report is generated from. *)
Definition final_state (docs : list Document) : LinkValidator :=
  fold_left check_file docs (cached docs).

(* ===================================================================== *)
(** * apply-edits.py: the edits of a plan, grouped by priority *)
(* ===================================================================== *)

Module ApplyEdits.

(** A value of the plan as the comparisons of lines 20-22 see it: a string,
    or anything else, which is equal to no string. *)
Inductive value : Type :=
| Text (s : string)
| Other.

(** An edit is a JSON object. *)
Definition Edit : Type := gmap string value.

(** [v == p] for a string [p]. *)
Definition value_eqb (v : value) (p : string) : bool :=
  match v with
  | Text s => String.eqb s p
  | Other => false
  end.

(** [[e for e in edits if e['priority'] == p]]; [None] is the [KeyError]
    of an edit without the key. *)
Fixpoint edits_with (p : string) (edits : list Edit) : option (list Edit) :=
  match edits with
  | [] => Some []
  | e :: rest =>
      match e !! "priority" with
      | None => None
      | Some v =>
          match edits_with p rest with
          | None => None
          | Some l => Some (if value_eqb v p then e :: l else l)
          end
      end
  end.

(** Lines 20-22. *)
Definition high_edits : list Edit -> option (list Edit) := edits_with "HIGH".
Definition medium_edits : list Edit -> option (list Edit) := edits_with "MEDIUM".
Definition low_edits : list Edit -> option (list Edit) := edits_with "LOW".

End ApplyEdits.

(* ===================================================================== *)
(** ** The specification's wording, for comparison *)
(* ===================================================================== *)


(** The resolved target file of a link: the source document for an empty
    file part. *)
Definition target_file_of (source_file : Document) (file_part : string) : string :=
  match file_part with
  | EmptyString => doc_name source_file
  | _ => file_part
  end.

(** "[A] is in the anchor set of the target document". *)
Definition anchor_known (self : LinkValidator) (target_file anchor : string) : Prop :=
  exists known : gset string, anchors self !! target_file = Some known /\ anchor ∈ known.

(** "The token appears in the requirement index of document [f]". *)
Definition indexed_in (self : LinkValidator) (req_id f : string) : Prop :=
  exists ids : gset string, requirement_ids self !! f = Some ids /\ req_id ∈ ids.

(* ===================================================================== *)
(** ** A small documentation directory *)
(* ===================================================================== *)

Definition sample_a : Document :=
  {| doc_name := "A.md";
     doc_text := "[text](B.md#missing) [ok](B.md#other) [top](B.md#) [dec](SPEC016-x.md) [far](C.md)" |}.

Definition sample_b : Document :=
  {| doc_name := "B.md";
     doc_text := "# Other" +:+ nl +:+ "[REQ-API-1] see DBD-FOO-2 and [DBD-X-1](A.md)" |}.

Definition sample_docs : list Document := [sample_a; sample_b].


(** A mention of a requirement outside any link, and nothing else. *)
Definition sample_orphan : Document :=
  {| doc_name := "O.md"; doc_text := "see SRC-AB-1" |}.

Definition has_issues (entry : string * list string) : bool :=
  match snd entry with
  | [] => false
  | _ :: _ => true
  end.

(** [documents_with_issues] as specified: for each document the broken-link
    errors, the invalid-requirement errors and the orphan warnings together,
    the ten documents with most of them being kept. *)
Definition spec_documents_with_issues (docs : list Document) : list (string * list string) :=
  firstn 10
    (sorted_by_count
       (List.filter has_issues
          (map (fun d => (doc_name d,
                          errors_of_file (cached docs) d ++
                          map (orphan_warning d) (find_orphaned_references d)))
               docs))).

(** The number of issues of an entry of [documents_with_issues]. *)
Definition issue_count (entry : string * list string) : nat := length (snd entry).

(** [x] comes before [y] in a list sorted by decreasing count. *)
Definition by_count_desc (x y : string * list string) : Prop :=
  issue_count y <= issue_count x.

(** The tally the loop builds: each document with an error, mapped to its
    broken-link errors followed by its invalid-requirement errors. *)
Definition error_tally (docs : list Document) : list (string * list string) :=
  List.filter has_issues
    (map (fun d => (doc_name d, errors_of_file (cached docs) d)) docs).

(* ===================================================================== *)
(** ** The shapes the patterns describe *)
(* ===================================================================== *)

(** A non-empty word over a character class. *)
Definition word_of (p : ascii -> bool) (w : string) : Prop :=
  w <> "" /\ Str.all p w = true.

(** [PREFIX-CATEGORY-NUMBER]: the text matched by [[A-Z]+-[A-Z]+-\d+]. *)
Definition req_token (tok : string) : Prop :=
  exists P C N : string,
    tok = P +:+ "-" +:+ C +:+ "-" +:+ N /\
    word_of Char.upper_AZ P /\ word_of Char.upper_AZ C /\ word_of Char.digit N.

(** [DBD-CATEGORY-NUMBER] or [SRC-CATEGORY-NUMBER]: the text matched by
    the orphan pattern. *)
Definition orphan_token (tok : string) : Prop :=
  exists F C N : string,
    tok = F +:+ C +:+ "-" +:+ N /\ (F = "DBD-" \/ F = "SRC-") /\
    word_of Char.upper_AZ C /\ word_of Char.digit N.

(** A link text and a link target as the link pattern takes them. *)
Definition link_text_shape (x : string) : Prop := word_of Pat.not_rbracket x.
Definition link_target_shape (x : string) : Prop := word_of Pat.not_rparen x.

(** The text of a link [[x](y)]. *)
Definition link_markup (x y : string) : string := "[" +:+ x +:+ "](" +:+ y +:+ ")".

(** [s] occurs in [content]. *)
Definition occurs_in (s content : string) : Prop :=
  exists pre post : string, content = pre +:+ s +:+ post.

(* ===================================================================== *)
(** ** Vocabulary for the facts on patterns *)
(* ===================================================================== *)

(** The longest prefix in a class, and what follows it. *)
Fixpoint take_while (p : ascii -> bool) (s : string) : string :=
  match s with
  | String c s' => if p c then String c (take_while p s') else EmptyString
  | EmptyString => EmptyString
  end.

Fixpoint drop_while (p : ascii -> bool) (s : string) : string :=
  match s with
  | String c s' => if p c then drop_while p s' else s
  | EmptyString => EmptyString
  end.

(** One hyphen for each run of white space; [in_run] tells that the
    hyphen of the current run is already written. *)
Fixpoint collapse_spaces (in_run : bool) (s : string) : string :=
  match s with
  | EmptyString => EmptyString
  | String c s' =>
      if Char.space c
      then if in_run then collapse_spaces true s' else String "-" (collapse_spaces true s')
      else String c (collapse_spaces false s')
  end.

(** The characters [[^\w\s-]] leaves in place. *)
Definition kept_char (c : ascii) : bool := negb (Pat.special_char c).

(** The characters an anchor of a header is made of. *)
Definition anchor_char (c : ascii) : bool := Char.word c || Char.is_char "-" c.

(** The characters [str.lower()] leaves as they are. *)
Definition lower_fixed (c : ascii) : bool := Ascii.eqb (Char.lower c) c.

(** An external URL, by the test of line 119. *)
Definition external (link_target : string) : bool :=
  Str.startswith "http://" link_target || Str.startswith "https://" link_target.

(** A file given by its name and text. *)
Definition text_doc (name content : string) : Document :=
  {| doc_name := name; doc_text := content |}.

(** The body of the loop of [cache_all_anchors_and_ids]. *)
Definition cache_step (self : LinkValidator) (file_path : Document) : LinkValidator :=
  set_anchors self
    (<[ doc_name file_path := extract_anchors_from_file file_path ]> (anchors self))
    (<[ doc_name file_path := extract_requirement_ids_from_file file_path ]>
       (requirement_ids self)).

(** The priorities that have a group. *)
Definition grouped (e : ApplyEdits.Edit) : Prop :=
  exists p, e !! "priority" = Some (ApplyEdits.Text p) /\ In p ["HIGH"; "MEDIUM"; "LOW"].

Definition plan_sample : list ApplyEdits.Edit :=
  [ {[ "priority" := ApplyEdits.Text "HIGH" ]}; {[ "priority" := ApplyEdits.Text "URGENT" ]} ].


(* ===================================================================== *)
(** ** Vocabulary for the results of a run *)
(* ===================================================================== *)

(** [k] is [l] restricted to the elements that satisfy [P], in the order
    of [l]. *)
Inductive restricted {A : Type} (P : A -> Prop) : list A -> list A -> Prop :=
| restricted_nil : restricted P [] []
| restricted_keep (x : A) (l k : list A) :
    P x -> restricted P l k -> restricted P (x :: l) (x :: k)
| restricted_skip (x : A) (l k : list A) :
    ~ P x -> restricted P l k -> restricted P (x :: l) k.

(** The entries of [l] with [c] issues, in the order of [l]. *)
Definition with_count (c : nat) (l : list (string * list string)) : list (string * list string) :=
  List.filter (fun e => Nat.eqb (issue_count e) c) l.

(** [s] is [l] sorted by decreasing count, entries with as many issues
    keeping the order they have in [l]. *)
Definition stable_by_count (l s : list (string * list string)) : Prop :=
  Sorted by_count_desc s /\ forall c, with_count c s = with_count c l.

(** A hundred links, twenty-nine of them valid. *)
Definition sample_hundred : Document :=
  {| doc_name := "H.md";
     doc_text := String.concat " " (repeat "[a](H.md)" 29 ++ repeat "[b](nowhere.md)" 71) |}.

(** The fixed mapping of a prefix to its candidate documents, a single
    document being a list of one. *)
Definition prefix_documents : list (string * list string) :=
  [ ("REQ", ["REQ001-requirements.md"]);
    ("GOV", ["GOV001-document_hierarchy.md"; "GOV002-requirements_enumeration.md";
             "GOV003-filename_convention.md"]);
    ("ARCH", ["SPEC001-architecture.md"]);
    ("XFD", ["SPEC002-crossfade.md"]);
    ("FLV", ["SPEC003-musical_flavor.md"]);
    ("API", ["SPEC007-api_design.md"]);
    ("DBD", ["SPEC016-decoder_buffer_design.md"]);
    ("SRC", ["SPEC017-sample_rate_conversion.md"]);
    ("VOL", ["SPEC013-single_stream_playback.md"]);
    ("SSP", ["SPEC014-single_stream_design.md"]);
    ("DB", ["IMPL001-database_schema.md"]) ].

(** "[P] is mapped, to the candidate documents [files]". *)
Definition mapped_to (P : string) (files : list string) : Prop :=
  In (P, files) prefix_documents.

(** "[P] is the PREFIX of the token": the token is [P], a hyphen and the
    rest, and there is no hyphen in [P]. *)
Definition has_prefix (tok P : string) : Prop :=
  exists rest : string, tok = P +:+ "-" +:+ rest /\ Str.has_char "-" P = false.

(** "The token appears in the requirement index of the document [f]": a
    file of the directory has that name and [[token]] in its text. *)
Definition defined_by (docs : list Document) (tok f : string) : Prop :=
  exists d, In d docs /\ doc_name d = f /\ occurs_in ("[" +:+ tok +:+ "]") (doc_text d).

(** A reference that must give an issue: its prefix is mapped and none of
    the candidate documents defines the token. *)
Definition undefined_reference (docs : list Document) (tok : string) : Prop :=
  exists P files,
    has_prefix tok P /\ mapped_to P files /\
    forall f, In f files -> ~ defined_by docs tok f.

(** The message of the issue: it lists the candidate documents. *)
Definition requirement_error (tok : string) (files : list string) : string :=
  "Requirement ID " +:+ tok +:+ " not found in expected file(s): " +:+ Str.join ", " files.

(** The issue [e] reports the reference [snd x] of the file [fst x]. *)
Definition reports_reference (x : Document * string) (e : InvalidRequirement) : Prop :=
  ir_file e = doc_name (fst x) /\ ir_requirement_id e = snd x /\
  exists P files,
    has_prefix (snd x) P /\ mapped_to P files /\
    ir_error e = requirement_error (snd x) files /\
    forall f, In f files -> occurs_in f (ir_error e).

(** "The target contains [SPEC016] or [SPEC017]". *)
Definition escalated (link_target : string) : Prop :=
  occurs_in "SPEC016" link_target \/ occurs_in "SPEC017" link_target.

(** The link [l] of the file [d] is broken in a run over [docs]. *)
Definition broken_in (docs : list Document) (d : Document) (l : string * string) : Prop :=
  fst (validate_link (cached docs) d (fst l) (snd l)) = false.


(** The health score if the percentage were the integer part of the exact
    quotient [100 * valid / total]. *)
Definition floor_health_score (total_links valid_links invalid_count : nat) : Z :=
  let base :=
    if (0 <? total_links)%nat
    then (100 * Z.of_nat valid_links / Z.of_nat total_links)%Z
    else 100%Z in
  Z.max 0 (base - 2 * Z.of_nat invalid_count).

(** [s] without its last characters in the class [p]. *)
Fixpoint drop_trailing (p : ascii -> bool) (s : string) : string :=
  match s with
  | EmptyString => EmptyString
  | String c s' =>
      match drop_trailing p s' with
      | EmptyString => if p c then EmptyString else String c EmptyString
      | r => String c r
      end
  end.

(** [s] without the hyphens at its start and at its end. *)
Definition trim_hyphens (s : string) : string :=
  drop_trailing (Char.is_char "-") (drop_while (Char.is_char "-") s).

(** The anchor of a header title as specified: lower case, the characters
    that are neither word characters, white space nor hyphens removed, each
    run of white space replaced by one hyphen, the hyphens at both ends
    trimmed. *)
Definition spec_header_anchor (header : string) : string :=
  trim_hyphens (collapse_spaces false (Str.keep kept_char (Str.lower header))).
(* ===================================================================== *)
(** ** Facts on the binary64 arithmetic *)
(* ===================================================================== *)

Module F64Facts.
Import F64.
Local Open Scope Z_scope.

Lemma div_mod_split n d : 0 < d -> n = d * (n / d) + n mod d /\ 0 <= n mod d < d.
  Proof.
    intros Hd. split; [apply Z.div_mod; lia | apply Z.mod_pos_bound; lia].
  Qed.

Lemma rne_div_le n d k : 0 < d -> n <= k * d -> rne_div n d <= k.
  Proof.
    intros Hd Hn. unfold rne_div.
    destruct (div_mod_split n d Hd) as [E [R0 R1]].
    destruct (Z.compare_spec (2 * (n mod d)) d); [destruct (Z.even (n / d)) | |]; nia.
  Qed.

Lemma rne_div_ge n d k : 0 < d -> k * d <= n -> k <= rne_div n d.
  Proof.
    intros Hd Hn. unfold rne_div.
    destruct (div_mod_split n d Hd) as [E [R0 R1]].
    destruct (Z.compare_spec (2 * (n mod d)) d); [destruct (Z.even (n / d)) | |]; nia.
  Qed.

  (** The rounded quotient is within one half of the exact one. *)
Lemma rne_div_error n d :
    0 < d -> - d <= 2 * (rne_div n d * d - n) <= d.
  Proof.
    intros Hd. unfold rne_div.
    destruct (div_mod_split n d Hd) as [E [R0 R1]].
    destruct (Z.compare_spec (2 * (n mod d)) d); [destruct (Z.even (n / d)) | |]; nia.
  Qed.

Lemma even_odd_lt a b : Z.even a = false -> Z.even b = true -> a <= b -> a + 1 <= b.
  Proof.
    intros Ha Hb Hab. destruct (Z.eq_dec a b) as [->|]; [congruence | lia].
  Qed.

  (** Rounding to nearest-even is monotone on fractions. *)
Lemma rne_div_mono n1 d1 n2 d2 :
    0 < d1 -> 0 < d2 -> n1 * d2 <= n2 * d1 -> rne_div n1 d1 <= rne_div n2 d2.
  Proof.
    intros H1 H2 Hle. unfold rne_div.
    destruct (div_mod_split n1 d1 H1) as [E1 [A1 B1]].
    destruct (div_mod_split n2 d2 H2) as [E2 [A2 B2]].
    set (q1 := n1 / d1) in *. set (q2 := n2 / d2) in *.
    set (r1 := n1 mod d1) in *. set (r2 := n2 mod d2) in *.
    assert (Hq : q1 <= q2).
    { destruct (Z_le_gt_dec q1 q2); [assumption | exfalso].
      assert (d1 * (q2 + 1) * d2 <= n1 * d2) by nia.
      assert (n2 * d1 < d2 * (q2 + 1) * d1) by nia.
      lia. }
    destruct (Z.compare_spec (2 * r1) d1) as [T1|T1|T1];
      destruct (Z.compare_spec (2 * r2) d2) as [T2|T2|T2];
      try destruct (Z.even q1) eqn:P1; try destruct (Z.even q2) eqn:P2;
      try lia;
      try (destruct (Z.eq_dec q1 q2) as [Heq|Hne]; [| lia]; exfalso;
           try (rewrite Heq in P1; congruence); nia).
  Qed.


Lemma unit_pos : 0 < unit.
  Proof. unfold unit. apply Z.pow_pos_nonneg; lia. Qed.

Lemma shift_nonneg n d : 0 <= shift n d.
  Proof. unfold shift. lia. Qed.

Lemma floor_mono n1 d1 n2 d2 :
    0 < d1 -> 0 < d2 -> n1 * d2 <= n2 * d1 -> n1 / d1 <= n2 / d2.
  Proof.
    intros H1 H2 Hle. apply Z.div_le_lower_bound; [assumption |].
    pose proof (Z.mul_div_le n1 d1 H1) as Hfl.
    assert (d2 * (n1 / d1) * d1 <= n2 * d1) by nia. nia.
  Qed.

Lemma shift_mono n1 d1 n2 d2 :
    0 < d1 -> 0 < d2 -> n1 * d2 <= n2 * d1 -> shift n1 d1 <= shift n2 d2.
  Proof.
    intros H1 H2 Hle. unfold shift.
    assert (Hy : n1 * unit / d1 <= n2 * unit / d2).
    { apply floor_mono; try assumption. pose proof unit_pos. nia. }
    pose proof (Z.log2_le_mono _ _ Hy). lia.
  Qed.

  (** Below [2^(shift + 53)]: the mantissa has at most 53 bits. *)
Lemma shift_upper n d :
    0 < d -> 0 <= n -> n * unit < 2 ^ (shift n d + 53) * d.
  Proof.
    intros Hd Hn. pose proof unit_pos as HP.
    set (y := n * unit / d).
    assert (Hy0 : 0 <= y) by (apply Z.div_pos; nia).
    assert (Hlt : n * unit < (y + 1) * d).
    { destruct (div_mod_split (n * unit) d Hd) as [E [R0 R1]]. fold y in E. nia. }
    assert (Hs : Z.log2 y + 1 <= shift n d + 53) by (unfold shift; fold y; lia).
    assert (Hy1 : y + 1 <= 2 ^ (shift n d + 53)).
    { destruct (Z.eq_dec y 0) as [-> | Hne].
      - assert (0 < 2 ^ (shift n d + 53)) by (apply Z.pow_pos_nonneg; pose proof (shift_nonneg n d); lia).
        lia.
      - destruct (Z.log2_spec y ltac:(lia)) as [_ Hup].
        assert (2 ^ Z.succ (Z.log2 y) <= 2 ^ (shift n d + 53))
          by (apply Z.pow_le_mono_r; pose proof (Z.log2_nonneg y); lia).
        lia. }
    nia.
  Qed.

  (** At a positive shift the mantissa has all its 53 bits. *)
Lemma shift_lower n d :
    0 < d -> 0 < shift n d -> 2 ^ (shift n d + 52) * d <= n * unit.
  Proof.
    intros Hd Hs. set (y := n * unit / d).
    assert (Hl : shift n d = Z.log2 y - 52) by (unfold shift in *; fold y in Hs |- *; lia).
    assert (Hy : 0 < y).
    { destruct (Z_lt_le_dec 0 y); [assumption |].
      rewrite (Z.log2_nonpos y) in Hl by assumption. lia. }
    destruct (Z.log2_spec y Hy) as [Hlow _].
    replace (shift n d + 52) with (Z.log2 y) by lia.
    pose proof (Z.mul_div_le (n * unit) d Hd). fold y in H. nia.
  Qed.

Lemma round_some n d x :
    round n d = Some x ->
    x = rne_div (n * unit) (d * 2 ^ shift n d) * 2 ^ shift n d.
  Proof.
    unfold round. cbv zeta.
    destruct (_ <? _); intros H; inversion H. reflexivity.
  Qed.

  (** Rounding to binary64 is monotone. *)
Lemma round_mono n1 d1 n2 d2 x1 x2 :
    0 < d1 -> 0 < d2 -> 0 <= n1 -> n1 * d2 <= n2 * d1 ->
    round n1 d1 = Some x1 -> round n2 d2 = Some x2 -> x1 <= x2.
  Proof.
    intros H1 H2 Hn Hle R1 R2.
    apply round_some in R1. apply round_some in R2. subst x1 x2.
    pose proof (shift_mono _ _ _ _ H1 H2 Hle) as Hs.
    pose proof (shift_nonneg n1 d1) as Hs1.
    set (s1 := shift n1 d1) in *. set (s2 := shift n2 d2) in *.
    assert (Hp1 : 0 < 2 ^ s1) by (apply Z.pow_pos_nonneg; lia).
    assert (Hp2 : 0 < 2 ^ s2) by (apply Z.pow_pos_nonneg; lia).
    destruct (Z.eq_dec s1 s2) as [Heq | Hne].
    - rewrite <- Heq. apply Z.mul_le_mono_nonneg_r; [lia |].
      apply rne_div_mono; try nia.
      pose proof unit_pos.
      assert (n1 * d2 * (unit * 2 ^ s1) <= n2 * d1 * (unit * 2 ^ s1))
        by (apply Z.mul_le_mono_nonneg_r; nia).
      lia.
    - assert (Hm1 : rne_div (n1 * unit) (d1 * 2 ^ s1) <= 2 ^ 53).
      { apply rne_div_le; [nia |].
        pose proof (shift_upper n1 d1 H1 Hn) as Hu. fold s1 in Hu.
        rewrite Z.pow_add_r in Hu by lia. nia. }
      assert (Hm2 : 2 ^ 52 <= rne_div (n2 * unit) (d2 * 2 ^ s2)).
      { apply rne_div_ge; [nia |].
        pose proof (shift_lower n2 d2 H2 ltac:(fold s2; lia)) as Hl. fold s2 in Hl.
        rewrite Z.pow_add_r in Hl by lia. nia. }
      assert (Hpow : 2 ^ 53 * 2 ^ s1 <= 2 ^ 52 * 2 ^ s2).
      { rewrite <- !Z.pow_add_r by lia. apply Z.pow_le_mono_r; lia. }
      nia.
  Qed.

Lemma shift_bound n d l :
    0 < d -> 0 <= n -> 52 <= l -> n * unit < 2 ^ (l + 1) * d -> shift n d <= l - 52.
  Proof.
    intros Hd Hn Hl Hlt. unfold shift. set (y := n * unit / d).
    assert (Hy : y < 2 ^ (l + 1)).
    { apply Z.div_lt_upper_bound; [assumption | nia]. }
    destruct (Z_lt_le_dec 0 y) as [Hpos | Hnp].
    - apply Z.log2_lt_pow2 in Hy; [lia | assumption].
    - rewrite (Z.log2_nonpos y) by assumption. lia.
  Qed.

  (** A fraction that does not exceed a small integer [k] rounds, without
      overflow, to a float that does not exceed [k]. *)
Lemma round_bounded n d k :
    0 < d -> 0 <= n -> 0 <= k < 2 ^ 53 -> n <= k * d ->
    exists x, round n d = Some x /\ 0 <= x <= k * unit.
  Proof.
    intros Hd Hn Hk Hle. pose proof unit_pos as HP.
    assert (Hs : shift n d <= 1074).
    { replace 1074 with (1126 - 52) by lia. apply shift_bound; try lia.
      assert (n * unit <= k * unit * d) by nia.
      assert (k * unit * d < 2 ^ 53 * unit * d) by nia.
      replace (2 ^ (1126 + 1)) with (2 ^ 53 * unit); [lia |].
      unfold unit. rewrite <- Z.pow_add_r by lia. reflexivity. }
    pose proof (shift_nonneg n d) as Hs0.
    unfold round. cbv zeta. set (s := shift n d) in *.
    assert (Hp : 0 < 2 ^ s) by (apply Z.pow_pos_nonneg; lia).
    assert (HU : unit = 2 ^ (1074 - s) * 2 ^ s).
    { unfold unit. rewrite <- Z.pow_add_r by lia. f_equal. lia. }
    assert (Hq : 0 <= 2 ^ (1074 - s)) by (apply Z.pow_nonneg; lia).
    set (m := rne_div (n * unit) (d * 2 ^ s)).
    assert (Hm1 : m <= k * 2 ^ (1074 - s)).
    { apply rne_div_le; [nia |].
      assert (n * unit <= k * d * unit) by nia.
      replace (k * 2 ^ (1074 - s) * (d * 2 ^ s)) with (k * d * (2 ^ (1074 - s) * 2 ^ s)) by ring.
      rewrite <- HU. assumption. }
    assert (Hm0 : 0 <= m) by (apply rne_div_ge; nia).
    assert (Hx : m * 2 ^ s <= k * unit).
    { rewrite HU. replace (k * (2 ^ (1074 - s) * 2 ^ s)) with (k * 2 ^ (1074 - s) * 2 ^ s) by ring.
      apply Z.mul_le_mono_nonneg_r; lia. }
    assert (Hov : m * 2 ^ s < 2 ^ 1024 * unit).
    { assert (k * unit < 2 ^ 53 * unit) by nia.
      assert (2 ^ 53 * unit <= 2 ^ 1024 * unit).
      { apply Z.mul_le_mono_nonneg_r; [lia |]. apply Z.pow_le_mono_r; lia. }
      lia. }
    apply Z.ltb_lt in Hov. rewrite Hov.
    exists (m * 2 ^ s). split; [reflexivity | nia].
  Qed.

  (** The rounded number is within half a unit of the last place of the
      exact one. *)
Lemma round_error n d x :
    0 < d -> round n d = Some x ->
    - (d * 2 ^ shift n d) <= 2 * (x * d - n * unit) <= d * 2 ^ shift n d.
  Proof.
    intros Hd R. apply round_some in R. subst x.
    pose proof (shift_nonneg n d) as Hs0.
    assert (Hp : 0 < 2 ^ shift n d) by (apply Z.pow_pos_nonneg; lia).
    pose proof (rne_div_error (n * unit) (d * 2 ^ shift n d) ltac:(nia)) as He.
    replace (rne_div (n * unit) (d * 2 ^ shift n d) * 2 ^ shift n d * d)
      with (rne_div (n * unit) (d * 2 ^ shift n d) * (d * 2 ^ shift n d)) by ring.
    lia.
  Qed.

(** A number within one of [n / t], both scaled by [u], has the integer
    part of [n / t], or one less when [t] divides [n]. *)
Lemma floor_within_unit u t p n :
  0 < u -> 0 < t -> - u < p * t - n * u < u ->
  n / t - 1 <= p / u <= n / t /\ (n mod t <> 0 -> p / u = n / t).
Proof.
  intros Hu Ht Hb.
  destruct (div_mod_split n t Ht) as [E [R0 R1]].
  set (k := n / t) in *. set (r := n mod t) in *. clearbody k r. subst n.
  assert (H1 : (r + 1) * u <= t * u) by (apply Z.mul_le_mono_nonneg_r; lia).
  assert (H0 : 0 <= r * u) by (apply Z.mul_nonneg_nonneg; lia).
  assert (Hup : p / u <= k).
  { apply Z.lt_succ_r. apply Z.div_lt_upper_bound; [assumption |].
    apply (Z.mul_lt_mono_pos_r t); [assumption |]. lia. }
  split; [split; [| exact Hup] |].
  - apply Z.div_le_lower_bound; [assumption |].
    apply (Z.mul_le_mono_pos_r _ _ t); [assumption |].
    assert (u * (k - 1) * t < (p + 1) * t) by lia.
    apply (Z.mul_lt_mono_pos_r t) in H; [lia | assumption].
  - intros Hr. apply Z.le_antisymm; [exact Hup |].
    apply Z.div_le_lower_bound; [assumption |].
    assert (H2 : 1 * u <= r * u) by (apply Z.mul_le_mono_nonneg_r; lia).
    assert (u * k * t < (p + 1) * t) by lia.
    apply (Z.mul_lt_mono_pos_r t) in H; [lia | assumption].
Qed.

End F64Facts.

(* ===================================================================== *)
(** ** Facts on the health score *)
(* ===================================================================== *)

Section HealthScore.
Import F64 F64Facts.
Local Open Scope Z_scope.

Lemma div_int_le_one (t v : nat) :
    (0 < t)%nat -> (v <= t)%nat ->
    exists q, div_int (Z.of_nat v) (Z.of_nat t) = Some q /\ 0 <= q <= unit.
  Proof.
    intros Ht Hv. unfold div_int.
    destruct (round_bounded (Z.of_nat v) (Z.of_nat t) 1) as [q [R B]]; try lia.
    exists q. split; [assumption | lia].
  Qed.

Lemma mul_100_le q :
    0 <= q <= unit ->
    exists p, mul q (of_int 100) = Some p /\ 0 <= p <= 100 * unit.
  Proof.
    intros Hq. unfold mul, of_int. pose proof unit_pos.
    apply round_bounded; nia.
  Qed.

Lemma link_score_some (t v : nat) :
    (0 < t)%nat -> (v <= t)%nat ->
    exists q p,
      div_int (Z.of_nat v) (Z.of_nat t) = Some q /\ 0 <= q <= unit /\
      mul q (of_int 100) = Some p /\ 0 <= p <= 100 * unit /\
      link_score t v = Some (to_int p).
  Proof.
    intros Ht Hv.
    destruct (div_int_le_one t v Ht Hv) as [q [Hq Bq]].
    destruct (mul_100_le q Bq) as [p [Hp Bp]].
    exists q, p. repeat split; try assumption; try lia.
    unfold link_score. apply Nat.ltb_lt in Ht. rewrite Ht, Hq, Hp. reflexivity.
  Qed.

  (** With no more valid links than links, the link score exists and is a
      percentage. *)
Lemma link_score_range (t v : nat) :
    (v <= t)%nat -> exists b, link_score t v = Some b /\ 0 <= b <= 100.
  Proof.
    intros Hv. destruct (Nat.eq_dec t 0%nat) as [-> | Hne].
    - exists 100. split; [reflexivity | lia].
    - destruct (link_score_some t v ltac:(lia) Hv) as [q [p [_ [_ [_ [Bp E]]]]]].
      exists (to_int p). split; [assumption |].
      unfold to_int. pose proof unit_pos. split.
      + apply Z.div_pos; lia.
      + apply Z.div_le_upper_bound; lia.
  Qed.

  (** More links for as many valid ones: the link score does not go up. *)
Lemma link_score_mono (t t' v : nat) b b' :
    (v <= t)%nat -> (t <= t')%nat ->
    link_score t v = Some b -> link_score t' v = Some b' -> b' <= b.
  Proof.
    intros Hv Ht E E'.
    destruct (Nat.eq_dec t 0%nat) as [-> | Hne].
    - destruct (link_score_range t' v ltac:(lia)) as [b0 [E0 B0]].
      rewrite E0 in E'. inversion E'. subst b'.
      unfold link_score in E. simpl in E. inversion E. lia.
    - destruct (link_score_some t v ltac:(lia) Hv) as [q [p [Hq [Bq [Hp [Bp Ep]]]]]].
      destruct (link_score_some t' v ltac:(lia) ltac:(lia)) as [q' [p' [Hq' [Bq' [Hp' [Bp' Ep']]]]]].
      rewrite Ep in E. rewrite Ep' in E'. inversion E. inversion E'. subst b b'.
      pose proof unit_pos as HP.
      assert (Hqq : q' <= q).
      { unfold div_int in *.
        apply (round_mono (Z.of_nat v) (Z.of_nat t') (Z.of_nat v) (Z.of_nat t) q' q);
          try assumption; nia. }
      assert (Hpp : p' <= p).
      { unfold mul, of_int in *.
        apply (round_mono (q' * (100 * unit)) (unit * unit) (q * (100 * unit)) (unit * unit) p' p);
          try assumption; try nia.
        apply Z.mul_le_mono_nonneg_r; [nia |].
        apply Z.mul_le_mono_nonneg_r; nia. }
      unfold to_int. apply Z.div_le_mono; lia.
  Qed.

  (** Truncation, not rounding: the link score is the integer part of
      [100 * v / t], or one less when the division is exact and the product
      of the two roundings falls just below it. *)
Lemma link_score_floor (t v : nat) b :
    (0 < t)%nat -> Z.of_nat t < 2 ^ 45 -> (v <= t)%nat ->
    link_score t v = Some b ->
    100 * Z.of_nat v / Z.of_nat t - 1 <= b <= 100 * Z.of_nat v / Z.of_nat t /\
    ((100 * Z.of_nat v) mod Z.of_nat t <> 0 -> b = 100 * Z.of_nat v / Z.of_nat t).
  Proof.
    intros Ht Hsmall Hv E.
    destruct (link_score_some t v Ht Hv) as [q [p [Hq [Bq [Hp [Bp Ep]]]]]].
    rewrite Ep in E. inversion E. subst b. clear E Ep.
    set (T := Z.of_nat t) in *. set (V := Z.of_nat v) in *.
    assert (HT : 0 < T) by (unfold T; lia).
    assert (HV : 0 <= V <= T) by (unfold V, T; lia).
    pose proof unit_pos as HP.
    set (A := 2 ^ 1022).
    assert (HA : 0 < A) by (unfold A; apply Z.pow_pos_nonneg; lia).
    assert (HU : unit = 2 ^ 52 * A).
    { unfold unit, A. rewrite <- Z.pow_add_r by lia. reflexivity. }
    assert (HA1 : forall s, s <= 1022 -> 2 ^ s <= A).
    { intros s Hs. unfold A. apply Z.pow_le_mono_r; lia. }
    assert (HA2 : forall s, s <= 1028 -> 2 ^ s <= 2 ^ 6 * A).
    { intros s Hs. unfold A. rewrite <- Z.pow_add_r by lia.
      apply Z.pow_le_mono_r; lia. }
    assert (HU1 : 2 ^ (1074 + 1) = 2 * unit).
    { unfold unit. rewrite Z.pow_add_r by lia. apply Z.mul_comm. }
    assert (HU7 : 2 ^ (1080 + 1) = 2 ^ 7 * unit).
    { unfold unit. rewrite <- Z.pow_add_r by lia. reflexivity. }
    clearbody A.
    (* the quotient *)
    unfold div_int in Hq. pose proof (round_error V T q HT Hq) as Eq.
    assert (Sq : 2 ^ shift V T <= A).
    { apply HA1. replace 1022 with (1074 - 52) by lia.
      apply shift_bound; [lia | lia | lia |].
      rewrite HU1. nia. }
    (* the product *)
    unfold mul, of_int in Hp.
    pose proof (round_error (q * (100 * unit)) (unit * unit) p ltac:(nia) Hp) as Epr.
    assert (Sp : 2 ^ shift (q * (100 * unit)) (unit * unit) <= 2 ^ 6 * A).
    { apply HA2. replace 1028 with (1080 - 52) by lia.
      apply shift_bound; [nia | nia | lia |].
      rewrite HU7.
      assert (q * (100 * unit) * unit < 128 * unit * unit * unit); [| lia].
      assert (q * 100 < 128 * unit) by lia.
      assert (q * 100 * unit < 128 * unit * unit) by nia.
      assert (q * 100 * unit * unit < 128 * unit * unit * unit) by nia.
      lia. }
    clear HA1 HA2 HU1 HU7.
    set (sp := 2 ^ shift (q * (100 * unit)) (unit * unit)) in *.
    set (sq := 2 ^ shift V T) in *.
    assert (Ep' : - sp <= 2 * (p - 100 * q) <= sp).
    { assert (0 < unit * unit) by nia.
      split; apply (Z.mul_le_mono_pos_r _ _ (unit * unit)); try assumption; lia. }
    (* both errors together *)
    assert (Ebound : - unit < p * T - 100 * V * unit < unit).
    { assert (- (82 * A * T) <= p * T - 100 * V * unit <= 82 * A * T) by nia.
      assert (82 * A * T < unit); [| lia].
      rewrite HU. assert (82 * T < 2 ^ 52) by lia. nia. }
    unfold to_int.
    apply (floor_within_unit unit T p (100 * V)); assumption.
  Qed.

End HealthScore.

(* ===================================================================== *)
(** ** The main loop in closed form *)
(* ===================================================================== *)

Lemma same_cache_refl c : same_cache c c.
Proof. repeat split. Qed.

Lemma same_cache_set_results c self t v b i o d cr w :
  same_cache c self -> same_cache c (set_results self t v b i o d cr w).
Proof. intros H. exact H. Qed.

Lemma validate_link_cache c self d txt tgt :
  same_cache c self -> validate_link self d txt tgt = validate_link c d txt tgt.
Proof.
  intros [Hf [Ha _]]. unfold validate_link. rewrite Hf, Ha. reflexivity.
Qed.

Lemma validate_requirement_reference_cache c self r :
  same_cache c self ->
  validate_requirement_reference self r = validate_requirement_reference c r.
Proof.
  intros [_ [_ Hr]]. unfold validate_requirement_reference, defined_in.
  rewrite Hr. reflexivity.
Qed.

Section ClosedForm.
Variable c : LinkValidator.
Variable d : Document.

Lemma dwi_extend_app e1 e2 dwi :
    dwi_extend d (e1 ++ e2) dwi = dwi_extend d e2 (dwi_extend d e1 dwi).
  Proof. unfold dwi_extend. apply fold_left_app. Qed.

Lemma fold_check_link links : forall self,
    same_cache c self ->
    fold_left (check_link d) links self =
    set_results self
      (length links + total_links self)
      (length (List.filter (link_ok c d) links) + valid_links self)
      (broken_links self ++ map (broken_entry c d) (broken_of c d links))
      (invalid_requirement_ids self) (orphaned_references self)
      (dwi_extend d (map (link_error c d) (broken_of c d links)) (documents_with_issues self))
      (critical_issues self ++ map (critical_entry c d) (critical_of c d links))
      (warnings self).
  Proof.
    induction links as [| [txt tgt] links IH]; intros self Hc.
    - cbn. rewrite !app_nil_r. destruct self; reflexivity.
    - assert (Hv : validate_link self d txt tgt = ((link_ok c d) (txt, tgt), (link_error c d) (txt, tgt))).
      { rewrite (validate_link_cache c self d txt tgt Hc).
        unfold link_ok, link_error. cbn [fst snd]. apply surjective_pairing. }
      cbn [fold_left]. rewrite IH.
      + unfold check_link. rewrite Hv.
        unfold critical_of. unfold broken_of. cbn [List.filter].
        destruct ((link_ok c d) (txt, tgt)) eqn:Hok; cbn [negb List.filter].
        * unfold set_results; cbn. f_equal; lia.
        * change (names_spec016_017 (snd (txt, tgt))) with
            (Str.contains "SPEC016" tgt || Str.contains "SPEC017" tgt).
          destruct (Str.contains "SPEC016" tgt || Str.contains "SPEC017" tgt);
            unfold set_results, dwi_extend; cbn [List.filter map fold_left length
              total_links valid_links broken_links invalid_requirement_ids
              orphaned_references documents_with_issues critical_issues warnings
              all_files file_names missing_anchors requirement_ids anchors];
            rewrite <- ?app_assoc; f_equal; lia.
      + unfold check_link. rewrite Hv. destruct ((link_ok c d) (txt, tgt));
          apply same_cache_set_results; exact Hc.
  Qed.

Lemma fold_check_requirement refs : forall self,
    same_cache c self ->
    fold_left (check_requirement d) refs self =
    set_results self (total_links self) (valid_links self) (broken_links self)
      (invalid_requirement_ids self ++ map (invalid_entry c d) (invalid_of c refs))
      (orphaned_references self)
      (dwi_extend d (map (req_error c) (invalid_of c refs)) (documents_with_issues self))
      (critical_issues self) (warnings self).
  Proof.
    induction refs as [| r refs IH]; intros self Hc.
    - cbn. rewrite !app_nil_r. destruct self; reflexivity.
    - assert (Hv : validate_requirement_reference self r = (req_ok c r, req_error c r)).
      { rewrite (validate_requirement_reference_cache c self r Hc).
        unfold req_ok, req_error. apply surjective_pairing. }
      cbn [fold_left]. rewrite IH.
      + unfold check_requirement. rewrite Hv.
        unfold invalid_of. cbn [List.filter].
        destruct (req_ok c r) eqn:Hok; cbn [negb List.filter].
        * destruct self; reflexivity.
        * unfold set_results, dwi_extend; cbn [map fold_left
            total_links valid_links broken_links invalid_requirement_ids
            orphaned_references documents_with_issues critical_issues warnings
            all_files file_names missing_anchors requirement_ids anchors].
          rewrite <- ?app_assoc. reflexivity.
      + unfold check_requirement. rewrite Hv. destruct (req_ok c r); cbn [negb];
          [exact Hc | apply same_cache_set_results; exact Hc].
  Qed.

Lemma fold_note_orphan refs : forall self,
    fold_left (note_orphan d) refs self =
    set_results self (total_links self) (valid_links self) (broken_links self)
      (invalid_requirement_ids self)
      (orphaned_references self ++ map (orphan_entry d) refs)
      (documents_with_issues self) (critical_issues self)
      (warnings self ++ map (orphan_warning d) refs).
  Proof.
    induction refs as [| r refs IH]; intros self.
    - cbn. rewrite !app_nil_r. destruct self; reflexivity.
    - cbn [fold_left]. rewrite IH. unfold note_orphan, set_results.
      cbn [map total_links valid_links broken_links invalid_requirement_ids
            orphaned_references documents_with_issues critical_issues warnings
            all_files file_names missing_anchors requirement_ids anchors].
      rewrite <- !app_assoc. reflexivity.
  Qed.

Lemma check_file_closed self :
    same_cache c self ->
    check_file self d =
    set_results self
      (length (extract_links_from_file d) + total_links self)
      (length (List.filter (link_ok c d) (extract_links_from_file d)) + valid_links self)
      (broken_links self ++ map (broken_entry c d) (broken_of c d (extract_links_from_file d)))
      (invalid_requirement_ids self ++
         map (invalid_entry c d) (invalid_of c (find_requirement_references d)))
      (orphaned_references self ++ map (orphan_entry d) (find_orphaned_references d))
      (dwi_extend d (errors_of_file c d) (documents_with_issues self))
      (critical_issues self ++ map (critical_entry c d) (critical_of c d (extract_links_from_file d)))
      (warnings self ++ map (orphan_warning d) (find_orphaned_references d)).
  Proof.
    intros Hc. unfold check_file.
    rewrite (fold_check_link _ self Hc).
    rewrite fold_check_requirement by (apply same_cache_set_results; exact Hc).
    rewrite fold_note_orphan.
    unfold errors_of_file. rewrite dwi_extend_app. reflexivity.
  Qed.

End ClosedForm.

Lemma fold_check_file c docs : forall self,
  same_cache c self ->
  fold_left check_file docs self =
  set_results self
    (length (flat_map extract_links_from_file docs) + total_links self)
    (length (flat_map (fun d => List.filter (link_ok c d) (extract_links_from_file d)) docs)
       + valid_links self)
    (broken_links self ++
       flat_map (fun d => map (broken_entry c d) (broken_of c d (extract_links_from_file d))) docs)
    (invalid_requirement_ids self ++
       flat_map (fun d => map (invalid_entry c d) (invalid_of c (find_requirement_references d))) docs)
    (orphaned_references self ++
       flat_map (fun d => map (orphan_entry d) (find_orphaned_references d)) docs)
    (fold_left (fun dwi d => dwi_extend d (errors_of_file c d) dwi) docs
       (documents_with_issues self))
    (critical_issues self ++
       flat_map (fun d => map (critical_entry c d) (critical_of c d (extract_links_from_file d))) docs)
    (warnings self ++
       flat_map (fun d => map (orphan_warning d) (find_orphaned_references d)) docs).
Proof.
  induction docs as [| d docs IH]; intros self Hc.
  - cbn. rewrite !app_nil_r. destruct self; reflexivity.
  - cbn [fold_left flat_map]. rewrite (check_file_closed c d self Hc).
    rewrite IH by (apply same_cache_set_results; exact Hc).
    unfold set_results.
    cbn [total_links valid_links broken_links invalid_requirement_ids
         orphaned_references documents_with_issues critical_issues warnings
         all_files file_names missing_anchors requirement_ids anchors].
    rewrite !length_app, <- !app_assoc. f_equal; lia.
Qed.

(** *** A whole run *)

Lemma fold_set_anchors docs : forall self,
  exists a r,
    fold_left (fun self file_path =>
                 set_anchors self
                   (<[ doc_name file_path := extract_anchors_from_file file_path ]> (anchors self))
                   (<[ doc_name file_path := extract_requirement_ids_from_file file_path ]>
                      (requirement_ids self)))
              docs self
    = set_anchors self a r.
Proof.
  induction docs as [| d docs IH]; intros self.
  - exists (anchors self), (requirement_ids self). destruct self; reflexivity.
  - cbn [fold_left]. destruct (IH (set_anchors self
        (<[ doc_name d := extract_anchors_from_file d ]> (anchors self))
        (<[ doc_name d := extract_requirement_ids_from_file d ]> (requirement_ids self))))
      as [a [r E]].
    exists a, r. rewrite E. reflexivity.
Qed.

Lemma cached_fields docs :
  all_files (cached docs) = docs /\
  file_names (cached docs) = list_to_set (map doc_name docs) /\
  total_links (cached docs) = 0 /\ valid_links (cached docs) = 0 /\
  broken_links (cached docs) = [] /\ invalid_requirement_ids (cached docs) = [] /\
  missing_anchors (cached docs) = [] /\ orphaned_references (cached docs) = [] /\
  documents_with_issues (cached docs) = [] /\ critical_issues (cached docs) = [] /\
  warnings (cached docs) = [].
Proof.
  unfold cached, cache_all_anchors_and_ids.
  destruct (fold_set_anchors (all_files (init docs)) (init docs)) as [a [r E]].
  rewrite E. repeat split.
Qed.

Lemma validate_all_final docs :
  run_validator docs = generate_report (final_state docs).
Proof.
  unfold run_validator, validate_all, final_state. fold (cached docs).
  destruct (cached_fields docs) as [E _]. rewrite E. reflexivity.
Qed.

Lemma length_filter_le {A : Type} (f : A -> bool) (l : list A) :
  length (List.filter f l) <= length l.
Proof.
  induction l as [| x l IH]; cbn; [lia |]. destruct (f x); cbn; lia.
Qed.

Lemma valid_le_total c docs :
  length (flat_map (fun d => List.filter (link_ok c d) (extract_links_from_file d)) docs)
  <= length (flat_map extract_links_from_file docs).
Proof.
  induction docs as [| d docs IH]; cbn; [lia |].
  rewrite !length_app. pose proof (length_filter_le (link_ok c d) (extract_links_from_file d)).
  lia.
Qed.

Lemma final_state_closed docs :
  let c := cached docs in
  final_state docs =
  set_results c
    (length (flat_map extract_links_from_file docs))
    (length (flat_map (fun d => List.filter (link_ok c d) (extract_links_from_file d)) docs))
    (flat_map (fun d => map (broken_entry c d) (broken_of c d (extract_links_from_file d))) docs)
    (flat_map (fun d => map (invalid_entry c d) (invalid_of c (find_requirement_references d))) docs)
    (flat_map (fun d => map (orphan_entry d) (find_orphaned_references d)) docs)
    (fold_left (fun dwi d => dwi_extend d (errors_of_file c d) dwi) docs [])
    (flat_map (fun d => map (critical_entry c d) (critical_of c d (extract_links_from_file d))) docs)
    (flat_map (fun d => map (orphan_warning d) (find_orphaned_references d)) docs).
Proof.
  intros c. unfold final_state. fold c.
  rewrite (fold_check_file c docs c (same_cache_refl c)).
  destruct (cached_fields docs) as [_ [_ [E1 [E2 [E3 [E4 [_ [E5 [E6 [E7 E8]]]]]]]]]].
  fold c in E1, E2, E3, E4, E5, E6, E7, E8.
  rewrite E1, E2, E3, E4, E5, E6, E7, E8.
  rewrite !Nat.add_0_r. reflexivity.
Qed.

(** Every run produces a report. *)
Lemma run_validator_returns docs :
  exists r, run_validator docs = Some r.
Proof.
  rewrite validate_all_final. unfold generate_report.
  rewrite final_state_closed. cbv zeta.
  cbn [total_links valid_links invalid_requirement_ids set_results].
  unfold health_score.
  destruct (link_score_range _ _ (valid_le_total (cached docs) docs)) as [b [E _]].
  rewrite E. eexists. reflexivity.
Qed.

(* ===================================================================== *)
(** ** Facts on strings *)
(* ===================================================================== *)

Lemma app_cons_s (x : ascii) (a b : string) : String x a +:+ b = String x (a +:+ b).
Proof. reflexivity. Qed.

Lemma app_nil_l_s (a : string) : "" +:+ a = a.
Proof. reflexivity. Qed.

Lemma app_assoc_s (a b c : string) : (a +:+ b) +:+ c = a +:+ (b +:+ c).
Proof.
  induction a as [| x a IH]; [reflexivity |].
  rewrite !app_cons_s. f_equal. exact IH.
Qed.

Lemma app_nil_r_s (a : string) : a +:+ "" = a.
Proof.
  induction a as [| x a IH]; [reflexivity |].
  rewrite app_cons_s. f_equal. exact IH.
Qed.

Lemma length_app_s (a b : string) :
  String.length (a +:+ b) = String.length a + String.length b.
Proof.
  induction a as [| x a IH]; [reflexivity |].
  rewrite app_cons_s. cbn [String.length]. rewrite IH. reflexivity.
Qed.

Lemma startswith_app (p s : string) : Str.startswith p (p +:+ s) = true.
Proof.
  induction p as [| x p IH]; [reflexivity |].
  rewrite app_cons_s. cbn [Str.startswith]. rewrite Ascii.eqb_refl, IH. reflexivity.
Qed.

Lemma contains_here (n s : string) : Str.contains n (n +:+ s) = true.
Proof.
  destruct (n +:+ s) eqn:E; cbn [Str.contains]; rewrite <- E, startswith_app; reflexivity.
Qed.

Lemma contains_later (n a s : string) :
  Str.contains n s = true -> Str.contains n (a +:+ s) = true.
Proof.
  intros H. induction a as [| x a IH]; [exact H |].
  rewrite app_cons_s. cbn [Str.contains]. rewrite IH. apply orb_true_r.
Qed.

Lemma contains_join (sep f : string) (l : list string) :
  In f l -> Str.contains f (Str.join sep l) = true.
Proof.
  unfold Str.join. induction l as [| x l IH]; intros Hin; [destruct Hin |].
  destruct Hin as [-> | Hin].
  - destruct l as [| y l]; cbn [concat].
    + rewrite <- (app_nil_r_s f) at 2. apply contains_here.
    + apply contains_here.
  - destruct l as [| y l]; [destruct Hin |].
    cbn [concat]. apply contains_later. apply contains_later. apply IH. exact Hin.
Qed.

Lemma has_char_app_sep (a : ascii) (f s : string) :
  Str.has_char a (f +:+ String a s) = true.
Proof.
  induction f as [| x f IH].
  - rewrite app_nil_l_s. cbn [Str.has_char]. rewrite Ascii.eqb_refl. reflexivity.
  - rewrite app_cons_s. cbn [Str.has_char]. rewrite IH. apply orb_true_r.
Qed.

Lemma split_first_app (a : ascii) (f s : string) :
  Str.has_char a f = false -> Str.split_first a (f +:+ String a s) = (f, s).
Proof.
  induction f as [| x f IH]; intros H.
  - rewrite app_nil_l_s. cbn [Str.split_first]. rewrite Ascii.eqb_refl. reflexivity.
  - cbn [Str.has_char] in H. apply orb_false_iff in H. destruct H as [Hx Hf].
    rewrite app_cons_s. cbn [Str.split_first]. rewrite Hx, (IH Hf). reflexivity.
Qed.

(* ===================================================================== *)
(** ** The report of a run *)
(* ===================================================================== *)

Lemma filter_filter {A : Type} (f g : A -> bool) (l : list A) :
  List.filter f (List.filter g l) = List.filter (fun x => g x && f x) l.
Proof.
  induction l as [| x l IH]; [reflexivity |].
  cbn [List.filter]. destruct (g x); cbn [andb List.filter]; [destruct (f x) |]; rewrite IH; reflexivity.
Qed.

(** The report copies the final state; its health score is the one of the
    final counters. *)
Lemma run_validator_fields docs :
  exists r,
    run_validator docs = Some r /\
    health_score (total_links (final_state docs)) (valid_links (final_state docs))
                 (length (invalid_requirement_ids (final_state docs)))
      = Some (r_health_score r) /\
    r_total_links_checked r = total_links (final_state docs) /\
    r_valid_links r = valid_links (final_state docs) /\
    r_broken_links r = broken_links (final_state docs) /\
    r_invalid_requirement_ids r = invalid_requirement_ids (final_state docs) /\
    r_orphaned_references r = orphaned_references (final_state docs) /\
    r_documents_with_issues r =
      firstn 10 (sorted_by_count (documents_with_issues (final_state docs))) /\
    r_critical_issues r = critical_issues (final_state docs) /\
    r_warnings r = warnings (final_state docs).
Proof.
  destruct (run_validator_returns docs) as [r Hr].
  exists r. split; [exact Hr |].
  rewrite validate_all_final in Hr. unfold generate_report in Hr.
  destruct (health_score _ _ _) as [h |]; [| discriminate].
  inversion Hr. subst r. cbn. repeat split.
Qed.

Lemma final_counters docs :
  total_links (final_state docs) = length (flat_map extract_links_from_file docs) /\
  valid_links (final_state docs) =
    length (flat_map (fun d => List.filter (link_ok (cached docs) d) (extract_links_from_file d)) docs) /\
  (valid_links (final_state docs) <= total_links (final_state docs))%nat.
Proof.
  rewrite final_state_closed. cbn [total_links valid_links set_results].
  repeat split. apply valid_le_total.
Qed.

Lemma penalised_max b n :
  (0 <= b)%Z -> penalised b n = Z.max 0 (b - 2 * Z.of_nat n).
Proof. intros Hb. destruct n; unfold penalised; lia. Qed.

Lemma penalised_range b n :
  (0 <= b <= 100)%Z -> (0 <= penalised b n <= 100)%Z.
Proof. intros Hb. rewrite penalised_max by lia. lia. Qed.

Lemma penalised_mono b b' n n' :
  (0 <= b' <= b)%Z -> n <= n' -> (penalised b' n' <= penalised b n)%Z.
Proof. intros Hb Hn. rewrite !penalised_max by lia. lia. Qed.

(* ===================================================================== *)
(** ** The per-document tally *)
(* ===================================================================== *)

Lemma dwi_append_fresh name e dwi :
  ~ In name (map fst dwi) -> dwi_append name e dwi = dwi ++ [(name, [e])].
Proof.
  induction dwi as [| [k es] dwi IH]; intros Hn; [reflexivity |].
  cbn [dwi_append]. cbn [map fst In] in Hn.
  destruct (String.eqb_spec k name) as [-> | Hne]; [exfalso; apply Hn; left; reflexivity |].
  cbn [app]. f_equal. apply IH. intros Hin. apply Hn. right. exact Hin.
Qed.

Lemma dwi_append_last name e es pre :
  ~ In name (map fst pre) ->
  dwi_append name e (pre ++ [(name, es)]) = pre ++ [(name, es ++ [e])].
Proof.
  induction pre as [| [k es'] pre IH]; intros Hn.
  - cbn. rewrite String.eqb_refl. reflexivity.
  - cbn [app dwi_append]. cbn [map fst In] in Hn.
    destruct (String.eqb_spec k name) as [-> | Hne]; [exfalso; apply Hn; left; reflexivity |].
    f_equal. apply IH. intros Hin. apply Hn. right. exact Hin.
Qed.

Lemma dwi_extend_last d es : forall acc pre,
  ~ In (doc_name d) (map fst pre) ->
  dwi_extend d es (pre ++ [(doc_name d, acc)]) = pre ++ [(doc_name d, acc ++ es)].
Proof.
  unfold dwi_extend. induction es as [| e es IH]; intros acc pre Hn.
  - cbn. rewrite app_nil_r. reflexivity.
  - cbn [fold_left]. rewrite dwi_append_last by exact Hn.
    rewrite IH by exact Hn. rewrite <- app_assoc. reflexivity.
Qed.

Lemma dwi_extend_fresh d es dwi :
  ~ In (doc_name d) (map fst dwi) ->
  dwi_extend d es dwi = dwi ++ List.filter has_issues [(doc_name d, es)].
Proof.
  intros Hn. destruct es as [| e es].
  - cbn. rewrite app_nil_r. reflexivity.
  - cbn [List.filter has_issues snd]. unfold dwi_extend. cbn [fold_left].
    rewrite dwi_append_fresh by exact Hn.
    apply (dwi_extend_last d es [e] dwi Hn).
Qed.

Lemma fold_dwi_extend (E : Document -> list string) docs : forall dwi,
  List.NoDup (map doc_name docs) ->
  (forall d, In d docs -> ~ In (doc_name d) (map fst dwi)) ->
  fold_left (fun dwi d => dwi_extend d (E d) dwi) docs dwi =
  dwi ++ List.filter has_issues (map (fun d => (doc_name d, E d)) docs).
Proof.
  induction docs as [| d docs IH]; intros dwi Hnd Hfresh.
  - cbn. rewrite app_nil_r. reflexivity.
  - cbn [fold_left map]. inversion Hnd as [| x l Hx Hnd']. subst x l.
    rewrite dwi_extend_fresh by (apply Hfresh; left; reflexivity).
    rewrite IH.
    + rewrite <- app_assoc. f_equal.
      cbn [List.filter]. destruct (has_issues (doc_name d, E d)); reflexivity.
    + exact Hnd'.
    + intros d' Hin' Hk. rewrite map_app, in_app_iff in Hk. destruct Hk as [Hk | Hk].
      * apply (Hfresh d' (or_intror Hin') Hk).
      * assert (Hd : doc_name d' = doc_name d).
        { cbn [List.filter] in Hk. destruct (has_issues (doc_name d, E d)); cbn in Hk;
            [destruct Hk as [Hk | []]; symmetry; exact Hk | destruct Hk]. }
        apply Hx. rewrite <- Hd. apply in_map. exact Hin'.
Qed.

(** *** The stable sort by decreasing count *)

Lemma insert_by_count_perm x l : Permutation (insert_by_count x l) (x :: l).
Proof.
  induction l as [| y l IH]; [reflexivity |].
  cbn [insert_by_count]. destruct (_ <=? _)%nat; [reflexivity |].
  rewrite IH. apply perm_swap.
Qed.

Lemma sorted_by_count_perm l : Permutation (sorted_by_count l) l.
Proof.
  induction l as [| x l IH]; [reflexivity |].
  unfold sorted_by_count in *. cbn [fold_right].
  rewrite insert_by_count_perm. apply perm_skip. exact IH.
Qed.

Lemma insert_by_count_sorted x l :
  Sorted by_count_desc l -> Sorted by_count_desc (insert_by_count x l).
Proof.
  induction l as [| y l IH]; intros Hs.
  - repeat constructor.
  - cbn [insert_by_count]. destruct (Nat.leb_spec (length (snd y)) (length (snd x))) as [Hle | Hgt].
    + constructor; [exact Hs |]. constructor. exact Hle.
    + inversion Hs as [| a b Hs' Hhd]. subst a b.
      constructor; [apply IH; exact Hs' |].
      destruct l as [| z l]; cbn [insert_by_count].
      * constructor. unfold by_count_desc, issue_count. lia.
      * destruct (_ <=? _)%nat.
        -- constructor. unfold by_count_desc, issue_count. lia.
        -- inversion Hhd. subst. constructor. assumption.
Qed.

Lemma sorted_by_count_sorted l : Sorted by_count_desc (sorted_by_count l).
Proof.
  induction l as [| x l IH]; [constructor |].
  unfold sorted_by_count in *. cbn [fold_right]. apply insert_by_count_sorted. exact IH.
Qed.

(* ===================================================================== *)
(** ** Facts on the matcher *)
(* ===================================================================== *)

Lemma take_app (w t : string) : Str.take (String.length w) (w +:+ t) = w.
Proof.
  induction w as [| c w IH]; [destruct t; reflexivity |].
  rewrite app_cons_s. cbn [String.length Str.take]. f_equal. exact IH.
Qed.

Lemma consumed_app (w t : string) : Re.consumed (w +:+ t) t = w.
Proof.
  unfold Re.consumed. rewrite length_app_s.
  replace (String.length w + String.length t - String.length t) with (String.length w) by lia.
  apply take_app.
Qed.

Lemma last_char_app prev (w1 w2 : string) :
  Re.last_char prev (w1 +:+ w2) = Re.last_char (Re.last_char prev w1) w2.
Proof.
  revert prev. induction w1 as [| c w1 IH]; intros prev; [reflexivity |].
  rewrite app_cons_s. cbn [Re.last_char]. apply IH.
Qed.

Lemma all_app p (w1 w2 : string) :
  Str.all p (w1 +:+ w2) = Str.all p w1 && Str.all p w2.
Proof.
  induction w1 as [| c w1 IH]; [reflexivity |].
  rewrite app_cons_s. cbn [Str.all]. rewrite IH. apply andb_assoc.
Qed.

(** *** What a successful match has read *)

Lemma star_loop_sound p k : forall s prev res,
  Re.star_loop p k prev s = Some res ->
  exists w t, s = w +:+ t /\ Str.all p w = true /\ k (Re.last_char prev w) t = Some res.
Proof.
  induction s as [| c s IH]; intros prev res H.
  - exists "", "". repeat split. exact H.
  - cbn [Re.star_loop] in H. destruct (p c) eqn:Hp.
    + destruct (Re.star_loop p k (Some c) s) as [r |] eqn:E.
      * inversion H. subst r. destruct (IH _ _ E) as [w [t [Es [Hall Hk]]]].
        exists (String c w), t. rewrite app_cons_s. rewrite <- Es.
        cbn [Str.all Re.last_char]. rewrite Hp. repeat split; assumption.
      * exists "", (String c s). repeat split. exact H.
    + exists "", (String c s). repeat split. exact H.
Qed.

Lemma run_chr_sound a k prev s cs res :
  Re.run (Re.Chr a) k prev s cs = Some res ->
  exists t, s = String a t /\ k (Some a) t cs = Some res.
Proof.
  cbn [Re.run]. destruct s as [| c s]; [discriminate |].
  destruct (Ascii.eqb_spec c a) as [-> | Hne]; [| discriminate].
  intros H. exists s. split; [reflexivity | exact H].
Qed.

Lemma run_rep1_sound p k prev s cs res :
  Re.run (Re.Rep1 p) k prev s cs = Some res ->
  exists w t, s = w +:+ t /\ w <> "" /\ Str.all p w = true /\
              k (Re.last_char prev w) t cs = Some res.
Proof.
  cbn [Re.run]. destruct s as [| c s]; [discriminate |].
  destruct (p c) eqn:Hp; [| discriminate].
  intros H. apply star_loop_sound in H. destruct H as [w [t [Es [Hall Hk]]]].
  exists (String c w), t. rewrite app_cons_s, <- Es. cbn [Str.all Re.last_char].
  rewrite Hp. repeat split; try assumption. discriminate.
Qed.

(** *** When the greedy attempt succeeds *)

Lemma star_loop_greedy p k res : forall w t prev,
  Str.all p w = true -> Re.stops p t ->
  k (Re.last_char prev w) t = Some res ->
  Re.star_loop p k prev (w +:+ t) = Some res.
Proof.
  induction w as [| c w IH]; intros t prev Hall Hstop Hk.
  - rewrite app_nil_l_s. cbn [Re.last_char] in Hk.
    destruct t as [| c t]; [exact Hk |].
    cbn [Re.star_loop]. cbn [Re.stops] in Hstop. rewrite Hstop. exact Hk.
  - rewrite app_cons_s. cbn [Str.all] in Hall. apply andb_true_iff in Hall.
    destruct Hall as [Hc Hall]. cbn [Re.star_loop]. rewrite Hc.
    rewrite (IH t (Some c) Hall Hstop Hk). reflexivity.
Qed.

Lemma run_rep1_greedy p k res w t prev cs :
  w <> "" -> Str.all p w = true -> Re.stops p t ->
  k (Re.last_char prev w) t cs = Some res ->
  Re.run (Re.Rep1 p) k prev (w +:+ t) cs = Some res.
Proof.
  intros Hne Hall Hstop Hk. destruct w as [| c w]; [congruence |].
  rewrite app_cons_s. cbn [Re.run]. cbn [Str.all] in Hall.
  apply andb_true_iff in Hall. destruct Hall as [Hc Hall]. rewrite Hc.
  apply (star_loop_greedy p (fun pv t0 => k pv t0 cs)); assumption.
Qed.

Lemma run_chr_step a k prev t cs :
  Re.run (Re.Chr a) k prev (String a t) cs = k (Some a) t cs.
Proof. cbn [Re.run]. rewrite Ascii.eqb_refl. reflexivity. Qed.

(** *** Passing over a match *)

Lemma scan_skip r : forall a b prev,
  Re.scan r (String.length a) prev (a +:+ b) = Re.scan r 0 (Re.last_char prev a) b.
Proof.
  induction a as [| c a IH]; intros b prev; [reflexivity |].
  rewrite app_cons_s. cbn [String.length Re.scan Re.last_char]. apply IH.
Qed.

Lemma sub_scan_skip r repl : forall a b prev,
  Re.sub_scan r repl (String.length a) prev (a +:+ b) =
  Re.sub_scan r repl 0 (Re.last_char prev a) b.
Proof.
  induction a as [| c a IH]; intros b prev; [reflexivity |].
  rewrite app_cons_s. cbn [String.length Re.sub_scan Re.last_char]. apply IH.
Qed.

(** One step of the scan at a position where [r] matches [w], [w] not empty. *)
Lemma scan_match r prev c w t m :
  Re.match_here r prev (String c w +:+ t) = Some m ->
  Re.m_text m = String c w ->
  Re.scan r 0 prev (String c w +:+ t) = m :: Re.scan r 0 (Re.last_char (Some c) w) t.
Proof.
  intros Hm Ht. rewrite app_cons_s in *. cbn [Re.scan]. rewrite Hm, Ht.
  cbn [String.length]. rewrite scan_skip. reflexivity.
Qed.

Lemma sub_scan_match r repl prev c w t m :
  Re.match_here r prev (String c w +:+ t) = Some m ->
  Re.m_text m = String c w ->
  Re.sub_scan r repl 0 prev (String c w +:+ t) =
  repl m +:+ Re.sub_scan r repl 0 (Re.last_char (Some c) w) t.
Proof.
  intros Hm Ht. rewrite app_cons_s in *. cbn [Re.sub_scan]. rewrite Hm, Ht.
  cbn [String.length]. rewrite sub_scan_skip. reflexivity.
Qed.

(** Where [r] matches nowhere, nothing is found and nothing is replaced. *)
Lemma scan_no_match r : forall s prev,
  (forall a b pv, s = a +:+ b -> Re.match_here r pv b = None) ->
  Re.scan r 0 prev s = [].
Proof.
  induction s as [| c s IH]; intros prev H; [reflexivity |].
  cbn [Re.scan]. rewrite (H "" (String c s) prev eq_refl).
  apply IH. intros a b pv E. apply (H (String c a) b pv). rewrite app_cons_s, E. reflexivity.
Qed.

Lemma sub_scan_no_match r repl : forall s prev,
  (forall a b pv, s = a +:+ b -> Re.match_here r pv b = None) ->
  Re.sub_scan r repl 0 prev s = s.
Proof.
  induction s as [| c s IH]; intros prev H; [reflexivity |].
  cbn [Re.sub_scan]. rewrite (H "" (String c s) prev eq_refl). f_equal.
  apply IH. intros a b pv E. apply (H (String c a) b pv). rewrite app_cons_s, E. reflexivity.
Qed.

(** *** Stepping through a pattern *)

Lemma run_cat r1 r2 k prev s cs :
  Re.run (Re.Cat r1 r2) k prev s cs = Re.run r1 (Re.run r2 k) prev s cs.
Proof. reflexivity. Qed.

Lemma run_grp i r k prev s cs :
  Re.run (Re.Grp i r) k prev s cs =
  Re.run r (fun pv t cs' => k pv t ((i, Re.consumed s t) :: cs')) prev s cs.
Proof. reflexivity. Qed.

Lemma run_alt r1 r2 k prev s cs :
  Re.run (Re.Alt r1 r2) k prev s cs =
  match Re.run r1 k prev s cs with
  | Some x => Some x
  | None => Re.run r2 k prev s cs
  end.
Proof. reflexivity. Qed.

Ltac str_norm :=
  repeat first [rewrite app_assoc_s | rewrite app_cons_s | rewrite app_nil_l_s].

(** Follows the greedy attempt through a goal [Re.run r k prev s cs = Some res]. *)
Ltac run_greedy :=
  repeat first
    [ rewrite run_cat
    | rewrite run_grp
    | rewrite run_chr_step
    | apply run_rep1_greedy; [solve [auto] | solve [auto] | solve [cbn; auto] |]
    | progress cbv beta ].

(** *** The requirement pattern *)

Lemma match_req_sound prev s m :
  Re.match_here Pat.req_id prev s = Some m ->
  exists tok t,
    req_token tok /\ s = "[" +:+ tok +:+ "]" +:+ t /\
    Re.m_text m = "[" +:+ tok +:+ "]" /\ Re.m_group 1 m = tok.
Proof.
  unfold Re.match_here.
  destruct (Re.run Pat.req_id _ prev s []) as [[t cs] |] eqn:E; [| discriminate].
  intros H. inversion H. subst m. clear H.
  unfold Pat.req_id, Pat.req_body in E.
  rewrite run_cat in E. apply run_chr_sound in E. destruct E as [s1 [-> E]].
  rewrite run_cat, run_grp, run_cat in E.
  apply run_rep1_sound in E. destruct E as [P [s2 [-> [HP1 [HP2 E]]]]].
  rewrite run_cat in E. apply run_chr_sound in E. destruct E as [s3 [-> E]].
  rewrite run_cat in E.
  apply run_rep1_sound in E. destruct E as [C [s4 [-> [HC1 [HC2 E]]]]].
  rewrite run_cat in E. apply run_chr_sound in E. destruct E as [s5 [-> E]].
  apply run_rep1_sound in E. destruct E as [N [s6 [-> [HN1 [HN2 E]]]]].
  cbv beta in E. apply run_chr_sound in E. destruct E as [s7 [-> E]].
  inversion E. subst t cs. clear E.
  exists (P +:+ "-" +:+ C +:+ "-" +:+ N), s7.
  split; [| split; [| split]].
  - exists P, C, N. repeat split; assumption.
  - str_norm. reflexivity.
  - cbn [Re.m_text].
    replace (String "[" (P +:+ String "-" (C +:+ String "-" (N +:+ String "]" s7))))
      with (("[" +:+ (P +:+ "-" +:+ C +:+ "-" +:+ N) +:+ "]") +:+ s7)
      by (str_norm; reflexivity).
    apply consumed_app.
  - unfold Re.m_group. cbn [Re.m_groups Re.group Nat.eqb].
    replace (P +:+ String "-" (C +:+ String "-" (N +:+ String "]" s7)))
      with ((P +:+ "-" +:+ C +:+ "-" +:+ N) +:+ String "]" s7)
      by (str_norm; reflexivity).
    apply consumed_app.
Qed.

Lemma match_req_here prev tok t :
  req_token tok ->
  Re.match_here Pat.req_id prev ("[" +:+ tok +:+ "]" +:+ t) =
  Some {| Re.m_text := "[" +:+ tok +:+ "]"; Re.m_groups := [(1, tok)] |}.
Proof.
  intros [P [C [N [-> [[HP1 HP2] [[HC1 HC2] [HN1 HN2]]]]]]].
  unfold Re.match_here.
  assert (E : Re.run Pat.req_id (fun _ t0 cs => Some (t0, cs)) prev
                     ("[" +:+ (P +:+ "-" +:+ C +:+ "-" +:+ N) +:+ "]" +:+ t) []
              = Some (t, [(1, P +:+ "-" +:+ C +:+ "-" +:+ N)])).
  { unfold Pat.req_id, Pat.req_body. str_norm. run_greedy.
    f_equal. f_equal. f_equal. f_equal.
    replace (P +:+ String "-" (C +:+ String "-" (N +:+ String "]" t)))
      with ((P +:+ "-" +:+ C +:+ "-" +:+ N) +:+ String "]" t)
      by (str_norm; reflexivity).
    apply consumed_app. }
  rewrite E. f_equal. f_equal.
  replace ("[" +:+ (P +:+ "-" +:+ C +:+ "-" +:+ N) +:+ "]" +:+ t)
    with (("[" +:+ (P +:+ "-" +:+ C +:+ "-" +:+ N) +:+ "]") +:+ t)
    by (str_norm; reflexivity).
  apply consumed_app.
Qed.

(** *** Where the scan finds its matches *)

Lemma scan_sound r : forall s skip prev m,
  In m (Re.scan r skip prev s) ->
  exists a b pv, s = a +:+ b /\ Re.match_here r pv b = Some m.
Proof.
  induction s as [| c s IH]; intros skip prev m Hin.
  - destruct skip; destruct Hin.
  - destruct skip as [| n].
    + cbn [Re.scan] in Hin.
      destruct (Re.match_here r prev (String c s)) as [m0 |] eqn:E.
      * destruct (String.length (Re.m_text m0)) as [| n].
        -- destruct (IH _ _ _ Hin) as [a [b [pv [Es Hm]]]].
           exists (String c a), b, pv. rewrite app_cons_s, Es. split; [reflexivity | exact Hm].
        -- destruct Hin as [<- | Hin].
           ++ exists "", (String c s), prev. split; [reflexivity | exact E].
           ++ destruct (IH _ _ _ Hin) as [a [b [pv [Es Hm]]]].
              exists (String c a), b, pv. rewrite app_cons_s, Es. split; [reflexivity | exact Hm].
      * destruct (IH _ _ _ Hin) as [a [b [pv [Es Hm]]]].
        exists (String c a), b, pv. rewrite app_cons_s, Es. split; [reflexivity | exact Hm].
    + cbn [Re.scan] in Hin. destruct (IH _ _ _ Hin) as [a [b [pv [Es Hm]]]].
      exists (String c a), b, pv. rewrite app_cons_s, Es. split; [reflexivity | exact Hm].
Qed.

(** The scan reaches the position after [a] when no match that starts in
    [a] runs past its end. *)
Lemma scan_reach r b : forall a skip prev,
  skip <= String.length a ->
  (forall a1 a2 pv m,
      a = a1 +:+ a2 -> a2 <> "" -> Re.match_here r pv (a2 +:+ b) = Some m ->
      String.length (Re.m_text m) <= String.length a2) ->
  exists ms, Re.scan r skip prev (a +:+ b) = ms ++ Re.scan r 0 (Re.last_char prev a) b.
Proof.
  induction a as [| c a IH]; intros skip prev Hskip Hfit.
  - cbn [String.length] in Hskip. assert (skip = 0) as -> by lia. exists []. reflexivity.
  - assert (Hfit' : forall a1 a2 pv m,
               a = a1 +:+ a2 -> a2 <> "" -> Re.match_here r pv (a2 +:+ b) = Some m ->
               String.length (Re.m_text m) <= String.length a2).
    { intros a1 a2 pv m Ea. apply (Hfit (String c a1) a2 pv m).
      rewrite app_cons_s, Ea. reflexivity. }
    rewrite app_cons_s. cbn [Re.last_char]. destruct skip as [| n].
    + cbn [Re.scan].
      destruct (Re.match_here r prev (String c (a +:+ b))) as [m |] eqn:E.
      * destruct (String.length (Re.m_text m)) as [| n] eqn:El.
        -- apply (IH 0 (Some c)); [lia | exact Hfit'].
        -- assert (Hn : n <= String.length a).
           { pose proof (Hfit "" (String c a) prev m eq_refl ltac:(discriminate) E) as Hl.
             rewrite El in Hl. cbn [String.length] in Hl. lia. }
           destruct (IH n (Some c) Hn Hfit') as [ms Hms].
           exists (m :: ms). rewrite Hms. reflexivity.
      * apply (IH 0 (Some c)); [lia | exact Hfit'].
    + cbn [Re.scan]. cbn [String.length] in Hskip.
      apply (IH n (Some c)); [lia | exact Hfit'].
Qed.

(** A match found at the position after [a] is among the matches of the
    scan, under the condition of [scan_reach]. *)
Lemma scan_complete r a b m prev :
  (forall a1 a2 pv m',
      a = a1 +:+ a2 -> a2 <> "" -> Re.match_here r pv (a2 +:+ b) = Some m' ->
      String.length (Re.m_text m') <= String.length a2) ->
  Re.match_here r (Re.last_char prev a) b = Some m ->
  Re.m_text m <> "" ->
  In m (Re.scan r 0 prev (a +:+ b)).
Proof.
  intros Hfit Hm Hne.
  destruct (scan_reach r b a 0 prev ltac:(lia) Hfit) as [ms Hms].
  rewrite Hms. apply in_or_app. right.
  destruct b as [| c b].
  - unfold Re.match_here in Hm. destruct (Re.run r _ _ "" []) as [[t cs] |]; [| discriminate].
    inversion Hm. subst m. exfalso. apply Hne. reflexivity.
  - cbn [Re.scan]. rewrite Hm.
    destruct (String.length (Re.m_text m)) eqn:El.
    + destruct (Re.m_text m); [congruence | discriminate].
    + left. reflexivity.
Qed.

Lemma fold_left_snoc {A B : Type} (f : A -> B) (l : list A) : forall acc,
  fold_left (fun acc x => acc ++ [f x]) l acc = acc ++ map f l.
Proof.
  induction l as [| x l IH]; intros acc; cbn [fold_left map].
  - rewrite app_nil_r. reflexivity.
  - rewrite IH, <- app_assoc. reflexivity.
Qed.

Lemma all_impl (p q : ascii -> bool) (w : string) :
  (forall c, p c = true -> q c = true) -> Str.all p w = true -> Str.all q w = true.
Proof.
  intros Hpq. induction w as [| c w IH]; [reflexivity |].
  cbn [Str.all]. intros H. apply andb_true_iff in H. destruct H as [Hc Hw].
  rewrite (Hpq c Hc), (IH Hw). reflexivity.
Qed.

(** A text without [a] that starts two equal strings ends before the
    first [a] of the other start. *)
Lemma before_first_occurrence (a : ascii) : forall u t pre rest,
  Str.has_char a u = false ->
  u +:+ t = pre +:+ String a rest ->
  String.length u <= String.length pre.
Proof.
  induction u as [| c u IH]; intros t pre rest Hu E; [cbn; lia |].
  cbn [Str.has_char] in Hu. apply orb_false_iff in Hu. destruct Hu as [Hc Hu].
  destruct pre as [| c' pre].
  - rewrite app_cons_s, app_nil_l_s in E. inversion E. subst c.
    rewrite Ascii.eqb_refl in Hc. discriminate.
  - rewrite !app_cons_s in E. inversion E. subst c'.
    cbn [String.length]. apply le_n_S. apply (IH t pre rest Hu). assumption.
Qed.

Lemma has_char_app (a : ascii) (u v : string) :
  Str.has_char a (u +:+ v) = Str.has_char a u || Str.has_char a v.
Proof.
  induction u as [| c u IH]; [reflexivity |].
  rewrite app_cons_s. cbn [Str.has_char]. rewrite IH. apply orb_assoc.
Qed.

Lemma all_has_char (p : ascii -> bool) (a : ascii) (w : string) :
  p a = false -> Str.all p w = true -> Str.has_char a w = false.
Proof.
  intros Ha. induction w as [| c w IH]; [reflexivity |].
  cbn [Str.all Str.has_char]. intros H. apply andb_true_iff in H. destruct H as [Hc Hw].
  rewrite (IH Hw), orb_false_r.
  destruct (Ascii.eqb_spec c a) as [-> |]; [congruence | reflexivity].
Qed.

Lemma req_token_no_lbracket tok :
  req_token tok -> Str.has_char "[" (tok +:+ "]") = false.
Proof.
  intros [P [C [N [-> [[_ HP] [[_ HC] [_ HN]]]]]]].
  rewrite !has_char_app.
  rewrite (all_has_char _ "[" P eq_refl HP), (all_has_char _ "[" C eq_refl HC),
    (all_has_char _ "[" N eq_refl HN).
  reflexivity.
Qed.

(** A match of the requirement pattern that starts before a bracketed
    token ends before it. *)
Lemma req_no_overrun tok t a2 pv m :
  a2 <> "" ->
  Re.match_here Pat.req_id pv (a2 +:+ "[" +:+ tok +:+ "]" +:+ t) = Some m ->
  String.length (Re.m_text m) <= String.length a2.
Proof.
  intros Hne Hm. destruct (match_req_sound _ _ _ Hm) as [tok' [t' [Htok [Es [Et _]]]]].
  rewrite Et. destruct a2 as [| c a2]; [congruence |].
  revert Es. str_norm. intros Es. inversion Es as [[Hc Ht]]. subst c.
  cbn [String.length]. apply le_n_S.
  replace (tok' +:+ String "]" t') with ((tok' +:+ "]") +:+ t') in Ht
    by (str_norm; reflexivity).
  symmetry in Ht.
  pose proof (before_first_occurrence "[" _ _ _ _ (req_token_no_lbracket _ Htok) Ht) as Hl.
  rewrite length_app_s in *. cbn [String.length] in *. lia.
Qed.

(** Every bracketed token of the text is among the matches. *)
Lemma finditer_req_complete pre tok post :
  req_token tok ->
  In {| Re.m_text := "[" +:+ tok +:+ "]"; Re.m_groups := [(1, tok)] |}
     (Re.finditer Pat.req_id (pre +:+ "[" +:+ tok +:+ "]" +:+ post)).
Proof.
  intros Htok. unfold Re.finditer. apply scan_complete.
  - intros a1 a2 pv m _ Hne Hm. apply (req_no_overrun tok post a2 pv m Hne Hm).
  - apply match_req_here. exact Htok.
  - discriminate.
Qed.

Lemma finditer_req_sound content m :
  In m (Re.finditer Pat.req_id content) ->
  req_token (Re.m_group 1 m) /\
  occurs_in ("[" +:+ Re.m_group 1 m +:+ "]") content.
Proof.
  intros Hin. destruct (scan_sound _ _ _ _ _ Hin) as [a [b [pv [Es Hm]]]].
  destruct (match_req_sound _ _ _ Hm) as [tok [t [Htok [Eb [_ Eg]]]]].
  rewrite Eg. split; [exact Htok |].
  exists a, t. rewrite Es, Eb. str_norm. reflexivity.
Qed.

(** *** The link pattern *)

Lemma match_link_sound prev s m :
  Re.match_here Pat.link prev s = Some m ->
  exists x y t,
    link_text_shape x /\ link_target_shape y /\
    s = link_markup x y +:+ t /\
    Re.m_text m = link_markup x y /\ Re.m_group 1 m = x /\ Re.m_group 2 m = y.
Proof.
  unfold Re.match_here.
  destruct (Re.run Pat.link _ prev s []) as [[t cs] |] eqn:E; [| discriminate].
  intros H. inversion H. subst m. clear H.
  unfold Pat.link in E.
  rewrite run_cat in E. apply run_chr_sound in E. destruct E as [s1 [-> E]].
  rewrite run_cat, run_grp in E.
  apply run_rep1_sound in E. destruct E as [x [s2 [-> [Hx1 [Hx2 E]]]]].
  cbv beta in E.
  rewrite run_cat in E. apply run_chr_sound in E. destruct E as [s3 [-> E]].
  rewrite run_cat in E. apply run_chr_sound in E. destruct E as [s4 [-> E]].
  rewrite run_cat, run_grp in E.
  apply run_rep1_sound in E. destruct E as [y [s5 [-> [Hy1 [Hy2 E]]]]].
  cbv beta in E. apply run_chr_sound in E. destruct E as [s6 [-> E]].
  inversion E. subst t cs. clear E.
  exists x, y, s6. unfold link_markup.
  split; [split; assumption |]. split; [split; assumption |].
  split; [str_norm; reflexivity |].
  split; [| split].
  - cbn [Re.m_text].
    replace (String "[" (x +:+ String "]" (String "(" (y +:+ String ")" s6))))
      with (("[" +:+ x +:+ "](" +:+ y +:+ ")") +:+ s6) by (str_norm; reflexivity).
    apply consumed_app.
  - unfold Re.m_group. cbn [Re.m_groups Re.group Nat.eqb].
    replace (x +:+ String "]" (String "(" (y +:+ String ")" s6)))
      with (x +:+ (String "]" (String "(" (y +:+ String ")" s6)))) by reflexivity.
    apply consumed_app.
  - unfold Re.m_group. cbn [Re.m_groups Re.group Nat.eqb].
    apply consumed_app.
Qed.

Lemma match_link_here prev x y t :
  link_text_shape x -> link_target_shape y ->
  Re.match_here Pat.link prev (link_markup x y +:+ t) =
  Some {| Re.m_text := link_markup x y; Re.m_groups := [(2, y); (1, x)] |}.
Proof.
  intros [Hx1 Hx2] [Hy1 Hy2]. unfold Re.match_here, link_markup.
  assert (E : Re.run Pat.link (fun _ t0 cs => Some (t0, cs)) prev
                     (("[" +:+ x +:+ "](" +:+ y +:+ ")") +:+ t) []
              = Some (t, [(2, y); (1, x)])).
  { unfold Pat.link. str_norm. run_greedy.
    f_equal. f_equal. f_equal; [| f_equal]; f_equal; apply consumed_app. }
  rewrite E. f_equal. f_equal. apply consumed_app.
Qed.

(** *** The orphan pattern *)

Lemma run_family_sound F k prev s cs res :
  Re.run (Pat.family F) k prev s cs = Some res ->
  exists C N t,
    s = F +:+ C +:+ "-" +:+ N +:+ t /\
    word_of Char.upper_AZ C /\ word_of Char.digit N /\
    k (Re.last_char (Some "-"%char) N) t cs = Some res.
Proof.
  unfold Pat.family. revert prev s.
  induction F as [| a F IH]; intros prev s E.
  - cbn [Re.lit] in E. rewrite run_cat in E.
    apply run_rep1_sound in E. destruct E as [C [s2 [-> [HC1 [HC2 E]]]]].
    rewrite run_cat in E. apply run_chr_sound in E. destruct E as [s3 [-> E]].
    apply run_rep1_sound in E. destruct E as [N [s4 [-> [HN1 [HN2 E]]]]].
    exists C, N, s4. split; [str_norm; reflexivity |].
    split; [split; assumption |]. split; [split; assumption | exact E].
  - cbn [Re.lit] in E. rewrite run_cat in E.
    apply run_chr_sound in E. destruct E as [s1 [-> E]].
    destruct (IH _ _ E) as [C [N [t [-> [HC [HN Hk]]]]]].
    exists C, N, t. split; [str_norm; reflexivity |].
    split; [exact HC | split; [exact HN | exact Hk]].
Qed.

Lemma run_lit_step F r k : forall prev t cs,
  F <> "" ->
  Re.run (Re.lit F r) k prev (F +:+ t) cs = Re.run r k (Re.last_char prev F) t cs.
Proof.
  induction F as [| a F IH]; intros prev t cs Hne; [congruence |].
  cbn [Re.lit]. rewrite run_cat, app_cons_s, run_chr_step. cbn [Re.last_char].
  destruct F as [| b F]; [reflexivity |]. apply IH. discriminate.
Qed.

Lemma match_orphan_sound prev s m :
  Re.match_here Pat.orphan prev s = Some m ->
  exists tok t,
    orphan_token tok /\ s = tok +:+ t /\ Re.m_text m = tok /\ Re.m_group 1 m = tok.
Proof.
  unfold Re.match_here.
  destruct (Re.run Pat.orphan _ prev s []) as [[t cs] |] eqn:E; [| discriminate].
  intros H. inversion H. subst m. clear H.
  unfold Pat.orphan in E. rewrite run_grp, run_alt in E.
  assert (Hboth : exists F C N,
             (F = "DBD-" \/ F = "SRC-") /\
             s = F +:+ C +:+ "-" +:+ N +:+ t /\
             word_of Char.upper_AZ C /\ word_of Char.digit N /\
             cs = [(1, Re.consumed s t)]).
  { destruct (Re.run (Pat.family "DBD-") _ prev s []) as [res |] eqn:E1.
    - inversion E. subst res. apply run_family_sound in E1.
      destruct E1 as [C [N [t1 [Es [HC [HN Hk]]]]]]. inversion Hk. subst t1.
      exists "DBD-", C, N.
      split; [left; reflexivity |]. split; [exact Es |].
      split; [exact HC |]. split; [exact HN | reflexivity].
    - apply run_family_sound in E.
      destruct E as [C [N [t1 [Es [HC [HN Hk]]]]]]. inversion Hk. subst t1.
      exists "SRC-", C, N.
      split; [right; reflexivity |]. split; [exact Es |].
      split; [exact HC |]. split; [exact HN | reflexivity]. }
  destruct Hboth as [F [C [N [HF [Es [HC [HN Ecs]]]]]]].
  assert (Ec : Re.consumed s t = F +:+ C +:+ "-" +:+ N).
  { rewrite Es.
    replace (F +:+ C +:+ "-" +:+ N +:+ t) with ((F +:+ C +:+ "-" +:+ N) +:+ t)
      by (str_norm; reflexivity).
    apply consumed_app. }
  exists (F +:+ C +:+ "-" +:+ N), t.
  split; [exists F, C, N; split; [reflexivity |]; split; [exact HF |]; split; [exact HC | exact HN] |].
  split; [rewrite Es; str_norm; reflexivity |].
  split; [exact Ec |].
  unfold Re.m_group. cbn [Re.m_groups]. rewrite Ecs. cbn [Re.group Nat.eqb]. exact Ec.
Qed.

Lemma run_chr_fail a c k prev t cs :
  c <> a -> Re.run (Re.Chr a) k prev (String c t) cs = None.
Proof.
  intros Hne. cbn [Re.run]. destruct (Ascii.eqb_spec c a); [congruence | reflexivity].
Qed.

Lemma run_family_here F C N t k prev cs :
  F <> "" -> word_of Char.upper_AZ C -> word_of Char.digit N -> Re.stops Char.digit t ->
  forall res, k (Re.last_char (Some "-"%char) N) t cs = Some res ->
  Re.run (Pat.family F) k prev (F +:+ C +:+ "-" +:+ N +:+ t) cs = Some res.
Proof.
  intros HF [HC1 HC2] [HN1 HN2] Hstop res Hk. unfold Pat.family.
  rewrite run_lit_step by exact HF. str_norm. run_greedy. exact Hk.
Qed.

Lemma match_orphan_here prev tok t :
  orphan_token tok -> Re.stops Char.digit t ->
  Re.match_here Pat.orphan prev (tok +:+ t) =
  Some {| Re.m_text := tok; Re.m_groups := [(1, tok)] |}.
Proof.
  intros [F [C [N [-> [HF [HC HN]]]]]] Hstop.
  unfold Re.match_here.
  assert (E : Re.run Pat.orphan (fun _ t0 cs => Some (t0, cs)) prev
                     ((F +:+ C +:+ "-" +:+ N) +:+ t) []
              = Some (t, [(1, F +:+ C +:+ "-" +:+ N)])).
  { unfold Pat.orphan. rewrite run_grp, run_alt. cbv beta.
    assert (Ec : Re.consumed ((F +:+ C +:+ "-" +:+ N) +:+ t) t = F +:+ C +:+ "-" +:+ N)
      by apply consumed_app.
    replace ((F +:+ C +:+ "-" +:+ N) +:+ t) with (F +:+ C +:+ "-" +:+ N +:+ t) in *
      by (str_norm; reflexivity).
    destruct HF as [-> | ->].
    - rewrite (run_family_here "DBD-" C N t _ prev [] ltac:(discriminate) HC HN Hstop _ eq_refl).
      rewrite Ec. reflexivity.
    - assert (Hfail : forall k s0, Re.run (Pat.family "DBD-") k prev ("SRC-" +:+ s0) [] = None).
      { intros k s0. unfold Pat.family. cbn [Re.lit]. rewrite run_cat.
        change ("SRC-" +:+ s0) with (String "S" ("RC-" +:+ s0)).
        apply run_chr_fail. discriminate. }
      rewrite Hfail.
      rewrite (run_family_here "SRC-" C N t _ prev [] ltac:(discriminate) HC HN Hstop _ eq_refl).
      rewrite Ec. reflexivity. }
  rewrite E. f_equal. f_equal. apply consumed_app.
Qed.

(** *** Patterns without [^] do not look behind *)

Lemma star_loop_prev p k k' : forall s prev prev',
  (forall pv pv' t, k pv t = k' pv' t) ->
  Re.star_loop p k prev s = Re.star_loop p k' prev' s.
Proof.
  induction s as [| c s IH]; intros prev prev' Hk; cbn [Re.star_loop].
  - apply Hk.
  - destruct (p c); [| apply Hk].
    rewrite (IH (Some c) (Some c) Hk). rewrite (Hk prev prev' (String c s)). reflexivity.
Qed.

Lemma run_prev r : forall k k' prev prev' s cs,
  Re.bol_free r = true ->
  (forall pv pv' t cs', k pv t cs' = k' pv' t cs') ->
  Re.run r k prev s cs = Re.run r k' prev' s cs.
Proof.
  induction r as [a | p | p | r1 IH1 r2 IH2 | r1 IH1 r2 IH2 | i r1 IH1 | |];
    intros k k' prev prev' s cs Hb Hk; cbn [Re.run Re.bol_free] in *.
  - destruct s as [| c s]; [reflexivity |]. destruct (Ascii.eqb c a); [apply Hk | reflexivity].
  - destruct s as [| c s]; [reflexivity |]. destruct (p c); [apply Hk | reflexivity].
  - destruct s as [| c s]; [reflexivity |]. destruct (p c); [| reflexivity].
    apply star_loop_prev. intros pv pv' t. apply Hk.
  - apply andb_true_iff in Hb. destruct Hb as [Hb1 Hb2].
    apply IH1; [exact Hb1 |]. intros pv pv' t cs'. apply IH2; [exact Hb2 | exact Hk].
  - apply andb_true_iff in Hb. destruct Hb as [Hb1 Hb2].
    rewrite (IH1 k k' prev prev' s cs Hb1 Hk), (IH2 k k' prev prev' s cs Hb2 Hk). reflexivity.
  - apply IH1; [exact Hb |]. intros pv pv' t cs'. apply Hk.
  - discriminate.
  - destruct (Re.at_eol s); [apply Hk | reflexivity].
Qed.

Lemma match_here_prev r prev prev' s :
  Re.bol_free r = true -> Re.match_here r prev s = Re.match_here r prev' s.
Proof.
  intros Hb. unfold Re.match_here.
  rewrite (run_prev r _ (fun _ t cs => Some (t, cs)) prev prev' s [] Hb); reflexivity.
Qed.

Lemma scan_prev r : forall s skip prev prev',
  Re.bol_free r = true -> Re.scan r skip prev s = Re.scan r skip prev' s.
Proof.
  intros s skip prev prev' Hb. destruct s as [| c s]; [destruct skip; reflexivity |].
  destruct skip; cbn [Re.scan]; [| reflexivity].
  rewrite (match_here_prev r prev prev' _ Hb). reflexivity.
Qed.

Lemma sub_scan_prev r repl : forall s skip prev prev',
  Re.bol_free r = true -> Re.sub_scan r repl skip prev s = Re.sub_scan r repl skip prev' s.
Proof.
  intros s skip prev prev' Hb. destruct s as [| c s]; [destruct skip; reflexivity |].
  destruct skip; cbn [Re.sub_scan]; [| reflexivity].
  rewrite (match_here_prev r prev prev' _ Hb). reflexivity.
Qed.

(** *** Text in which no match starts *)

Lemma scan_prefix_none r b : forall a prev,
  (forall a1 a2 pv, a = a1 +:+ a2 -> a2 <> "" -> Re.match_here r pv (a2 +:+ b) = None) ->
  Re.scan r 0 prev (a +:+ b) = Re.scan r 0 (Re.last_char prev a) b.
Proof.
  induction a as [| c a IH]; intros prev H; [reflexivity |].
  rewrite app_cons_s. cbn [Re.scan Re.last_char].
  rewrite <- app_cons_s. rewrite (H "" (String c a) prev eq_refl ltac:(discriminate)).
  apply IH. intros a1 a2 pv E. apply (H (String c a1) a2 pv). rewrite app_cons_s, E. reflexivity.
Qed.

Lemma sub_scan_prefix_none r repl b : forall a prev,
  (forall a1 a2 pv, a = a1 +:+ a2 -> a2 <> "" -> Re.match_here r pv (a2 +:+ b) = None) ->
  Re.sub_scan r repl 0 prev (a +:+ b) = a +:+ Re.sub_scan r repl 0 (Re.last_char prev a) b.
Proof.
  induction a as [| c a IH]; intros prev H; [reflexivity |].
  rewrite !app_cons_s. cbn [Re.sub_scan Re.last_char].
  rewrite <- app_cons_s. rewrite (H "" (String c a) prev eq_refl ltac:(discriminate)).
  f_equal.
  apply IH. intros a1 a2 pv E. apply (H (String c a1) a2 pv). rewrite app_cons_s, E. reflexivity.
Qed.

(** A suffix of a text without [a] is without [a]. *)
Lemma has_char_suffix (a : ascii) (s1 s2 : string) :
  Str.has_char a (s1 +:+ s2) = false -> Str.has_char a s2 = false.
Proof.
  rewrite has_char_app. intros H. apply orb_false_iff in H. apply H.
Qed.

Lemma has_char_prefix (a : ascii) (s1 s2 : string) :
  Str.has_char a (s1 +:+ s2) = false -> Str.has_char a s1 = false.
Proof.
  rewrite has_char_app. intros H. apply orb_false_iff in H. apply H.
Qed.

(** No link starts at a character other than [[]. *)
Lemma match_link_first prev c s :
  c <> "["%char -> Re.match_here Pat.link prev (String c s) = None.
Proof.
  intros Hc. unfold Re.match_here, Pat.link.
  rewrite run_cat, run_chr_fail by exact Hc. reflexivity.
Qed.

Lemma no_link_without_lbracket a b :
  Str.has_char "[" a = false ->
  forall a1 a2 pv, a = a1 +:+ a2 -> a2 <> "" -> Re.match_here Pat.link pv (a2 +:+ b) = None.
Proof.
  intros Ha a1 a2 pv E Hne. subst a. apply has_char_suffix in Ha.
  destruct a2 as [| c a2]; [congruence |]. rewrite app_cons_s.
  apply match_link_first. cbn [Str.has_char] in Ha. apply orb_false_iff in Ha.
  destruct Ha as [Hc _]. intros ->. discriminate.
Qed.

(** No link in a text without []]. *)
Lemma no_link_without_rbracket s :
  Str.has_char "]" s = false ->
  forall a b pv, s = a +:+ b -> Re.match_here Pat.link pv b = None.
Proof.
  intros Hs a b pv E. destruct (Re.match_here Pat.link pv b) as [m |] eqn:Em; [| reflexivity].
  exfalso. destruct (match_link_sound _ _ _ Em) as [x [y [t [_ [_ [Eb _]]]]]].
  subst s b. apply has_char_suffix in Hs. unfold link_markup in Hs.
  revert Hs. str_norm. cbn [Str.has_char]. rewrite has_char_app. cbn [Str.has_char].
  rewrite Ascii.eqb_refl. cbn [orb]. rewrite orb_true_r, orb_true_r. discriminate.
Qed.

(* ===================================================================== *)
(** * Further properties of the code *)
(* ===================================================================== *)

(* ===================================================================== *)
(** ** The parts of a link target *)
(* ===================================================================== *)

Lemma validate_link_split self source_file x F A :
  Str.has_char "#" F = false ->
  validate_link self source_file x (F +:+ String "#" A) =
  let target_file := target_file_of source_file F in
  if negb (bool_decide (target_file ∈ file_names self))
  then (false, "Target file not found: " +:+ target_file)
  else
    match A with
    | String _ _ =>
        match anchors self !! target_file with
        | None => (false, "No anchors cached for " +:+ target_file)
        | Some known =>
            if negb (bool_decide (A ∈ known))
            then (false, "Anchor #" +:+ A +:+ " not found in " +:+ target_file)
            else (true, "")
        end
    | EmptyString => (true, "")
    end.
Proof.
  intros HF. unfold validate_link.
  rewrite has_char_app_sep, (split_first_app _ _ _ HF). cbv zeta.
  unfold target_file_of. destruct A; reflexivity.
Qed.


(* ===================================================================== *)
(** ** Requirement IDs and anchors of a file *)
(* ===================================================================== *)

Lemma find_requirement_references_map file_path :
  find_requirement_references file_path =
  map (Re.m_group 1) (Re.finditer Pat.req_id (doc_text file_path)).
Proof. unfold find_requirement_references. apply (fold_left_snoc (Re.m_group 1)). Qed.

Lemma fold_union_singleton {A : Type} (f : A -> string) (l : list A) :
  forall (acc : gset string) (x : string),
  x ∈ fold_left (fun (acc : gset string) m => {[ f m ]} ∪ acc) l acc <->
  x ∈ acc \/ exists m, In m l /\ x = f m.
Proof.
  induction l as [| m l IH]; intros acc x; cbn [fold_left].
  - split; [intros H; left; exact H | intros [H | [m [[] _]]]; exact H].
  - rewrite IH. split.
    + intros [H | [m' [Hin E]]].
      * apply elem_of_union in H. destruct H as [H | H].
        -- apply elem_of_singleton in H. right. exists m. split; [left; reflexivity | exact H].
        -- left. exact H.
      * right. exists m'. split; [right; exact Hin | exact E].
    + intros [H | [m' [[<- | Hin] E]]].
      * left. apply elem_of_union. right. exact H.
      * left. apply elem_of_union. left. apply elem_of_singleton. exact E.
      * right. exists m'. split; assumption.
Qed.

Lemma fold_union_pair {A : Type} (f g : A -> string) (l : list A) :
  forall (acc : gset string) (x : string),
  x ∈ fold_left (fun (acc : gset string) m => {[ f m ]} ∪ ({[ g m ]} ∪ acc)) l acc <->
  x ∈ acc \/ exists m, In m l /\ (x = f m \/ x = g m).
Proof.
  induction l as [| m l IH]; intros acc x; cbn [fold_left].
  - split; [intros H; left; exact H | intros [H | [m [[] _]]]; exact H].
  - rewrite IH. split.
    + intros [H | [m' [Hin E]]].
      * apply elem_of_union in H. destruct H as [H | H].
        -- apply elem_of_singleton in H. right. exists m. split; [left; reflexivity | left; exact H].
        -- apply elem_of_union in H. destruct H as [H | H].
           ++ apply elem_of_singleton in H. right. exists m.
              split; [left; reflexivity | right; exact H].
           ++ left. exact H.
      * right. exists m'. split; [right; exact Hin | exact E].
    + intros [H | [m' [[<- | Hin] E]]].
      * left. apply elem_of_union. right. apply elem_of_union. right. exact H.
      * left. destruct E as [E | E].
        -- apply elem_of_union. left. apply elem_of_singleton. exact E.
        -- apply elem_of_union. right. apply elem_of_union. left.
           apply elem_of_singleton. exact E.
      * right. exists m'. split; assumption.
Qed.

Lemma references_iff_bracketed (file_path : Document) (tok : string) :
  In tok (find_requirement_references file_path) <->
  req_token tok /\ occurs_in ("[" +:+ tok +:+ "]") (doc_text file_path).
Proof.
  rewrite find_requirement_references_map, in_map_iff. split.
  - intros [m [<- Hin]]. apply finditer_req_sound. exact Hin.
  - intros [Htok [pre [post E]]].
    exists {| Re.m_text := "[" +:+ tok +:+ "]"; Re.m_groups := [(1, tok)] |}.
    split; [reflexivity |].
    rewrite E. replace (pre +:+ ("[" +:+ tok +:+ "]") +:+ post)
      with (pre +:+ "[" +:+ tok +:+ "]" +:+ post) by (str_norm; reflexivity).
    apply finditer_req_complete. exact Htok.
Qed.

(** X1: the requirement references found in a file are exactly the
    tokens [PREFIX-CATEGORY-NUMBER] that occur in its text between square
    brackets: none is missed and nothing else is reported. *)
Theorem find_requirement_references_exact (file_path : Document) (tok : string) :
  In tok (find_requirement_references file_path) <->
  req_token tok /\ occurs_in ("[" +:+ tok +:+ "]") (doc_text file_path).
Proof. exact (references_iff_bracketed file_path tok). Qed.

Lemma ids_iff_references (file_path : Document) (tok : string) :
  tok ∈ extract_requirement_ids_from_file file_path <->
  In tok (find_requirement_references file_path).
Proof.
  unfold extract_requirement_ids_from_file. cbv zeta.
  rewrite (fold_union_singleton (Re.m_group 1)), find_requirement_references_map, in_map_iff.
  split.
  - intros [H | [m [Hin E]]]; [set_solver |]. exists m. split; [symmetry; exact E | exact Hin].
  - intros [m [E Hin]]. right. exists m. split; [exact Hin | symmetry; exact E].
Qed.

(** X2: the requirement index of a file holds exactly the references
    found in that file: any bracketed token counts as a definition. *)
Theorem extract_requirement_ids_are_references (file_path : Document) (tok : string) :
  tok ∈ extract_requirement_ids_from_file file_path <->
  In tok (find_requirement_references file_path).
Proof. exact (ids_iff_references file_path tok). Qed.

Lemma anchors_iff (file_path : Document) (a : string) :
  a ∈ extract_anchors_from_file file_path <->
  (exists m, In m (Re.finditer Pat.header (doc_text file_path)) /\
             a = header_anchor (Re.m_group 1 m)) \/
  (exists tok, req_token tok /\
               occurs_in ("[" +:+ tok +:+ "]") (doc_text file_path) /\
               (a = tok \/ a = Str.lower tok)).
Proof.
  unfold extract_anchors_from_file. cbv zeta.
  rewrite (fold_union_pair (Re.m_group 1) (fun m => Str.lower (Re.m_group 1 m))).
  rewrite (fold_union_singleton (fun m => header_anchor (Re.m_group 1 m))).
  split.
  - intros [[H | H] | [m [Hin E]]]; [set_solver | left; exact H |].
    right. exists (Re.m_group 1 m).
    destruct (finditer_req_sound _ _ Hin) as [Htok Hocc].
    split; [exact Htok |]. split; [exact Hocc | exact E].
  - intros [H | [tok [Htok [Hocc E]]]]; [left; right; exact H |].
    right. assert (Hin : In tok (find_requirement_references file_path))
      by (apply references_iff_bracketed; split; assumption).
    rewrite find_requirement_references_map, in_map_iff in Hin.
    destruct Hin as [m [Em Hin]]. exists m. split; [exact Hin |]. rewrite Em. exact E.
Qed.

(** X3: the anchors of a file are the anchors of its headers and, for
    each bracketed requirement token of its text, the token itself and its
    lower-case form; there is no other anchor. *)
Theorem extract_anchors_exact (file_path : Document) (a : string) :
  a ∈ extract_anchors_from_file file_path <->
  (exists m, In m (Re.finditer Pat.header (doc_text file_path)) /\
             a = header_anchor (Re.m_group 1 m)) \/
  (exists tok, req_token tok /\
               occurs_in ("[" +:+ tok +:+ "]") (doc_text file_path) /\
               (a = tok \/ a = Str.lower tok)).
Proof. exact (anchors_iff file_path a). Qed.

(* ===================================================================== *)
(** ** The caches *)
(* ===================================================================== *)

Lemma fold_cache_other docs n : forall self,
  ~ In n (map doc_name docs) ->
  anchors (fold_left cache_step docs self) !! n = anchors self !! n /\
  requirement_ids (fold_left cache_step docs self) !! n = requirement_ids self !! n.
Proof.
  induction docs as [| d docs IH]; intros self Hn; [split; reflexivity |].
  cbn [fold_left]. cbn [map In] in Hn.
  destruct (IH (cache_step self d) ltac:(tauto)) as [Ha Hr].
  rewrite Ha, Hr. unfold cache_step. cbn [anchors requirement_ids set_anchors].
  rewrite !lookup_insert_ne by tauto. split; reflexivity.
Qed.

Lemma fold_cache_lookup docs d : forall self,
  List.NoDup (map doc_name docs) -> In d docs ->
  anchors (fold_left cache_step docs self) !! doc_name d
    = Some (extract_anchors_from_file d) /\
  requirement_ids (fold_left cache_step docs self) !! doc_name d
    = Some (extract_requirement_ids_from_file d).
Proof.
  induction docs as [| d0 docs IH]; intros self Hnd Hin; [destruct Hin |].
  cbn [fold_left]. cbn [map] in Hnd. inversion Hnd as [| n l Hn0 Hnd']. subst n l.
  destruct Hin as [-> | Hin].
  - destruct (fold_cache_other docs (doc_name d) (cache_step self d) Hn0) as [Ha Hr].
    rewrite Ha, Hr. unfold cache_step. cbn [anchors requirement_ids set_anchors].
    rewrite !lookup_insert_eq. split; reflexivity.
  - apply IH; assumption.
Qed.

Lemma fold_cache_dom docs : forall self,
  dom (anchors (fold_left cache_step docs self))
    = list_to_set (map doc_name docs) ∪ dom (anchors self) /\
  dom (requirement_ids (fold_left cache_step docs self))
    = list_to_set (map doc_name docs) ∪ dom (requirement_ids self).
Proof.
  induction docs as [| d docs IH]; intros self; cbn [fold_left map list_to_set].
  - split; set_solver.
  - destruct (IH (cache_step self d)) as [Ha Hr]. rewrite Ha, Hr.
    unfold cache_step. cbn [anchors requirement_ids set_anchors].
    rewrite !dom_insert_L. split; set_solver.
Qed.

Lemma cached_fold docs : cached docs = fold_left cache_step docs (init docs).
Proof. reflexivity. Qed.

Lemma cached_entries (docs : list Document) (d : Document) :
  List.NoDup (map doc_name docs) -> In d docs ->
  anchors (cached docs) !! doc_name d = Some (extract_anchors_from_file d) /\
  requirement_ids (cached docs) !! doc_name d = Some (extract_requirement_ids_from_file d) /\
  dom (anchors (cached docs)) = file_names (cached docs) /\
  dom (requirement_ids (cached docs)) = file_names (cached docs).
Proof.
  intros Hnd Hin.
  destruct (fold_cache_lookup docs d (init docs) Hnd Hin) as [Ha Hr].
  destruct (fold_cache_dom docs (init docs)) as [Da Dr].
  destruct (cached_fields docs) as [_ [Ef _]].
  rewrite cached_fold. rewrite cached_fold in Ef.
  rewrite Ha, Hr, Da, Dr, Ef. cbn [anchors requirement_ids init].
  repeat split; set_solver.
Qed.

(** X4: once the caches are filled, every file name has an entry in both
    caches and no other key has one; with distinct file names the entry of
    a file is its own anchor set and its own requirement index. *)
Theorem cache_holds_every_file (docs : list Document) (d : Document) :
  List.NoDup (map doc_name docs) -> In d docs ->
  anchors (cached docs) !! doc_name d = Some (extract_anchors_from_file d) /\
  requirement_ids (cached docs) !! doc_name d = Some (extract_requirement_ids_from_file d) /\
  dom (anchors (cached docs)) = file_names (cached docs) /\
  dom (requirement_ids (cached docs)) = file_names (cached docs).
Proof. exact (cached_entries docs d). Qed.

Lemma cache_holds_every_file_witness :
  anchors (cached sample_docs) !! doc_name sample_b
    = Some (extract_anchors_from_file sample_b) /\
  requirement_ids (cached sample_docs) !! doc_name sample_b
    = Some (extract_requirement_ids_from_file sample_b) /\
  dom (anchors (cached sample_docs)) = file_names (cached sample_docs) /\
  dom (requirement_ids (cached sample_docs)) = file_names (cached sample_docs).
Proof.
  apply (cache_holds_every_file sample_docs sample_b).
  - repeat constructor; cbn; intuition discriminate.
  - right. left. reflexivity.
Defined.

Lemma anchors_cached_for_known docs target :
  target ∈ file_names (cached docs) -> is_Some (anchors (cached docs) !! target).
Proof.
  intros H. apply elem_of_dom.
  destruct (fold_cache_dom docs (init docs)) as [Da _].
  destruct (cached_fields docs) as [_ [Ef _]].
  rewrite cached_fold in *. rewrite Da. rewrite Ef in H. set_solver.
Qed.

(** X5: the error message of [validate_link] is empty exactly when the
    link is valid; in a run a broken link is reported as a missing target
    file or as a missing anchor, never as a missing anchor cache. *)
Theorem validate_link_messages (self : LinkValidator) (docs : list Document)
        (source_file : Document) (link_text link_target : string) :
  (fst (validate_link self source_file link_text link_target) = true <->
   snd (validate_link self source_file link_text link_target) = "") /\
  (let error := snd (validate_link (cached docs) source_file link_text link_target) in
   error = "" \/
   Str.startswith "Target file not found: " error = true \/
   Str.startswith "Anchor #" error = true).
Proof.
  split.
  - unfold validate_link.
    destruct (if Str.has_char "#" link_target then _ else _) as [file_part anchor_part].
    destruct (negb (bool_decide _)); [cbn; split; discriminate |].
    destruct anchor_part as [[| c a] |]; try (cbn; tauto).
    destruct (anchors self !! _); [| cbn; split; discriminate].
    destruct (negb (bool_decide _)); cbn; [split; discriminate | tauto].
  - cbv zeta. unfold validate_link.
    destruct (if Str.has_char "#" link_target then _ else _) as [file_part anchor_part].
    set (target := match file_part with "" => doc_name source_file | _ => file_part end).
    destruct (bool_decide_reflect (target ∈ file_names (cached docs))) as [Hin | Hout];
      cbn [negb]; [| right; left; reflexivity].
    destruct anchor_part as [[| c a] |]; try (left; reflexivity).
    destruct (anchors_cached_for_known docs target Hin) as [known Ek]. rewrite Ek.
    destruct (negb (bool_decide _)); [right; right; reflexivity | left; reflexivity].
Qed.

(** X6: a reference to a requirement token is valid in a run as soon as a
    file named as a candidate for its prefix contains the token between
    brackets - also when that file only mentions the token. *)
Theorem reference_defined_by_any_mention (docs : list Document) (d : Document) (tok : string) :
  List.NoDup (map doc_name docs) -> In d docs ->
  In (doc_name d) (expected_files_of (Str.before_first "-" tok)) ->
  In tok (find_requirement_references d) ->
  validate_requirement_reference (cached docs) tok = (true, "").
Proof.
  intros Hnd Hin Hexp Href. unfold validate_requirement_reference.
  destruct (expected_files_of (Str.before_first "-" tok)) as [| f fs] eqn:Ef; [reflexivity |].
  assert (Hex : existsb (defined_in (cached docs) tok) (f :: fs) = true).
  { apply existsb_exists. exists (doc_name d). split; [exact Hexp |].
    unfold defined_in.
    destruct (cached_entries docs d Hnd Hin) as [_ [Hr _]]. rewrite Hr.
    apply bool_decide_eq_true. apply ids_iff_references. exact Href. }
  rewrite Hex. reflexivity.
Qed.

Lemma reference_defined_by_any_mention_witness :
  validate_requirement_reference
    (cached [text_doc "SPEC007-api_design.md" "see [API-X-1] below"]) "API-X-1" = (true, "").
Proof.
  apply (reference_defined_by_any_mention
           [text_doc "SPEC007-api_design.md" "see [API-X-1] below"]
           (text_doc "SPEC007-api_design.md" "see [API-X-1] below") "API-X-1").
  - repeat constructor. cbn. intuition.
  - left. reflexivity.
  - left. reflexivity.
  - left. reflexivity.
Defined.


(* ===================================================================== *)
(** ** Links and orphaned references of a file *)
(* ===================================================================== *)

Lemma fold_links (ms : list Re.rmatch) : forall acc,
  fold_left (fun links m =>
               let link_text := Re.m_group 1 m in
               let link_target := Re.m_group 2 m in
               if Str.startswith "http://" link_target || Str.startswith "https://" link_target
               then links
               else links ++ [(link_text, link_target)]) ms acc =
  acc ++ map (fun m => (Re.m_group 1 m, Re.m_group 2 m))
             (List.filter (fun m => negb (external (Re.m_group 2 m))) ms).
Proof.
  induction ms as [| m ms IH]; intros acc; cbn [fold_left List.filter map].
  - rewrite app_nil_r. reflexivity.
  - rewrite IH. unfold external at 2.
    destruct (Str.startswith "http://" (Re.m_group 2 m) || Str.startswith "https://" (Re.m_group 2 m));
      cbn [negb map]; [reflexivity | rewrite <- app_assoc; reflexivity].
Qed.

Lemma extract_links_map file_path :
  extract_links_from_file file_path =
  map (fun m => (Re.m_group 1 m, Re.m_group 2 m))
      (List.filter (fun m => negb (external (Re.m_group 2 m)))
                   (Re.finditer Pat.link (doc_text file_path))).
Proof. unfold extract_links_from_file. cbv zeta. apply (fold_links _ []). Qed.

(** X7: an extracted link has a non-empty text without []], a non-empty
    target without [)] that starts with neither [http://] nor [https://],
    and it occurs as [[text](target)] in the file. *)
Theorem extracted_links_are_internal (file_path : Document) (x y : string) :
  In (x, y) (extract_links_from_file file_path) ->
  link_text_shape x /\ link_target_shape y /\
  Str.startswith "http://" y = false /\ Str.startswith "https://" y = false /\
  occurs_in (link_markup x y) (doc_text file_path).
Proof.
  rewrite extract_links_map, in_map_iff. intros [m [E Hin]].
  apply filter_In in Hin. destruct Hin as [Hin Hext].
  inversion E. subst x y. clear E.
  destruct (scan_sound _ _ _ _ _ Hin) as [a [b [pv [Es Hm]]]].
  destruct (match_link_sound _ _ _ Hm) as [x [y [t [Hx [Hy [Eb [_ [E1 E2]]]]]]]].
  rewrite E1, E2 in *. unfold external in Hext.
  apply negb_true_iff, orb_false_iff in Hext. destruct Hext as [H1 H2].
  repeat split; try apply Hx; try apply Hy; try assumption.
  exists a, t. rewrite Es, Eb. str_norm. reflexivity.
Qed.

Lemma extracted_links_are_internal_witness :
  link_text_shape "ok" /\ link_target_shape "B.md#other" /\
  Str.startswith "http://" "B.md#other" = false /\
  Str.startswith "https://" "B.md#other" = false /\
  occurs_in (link_markup "ok" "B.md#other") (doc_text sample_a).
Proof.
  apply (extracted_links_are_internal sample_a "ok" "B.md#other").
  right. left. reflexivity.
Defined.


Lemma finditer_link_first pre x y post :
  Str.has_char "[" pre = false -> link_text_shape x -> link_target_shape y ->
  Re.finditer Pat.link (pre +:+ link_markup x y +:+ post) =
  {| Re.m_text := link_markup x y; Re.m_groups := [(2, y); (1, x)] |}
    :: Re.finditer Pat.link post.
Proof.
  intros Hpre Hx Hy. unfold Re.finditer.
  rewrite scan_prefix_none by (apply no_link_without_lbracket; exact Hpre).
  pose proof (match_link_here (Re.last_char None pre) x y post Hx Hy) as Hm.
  change (link_markup x y) with (String "[" (x +:+ "](" +:+ y +:+ ")")) in Hm at 1.
  change (link_markup x y) with (String "[" (x +:+ "](" +:+ y +:+ ")")) at 1.
  rewrite (scan_match _ _ _ _ _ _ Hm eq_refl).
  f_equal. apply scan_prev. reflexivity.
Qed.

(** X8: the first link of a text - no [[] before it - is extracted first,
    unless its target is an external URL, and the links after it are those
    of the rest of the text. *)
Theorem extract_links_first (name pre x y post : string) :
  Str.has_char "[" pre = false -> link_text_shape x -> link_target_shape y ->
  extract_links_from_file (text_doc name (pre +:+ link_markup x y +:+ post)) =
  (if external y then [] else [(x, y)]) ++ extract_links_from_file (text_doc name post).
Proof.
  intros Hpre Hx Hy. rewrite !extract_links_map. cbn [doc_text text_doc].
  rewrite (finditer_link_first pre x y post Hpre Hx Hy).
  cbn [List.filter Re.m_group Re.m_groups Re.group Nat.eqb].
  unfold Re.m_group at 1. cbn [Re.m_groups Re.group Nat.eqb].
  destruct (external y); cbn [negb map app]; [reflexivity |].
  unfold Re.m_group at 1 2. cbn [Re.m_groups Re.group Nat.eqb]. reflexivity.
Qed.

Lemma extract_links_first_witness :
  extract_links_from_file
    (text_doc "A.md" ("See " +:+ link_markup "REQ-ABC-1" "file.md" +:+ " and [x](http://e.org)")) =
  (if external "file.md" then [] else [("REQ-ABC-1", "file.md")]) ++
  extract_links_from_file (text_doc "A.md" " and [x](http://e.org)").
Proof.
  apply (extract_links_first "A.md" "See " "REQ-ABC-1" "file.md" " and [x](http://e.org)");
    [reflexivity | split; [discriminate | reflexivity] | split; [discriminate | reflexivity]].
Defined.

Lemma find_orphaned_map file_path :
  find_orphaned_references file_path =
  map (Re.m_group 1)
      (Re.finditer Pat.orphan (Re.sub Pat.link (Re.m_group 1) (doc_text file_path))).
Proof. unfold find_orphaned_references. cbv zeta. apply (fold_left_snoc (Re.m_group 1)). Qed.

(** X9: every orphaned reference reported is a token [DBD-CATEGORY-NUMBER]
    or [SRC-CATEGORY-NUMBER]; no other prefix is ever reported. *)
Theorem orphaned_references_are_tokens (file_path : Document) (ref : string) :
  In ref (find_orphaned_references file_path) -> orphan_token ref.
Proof.
  rewrite find_orphaned_map, in_map_iff. intros [m [<- Hin]].
  destruct (scan_sound _ _ _ _ _ Hin) as [a [b [pv [_ Hm]]]].
  destruct (match_orphan_sound _ _ _ Hm) as [tok [t [Htok [_ [_ Eg]]]]].
  rewrite Eg. exact Htok.
Qed.

Lemma orphaned_references_are_tokens_witness : orphan_token "DBD-FOO-2".
Proof.
  apply (orphaned_references_are_tokens sample_b "DBD-FOO-2").
  left. reflexivity.
Defined.


Lemma sub_link_one pre x y post :
  Str.has_char "[" pre = false -> link_text_shape x -> link_target_shape y ->
  Re.sub Pat.link (Re.m_group 1) (pre +:+ link_markup x y +:+ post) =
  pre +:+ x +:+ Re.sub Pat.link (Re.m_group 1) post.
Proof.
  intros Hpre Hx Hy. unfold Re.sub.
  rewrite sub_scan_prefix_none by (apply no_link_without_lbracket; exact Hpre).
  f_equal.
  pose proof (match_link_here (Re.last_char None pre) x y post Hx Hy) as Hm.
  change (link_markup x y) with (String "[" (x +:+ "](" +:+ y +:+ ")")) in Hm at 1.
  change (link_markup x y) with (String "[" (x +:+ "](" +:+ y +:+ ")")) at 1.
  rewrite (sub_scan_match _ _ _ _ _ _ _ Hm eq_refl).
  unfold Re.m_group at 1. cbn [Re.m_groups Re.group Nat.eqb].
  f_equal. apply sub_scan_prev. reflexivity.
Qed.

Lemma sub_link_none s :
  Str.has_char "]" s = false -> Re.sub Pat.link (Re.m_group 1) s = s.
Proof.
  intros Hs. unfold Re.sub. apply sub_scan_no_match.
  apply no_link_without_rbracket. exact Hs.
Qed.

Lemma sub_link_plain pre s :
  Str.has_char "[" pre = false -> Str.has_char "]" s = false ->
  Re.sub Pat.link (Re.m_group 1) (pre +:+ s) = pre +:+ s.
Proof.
  intros Hpre Hs. unfold Re.sub.
  rewrite sub_scan_prefix_none by (apply no_link_without_lbracket; exact Hpre).
  f_equal. apply sub_scan_no_match. apply no_link_without_rbracket. exact Hs.
Qed.

Lemma orphans_of_link (name pre x y post : string) :
  Str.has_char "[" pre = false -> Str.has_char "]" post = false ->
  link_text_shape x -> link_target_shape y ->
  find_orphaned_references (text_doc name (pre +:+ link_markup x y +:+ post)) =
  find_orphaned_references (text_doc name (pre +:+ x +:+ post)).
Proof.
  intros Hpre Hpost Hx Hy. rewrite !find_orphaned_map. cbn [doc_text text_doc].
  rewrite (sub_link_one pre x y post Hpre Hx Hy), (sub_link_none post Hpost).
  rewrite sub_link_plain; [reflexivity | exact Hpre |].
  rewrite has_char_app, Hpost, orb_false_r.
  destruct Hx as [_ Hx]. apply (all_has_char _ "]" x eq_refl Hx).
Qed.

(** X10: orphan detection treats a link exactly as its text: a link in a
    text otherwise free of links gives the same orphaned references as the
    text with the link replaced by its link text, so a token in the link
    text is reported and the link target is never looked at. *)
Theorem orphans_see_link_text_only (name pre x y post : string) :
  Str.has_char "[" pre = false -> Str.has_char "]" post = false ->
  link_text_shape x -> link_target_shape y ->
  find_orphaned_references (text_doc name (pre +:+ link_markup x y +:+ post)) =
  find_orphaned_references (text_doc name (pre +:+ x +:+ post)).
Proof. exact (orphans_of_link name pre x y post). Qed.

Lemma orphans_see_link_text_only_witness :
  find_orphaned_references
    (text_doc "A.md" ("See " +:+ link_markup "DBD-FOO-2" "SPEC016.md#SRC-X-1" +:+ " here")) =
  find_orphaned_references (text_doc "A.md" ("See " +:+ "DBD-FOO-2" +:+ " here")).
Proof.
  apply (orphans_see_link_text_only "A.md" "See " "DBD-FOO-2" "SPEC016.md#SRC-X-1" " here");
    [reflexivity | reflexivity | split; [discriminate | reflexivity]
    | split; [discriminate | reflexivity]].
Defined.

Lemma upper_not_rbracket c : Char.upper_AZ c = true -> Pat.not_rbracket c = true.
Proof. destruct c as [[] [] [] [] [] [] [] []]; vm_compute; auto. Qed.

Lemma digit_not_rbracket c : Char.digit c = true -> Pat.not_rbracket c = true.
Proof. destruct c as [[] [] [] [] [] [] [] []]; vm_compute; auto. Qed.

Lemma orphan_token_link_text tok : orphan_token tok -> link_text_shape tok.
Proof.
  intros [F [C [N [-> [HF [[HC1 HC2] [HN1 HN2]]]]]]]. split.
  - destruct HF as [-> | ->]; discriminate.
  - rewrite !all_app, (all_impl _ _ C upper_not_rbracket HC2),
      (all_impl _ _ N digit_not_rbracket HN2).
    destruct HF as [-> | ->]; reflexivity.
Qed.

Lemma finditer_orphan_token tok :
  orphan_token tok -> map (Re.m_group 1) (Re.finditer Pat.orphan tok) = [tok].
Proof.
  intros Htok. pose proof (match_orphan_here None tok "" Htok I) as Hm.
  destruct tok as [| c w].
  { destruct Htok as [F [C [N [E [HF _]]]]]. destruct HF as [-> | ->]; discriminate. }
  unfold Re.finditer. rewrite <- (app_nil_r_s (String c w)) at 1.
  rewrite (scan_match _ _ c w "" _ Hm eq_refl). reflexivity.
Qed.

(** X11: a token of the two families that is the whole text of a link is
    reported as an orphaned reference although it is inside a link. *)
Theorem linked_token_is_orphan (name tok y : string) :
  orphan_token tok -> link_target_shape y ->
  find_orphaned_references (text_doc name (link_markup tok y)) = [tok].
Proof.
  intros Htok Hy. pose proof (orphan_token_link_text tok Htok) as Hx.
  pose proof (orphans_of_link name "" tok y "" eq_refl eq_refl Hx Hy) as H.
  rewrite app_nil_l_s, !app_nil_r_s in H. rewrite H.
  rewrite find_orphaned_map. cbn [doc_text text_doc].
  rewrite sub_link_none by (destruct Hx as [_ Hx]; apply (all_has_char _ "]" tok eq_refl Hx)).
  apply finditer_orphan_token. exact Htok.
Qed.

Lemma linked_token_is_orphan_witness :
  find_orphaned_references (text_doc "A.md" (link_markup "DBD-FOO-2" "file.md")) = ["DBD-FOO-2"].
Proof.
  apply (linked_token_is_orphan "A.md" "DBD-FOO-2" "file.md").
  - exists "DBD-", "FOO", "2". split; [reflexivity |]. split; [left; reflexivity |].
    split; split; try discriminate; reflexivity.
  - split; [discriminate | reflexivity].
Defined.

(* ===================================================================== *)
(** ** The anchor of a header *)
(* ===================================================================== *)

Lemma take_drop_while p s : s = take_while p s +:+ drop_while p s.
Proof.
  induction s as [| c s IH]; [reflexivity |].
  cbn [take_while drop_while]. destruct (p c); [| reflexivity].
  rewrite app_cons_s. f_equal. exact IH.
Qed.

Lemma all_take_while p s : Str.all p (take_while p s) = true.
Proof.
  induction s as [| c s IH]; [reflexivity |].
  cbn [take_while]. destruct (p c) eqn:E; [| reflexivity].
  cbn [Str.all]. rewrite E, IH. reflexivity.
Qed.

Lemma stops_drop_while p s : Re.stops p (drop_while p s).
Proof.
  induction s as [| c s IH]; [exact I |].
  cbn [drop_while]. destruct (p c) eqn:E; [exact IH | exact E].
Qed.

Lemma length_drop_while p s : String.length (drop_while p s) <= String.length s.
Proof.
  induction s as [| c s IH]; [cbn; lia |].
  cbn [drop_while]. destruct (p c); cbn [String.length]; lia.
Qed.

Lemma collapse_in_run s :
  collapse_spaces true s = collapse_spaces false (drop_while Char.space s).
Proof.
  induction s as [| c s IH]; [reflexivity |].
  cbn [collapse_spaces drop_while]. destruct (Char.space c) eqn:E; [exact IH |].
  cbn [collapse_spaces]. rewrite E. reflexivity.
Qed.

(** [re.sub(r'[^\w\s-]', '', s)] drops the special characters. *)
Lemma sub_special s : Re.sub Pat.special (fun _ => "") s = Str.keep kept_char s.
Proof.
  unfold Re.sub. generalize (@None ascii) as prev.
  induction s as [| c s IH]; intros prev; [reflexivity |].
  cbn [Re.sub_scan Str.keep]. unfold Re.match_here, Pat.special, kept_char.
  cbn [Re.run]. destruct (Pat.special_char c) eqn:E; cbn [negb].
  - change (Re.consumed (String c s) s) with (Re.consumed (String c "" +:+ s) s).
    rewrite consumed_app. cbn [Re.m_text String.length]. rewrite app_nil_l_s. apply IH.
  - f_equal. apply IH.
Qed.

Lemma match_spaces_here prev c s :
  Char.space c = true ->
  Re.match_here Pat.spaces prev (String c (take_while Char.space s) +:+ drop_while Char.space s) =
  Some {| Re.m_text := String c (take_while Char.space s); Re.m_groups := [] |}.
Proof.
  intros Hc. unfold Re.match_here, Pat.spaces.
  rewrite (run_rep1_greedy Char.space _ (drop_while Char.space s, [])
             (String c (take_while Char.space s)) (drop_while Char.space s) prev []).
  - rewrite consumed_app. reflexivity.
  - discriminate.
  - cbn [Str.all]. rewrite Hc, all_take_while. reflexivity.
  - apply stops_drop_while.
  - reflexivity.
Qed.

Lemma match_spaces_none prev c s :
  Char.space c = false -> Re.match_here Pat.spaces prev (String c s) = None.
Proof.
  intros Hc. unfold Re.match_here, Pat.spaces. cbn [Re.run]. rewrite Hc. reflexivity.
Qed.

(** [re.sub(r'\s+', '-', s)] writes one hyphen for each run of white space. *)
Lemma sub_spaces s : Re.sub Pat.spaces (fun _ => "-") s = collapse_spaces false s.
Proof.
  unfold Re.sub. generalize (@None ascii) as prev.
  assert (H : forall n s prev, String.length s <= n ->
                Re.sub_scan Pat.spaces (fun _ => "-") 0 prev s = collapse_spaces false s).
  { induction n as [| n IH]; intros s0 prev Hn.
    - destruct s0; [reflexivity | cbn in Hn; lia].
    - destruct s0 as [| c s0]; [reflexivity |]. cbn [String.length] in Hn.
      cbn [collapse_spaces]. destruct (Char.space c) eqn:Hc.
      + rewrite (take_drop_while Char.space s0) at 1. rewrite <- app_cons_s.
        rewrite (sub_scan_match _ _ _ _ _ _ _ (match_spaces_here prev c s0 Hc) eq_refl).
        rewrite collapse_in_run. rewrite IH; [reflexivity |].
        pose proof (length_drop_while Char.space s0). lia.
      + cbn [Re.sub_scan]. rewrite (match_spaces_none prev c s0 Hc).
        f_equal. apply IH. lia. }
  intros prev. apply (H (String.length s)). lia.
Qed.

Lemma header_anchor_closed (header : string) :
  header_anchor header =
  collapse_spaces false (Str.strip (Str.keep kept_char (Str.lower header))).
Proof.
  unfold header_anchor. cbv zeta. rewrite sub_special, sub_spaces. reflexivity.
Qed.

(** X12: the anchor of a header is its title in lower case, without the
    characters that are neither word characters, white space nor hyphens,
    without white space at both ends, and with one hyphen for each run of
    white space left; hyphens of the title stay, also at the ends. *)
Theorem header_anchor_pipeline (header : string) :
  header_anchor header =
  collapse_spaces false (Str.strip (Str.keep kept_char (Str.lower header))).
Proof. exact (header_anchor_closed header). Qed.

(** *** Anchors are in normal form *)

Lemma all_keep p s : Str.all p (Str.keep p s) = true.
Proof.
  induction s as [| c s IH]; [reflexivity |].
  cbn [Str.keep]. destruct (p c) eqn:E; [| exact IH]. cbn [Str.all]. rewrite E, IH. reflexivity.
Qed.

Lemma all_keep_other p q s : Str.all q s = true -> Str.all q (Str.keep p s) = true.
Proof.
  induction s as [| c s IH]; [reflexivity |].
  cbn [Str.keep Str.all]. intros H. apply andb_true_iff in H. destruct H as [Hc Hs].
  destruct (p c); [cbn [Str.all]; rewrite Hc, (IH Hs); reflexivity | exact (IH Hs)].
Qed.

Lemma all_map_lower s : Str.all lower_fixed (Str.lower s) = true.
Proof.
  induction s as [| c s IH]; [reflexivity |].
  unfold Str.lower in *. cbn [Str.map Str.all]. rewrite IH, andb_true_r.
  unfold lower_fixed. destruct c as [[] [] [] [] [] [] [] []]; reflexivity.
Qed.

Lemma all_lstrip q s : Str.all q s = true -> Str.all q (Str.lstrip s) = true.
Proof.
  induction s as [| c s IH]; [reflexivity |].
  cbn [Str.lstrip]. intros H. destruct (Char.space c); [| exact H].
  cbn [Str.all] in H. apply andb_true_iff in H. apply IH. apply H.
Qed.

Lemma all_rstrip q s : Str.all q s = true -> Str.all q (Str.rstrip s) = true.
Proof.
  induction s as [| c s IH]; [reflexivity |].
  cbn [Str.rstrip Str.all]. intros H. apply andb_true_iff in H. destruct H as [Hc Hs].
  specialize (IH Hs). destruct (Str.rstrip s) as [| c' r].
  - destruct (Char.space c); [reflexivity | cbn [Str.all]; rewrite Hc; reflexivity].
  - cbn [Str.all] in *. rewrite Hc, IH. reflexivity.
Qed.

Lemma all_strip q s : Str.all q s = true -> Str.all q (Str.strip s) = true.
Proof. intros H. unfold Str.strip. apply all_rstrip, all_lstrip, H. Qed.

Lemma all_and p q s :
  Str.all p s = true -> Str.all q s = true -> Str.all (fun c => p c && q c) s = true.
Proof.
  induction s as [| c s IH]; [reflexivity |].
  cbn [Str.all]. intros Hp Hq. apply andb_true_iff in Hp, Hq.
  destruct Hp as [Hp Hps], Hq as [Hq Hqs]. rewrite Hp, Hq, (IH Hps Hqs). reflexivity.
Qed.

(** After the collapse: no white space, and what was kept and fixed stays so. *)
Lemma all_collapse b s :
  Str.all (fun c => kept_char c && lower_fixed c) s = true ->
  Str.all (fun c => anchor_char c && lower_fixed c) (collapse_spaces b s) = true.
Proof.
  revert b. induction s as [| c s IH]; intros b H; [reflexivity |].
  cbn [Str.all] in H. apply andb_true_iff in H. destruct H as [Hc Hs].
  cbn [collapse_spaces]. destruct (Char.space c) eqn:Esp.
  - destruct b; [apply IH; exact Hs |]. cbn [Str.all]. rewrite (IH true Hs). reflexivity.
  - cbn [Str.all]. rewrite (IH false Hs), andb_true_r.
    apply andb_true_iff in Hc. destruct Hc as [Hk Hf]. rewrite Hf, andb_true_r.
    unfold kept_char, Pat.special_char in Hk. rewrite negb_involutive, Esp, orb_false_r in Hk.
    exact Hk.
Qed.

Lemma header_anchor_chars header :
  Str.all (fun c => anchor_char c && lower_fixed c) (header_anchor header) = true.
Proof.
  rewrite header_anchor_closed. apply all_collapse. apply all_strip. apply all_and.
  - apply all_keep.
  - apply all_keep_other. apply all_map_lower.
Qed.

Lemma anchor_char_facts c :
  anchor_char c = true -> Char.space c = false /\ kept_char c = true.
Proof. destruct c as [[] [] [] [] [] [] [] []]; vm_compute; auto. Qed.

Lemma lower_fixed_string s : Str.all lower_fixed s = true -> Str.lower s = s.
Proof.
  unfold Str.lower. induction s as [| c s IH]; [reflexivity |].
  cbn [Str.all Str.map]. intros H. apply andb_true_iff in H. destruct H as [Hc Hs].
  rewrite (IH Hs). unfold lower_fixed in Hc. apply Ascii.eqb_eq in Hc. rewrite Hc. reflexivity.
Qed.

Lemma keep_all p s : Str.all p s = true -> Str.keep p s = s.
Proof.
  induction s as [| c s IH]; [reflexivity |].
  cbn [Str.all Str.keep]. intros H. apply andb_true_iff in H. destruct H as [Hc Hs].
  rewrite Hc, (IH Hs). reflexivity.
Qed.

Lemma lstrip_no_space s :
  Str.all (fun c => negb (Char.space c)) s = true -> Str.lstrip s = s.
Proof.
  destruct s as [| c s]; [reflexivity |]. cbn [Str.all Str.lstrip]. intros H.
  apply andb_true_iff in H. destruct H as [Hc _]. apply negb_true_iff in Hc.
  rewrite Hc. reflexivity.
Qed.

Lemma rstrip_no_space s :
  Str.all (fun c => negb (Char.space c)) s = true -> Str.rstrip s = s.
Proof.
  induction s as [| c s IH]; [reflexivity |].
  cbn [Str.all Str.rstrip]. intros H. apply andb_true_iff in H. destruct H as [Hc Hs].
  rewrite (IH Hs). apply negb_true_iff in Hc. rewrite Hc. destruct s; reflexivity.
Qed.

Lemma collapse_no_space s :
  Str.all (fun c => negb (Char.space c)) s = true -> collapse_spaces false s = s.
Proof.
  induction s as [| c s IH]; [reflexivity |].
  cbn [Str.all collapse_spaces]. intros H. apply andb_true_iff in H. destruct H as [Hc Hs].
  apply negb_true_iff in Hc. rewrite Hc, (IH Hs). reflexivity.
Qed.

(** X13: an anchor of a header consists of word characters and hyphens
    that lower-casing leaves unchanged - no white space, no [A-Z] - and
    computing the anchor of an anchor gives the anchor back. *)
Theorem header_anchor_normal_form (header : string) :
  Str.all anchor_char (header_anchor header) = true /\
  Str.all (fun c => negb (Char.space c)) (header_anchor header) = true /\
  Str.all (fun c => negb (Char.upper_AZ c)) (header_anchor header) = true /\
  header_anchor (header_anchor header) = header_anchor header.
Proof.
  pose proof (header_anchor_chars header) as H.
  set (a := header_anchor header) in *.
  assert (Ha : Str.all anchor_char a = true)
    by (apply (all_impl _ _ a (fun c Hc => proj1 (proj1 (andb_true_iff _ _) Hc)) H)).
  assert (Hf : Str.all lower_fixed a = true)
    by (apply (all_impl _ _ a (fun c Hc => proj2 (proj1 (andb_true_iff _ _) Hc)) H)).
  assert (Hs : Str.all (fun c => negb (Char.space c)) a = true).
  { apply (all_impl _ _ a) with (2 := Ha). intros c Hc.
    destruct (anchor_char_facts c Hc) as [E _]. rewrite E. reflexivity. }
  assert (Hk : Str.all kept_char a = true).
  { apply (all_impl _ _ a) with (2 := Ha). intros c Hc. apply (anchor_char_facts c Hc). }
  split; [exact Ha |]. split; [exact Hs |]. split.
  - apply (all_impl _ _ a) with (2 := Hf). intros c.
    unfold lower_fixed. destruct c as [[] [] [] [] [] [] [] []]; vm_compute; auto.
  - rewrite header_anchor_closed, (lower_fixed_string a Hf), (keep_all _ a Hk).
    unfold Str.strip. rewrite (lstrip_no_space a Hs), (rstrip_no_space a Hs).
    apply collapse_no_space. exact Hs.
Qed.

(* ===================================================================== *)
(** ** Links into the directory *)
(* ===================================================================== *)

Lemma file_names_cached docs target :
  target ∈ file_names (cached docs) <-> In target (map doc_name docs).
Proof.
  destruct (cached_fields docs) as [_ [Ef _]]. rewrite Ef.
  rewrite elem_of_list_to_set. apply list_elem_of_In.
Qed.

Lemma validate_link_plain self source_file x target :
  Str.has_char "#" target = false ->
  validate_link self source_file x target =
  if negb (bool_decide (target_file_of source_file target ∈ file_names self))
  then (false, "Target file not found: " +:+ target_file_of source_file target)
  else (true, "").
Proof.
  intros H. unfold validate_link. rewrite H. reflexivity.
Qed.

(** X14: in a run, a link target without [#] is valid exactly when it is,
    character for character, the name of a file of the directory. *)
Theorem link_without_anchor_exact_name (docs : list Document) (source_file : Document)
        (x target : string) :
  Str.has_char "#" target = false -> target <> "" ->
  fst (validate_link (cached docs) source_file x target) = true <->
  In target (map doc_name docs).
Proof.
  intros Hh Hne. rewrite (validate_link_plain _ _ _ _ Hh).
  assert (Et : target_file_of source_file target = target)
    by (destruct target; [congruence | reflexivity]).
  rewrite Et, <- file_names_cached.
  destruct (bool_decide_reflect (target ∈ file_names (cached docs))); cbn [negb fst];
    split; intros H; try reflexivity; try assumption; try discriminate. contradiction.
Qed.

Lemma link_without_anchor_exact_name_witness :
  fst (validate_link (cached sample_docs) sample_a "far" "C.md") = true <->
  In "C.md" (map doc_name sample_docs).
Proof.
  apply (link_without_anchor_exact_name sample_docs sample_a "far" "C.md");
    [reflexivity | discriminate].
Defined.

Lemma req_token_nonempty tok : req_token tok -> exists c w, tok = String c w.
Proof.
  intros [P [C [N [-> [[HP _] _]]]]]. destruct P as [| c P]; [congruence |].
  exists c. eexists. rewrite app_cons_s. reflexivity.
Qed.

(** X15: in a run, a link [file#TOKEN] to a file that contains the
    requirement token between brackets is valid, with the token as written
    and with the token in lower case. *)
Theorem link_to_requirement_anchor (docs : list Document) (d source_file : Document)
        (x tok : string) :
  List.NoDup (map doc_name docs) -> In d docs ->
  doc_name d <> "" -> Str.has_char "#" (doc_name d) = false ->
  req_token tok -> occurs_in ("[" +:+ tok +:+ "]") (doc_text d) ->
  validate_link (cached docs) source_file x (doc_name d +:+ "#" +:+ tok) = (true, "") /\
  validate_link (cached docs) source_file x (doc_name d +:+ "#" +:+ Str.lower tok) = (true, "").
Proof.
  intros Hnd Hin Hname Hh Htok Hocc.
  destruct (cached_entries docs d Hnd Hin) as [Ha _].
  assert (Et : target_file_of source_file (doc_name d) = doc_name d)
    by (destruct (doc_name d); [congruence | reflexivity]).
  assert (Hf : doc_name d ∈ file_names (cached docs))
    by (apply file_names_cached, in_map, Hin).
  assert (Hboth : forall a, (a = tok \/ a = Str.lower tok) ->
            validate_link (cached docs) source_file x (doc_name d +:+ String "#" a) = (true, "")).
  { intros a Ea.
    assert (Hm : a ∈ extract_anchors_from_file d).
    { apply anchors_iff. right. exists tok. repeat split; assumption. }
    rewrite (validate_link_split _ _ _ _ _ Hh). cbv zeta. rewrite Et.
    rewrite (bool_decide_eq_true_2 _ Hf). cbn [negb]. rewrite Ha.
    rewrite (bool_decide_eq_true_2 _ Hm). cbn [negb].
    destruct (req_token_nonempty tok Htok) as [c [w Ec]].
    destruct Ea as [-> | ->]; rewrite Ec; reflexivity. }
  split; apply Hboth; [left | right]; reflexivity.
Qed.

Lemma link_to_requirement_anchor_witness :
  validate_link (cached sample_docs) sample_a "x" (doc_name sample_b +:+ "#" +:+ "REQ-API-1")
    = (true, "") /\
  validate_link (cached sample_docs) sample_a "x"
                (doc_name sample_b +:+ "#" +:+ Str.lower "REQ-API-1") = (true, "").
Proof.
  apply (link_to_requirement_anchor sample_docs sample_b sample_a "x" "REQ-API-1").
  - repeat constructor; cbn; intuition discriminate.
  - right. left. reflexivity.
  - discriminate.
  - reflexivity.
  - exists "REQ", "API", "1". split; [reflexivity |].
    repeat split; try discriminate; reflexivity.
  - exists ("# Other" +:+ nl), " see DBD-FOO-2 and [DBD-X-1](A.md)". reflexivity.
Defined.

(* ===================================================================== *)
(** ** The report *)
(* ===================================================================== *)

Lemma length_filter_split {A : Type} (f : A -> bool) (l : list A) :
  length (List.filter f l) + length (List.filter (fun x => negb (f x)) l) = length l.
Proof.
  induction l as [| x l IH]; [reflexivity |].
  cbn [List.filter]. destruct (f x); cbn [negb length]; lia.
Qed.

Lemma valid_plus_broken c docs :
  length (flat_map (fun d => List.filter (link_ok c d) (extract_links_from_file d)) docs) +
  length (flat_map (fun d => map (broken_entry c d) (broken_of c d (extract_links_from_file d))) docs)
  = length (flat_map extract_links_from_file docs).
Proof.
  induction docs as [| d docs IH]; [reflexivity |].
  cbn [flat_map]. rewrite !length_app, length_map. unfold broken_of at 1.
  pose proof (length_filter_split (link_ok c d) (extract_links_from_file d)). lia.
Qed.

Lemma critical_le_broken c docs :
  length (flat_map (fun d => map (critical_entry c d) (critical_of c d (extract_links_from_file d))) docs)
  <= length (flat_map (fun d => map (broken_entry c d) (broken_of c d (extract_links_from_file d))) docs).
Proof.
  induction docs as [| d docs IH]; [reflexivity |].
  cbn [flat_map]. rewrite !length_app, !length_map. unfold critical_of.
  apply Nat.add_le_mono; [apply length_filter_le | exact IH].
Qed.

Lemma length_flat_map_map {A B C D : Type} (f : A -> list B)
      (g : A -> B -> C) (h : A -> B -> D) (l : list A) :
  length (flat_map (fun d => map (g d) (f d)) l) = length (flat_map (fun d => map (h d) (f d)) l).
Proof.
  induction l as [| x l IH]; [reflexivity |].
  cbn [flat_map]. rewrite !length_app, !length_map, IH. reflexivity.
Qed.

Lemma run_validator_report docs :
  exists r, run_validator docs = Some r /\
            generate_report (final_state docs) = Some r.
Proof.
  destruct (run_validator_returns docs) as [r Hr]. exists r.
  split; [exact Hr |]. rewrite <- validate_all_final. exact Hr.
Qed.

Lemma report_counts (docs : list Document) :
  exists r,
    run_validator docs = Some r /\
    r_total_links_checked r = r_valid_links r + length (r_broken_links r) /\
    r_total_links_checked r = length (flat_map extract_links_from_file docs) /\
    length (r_warnings r) = length (r_orphaned_references r) /\
    length (r_critical_issues r) <= length (r_broken_links r) /\
    r_missing_anchors r = [] /\
    s_total_files_checked (r_summary r) = length docs /\
    s_total_links (r_summary r) = r_total_links_checked r /\
    s_valid_links (r_summary r) = r_valid_links r /\
    s_broken_links_count (r_summary r) = length (r_broken_links r) /\
    s_invalid_req_ids_count (r_summary r) = length (r_invalid_requirement_ids r) /\
    s_orphaned_refs_count (r_summary r) = length (r_orphaned_references r) /\
    s_critical_issues_count (r_summary r) = length (r_critical_issues r) /\
    s_warnings_count (r_summary r) = length (r_warnings r) /\
    s_health_score (r_summary r) = r_health_score r.
Proof.
  destruct (run_validator_report docs) as [r [Hr Hg]].
  exists r. split; [exact Hr |].
  unfold generate_report in Hg. destruct (health_score _ _ _) as [h |]; [| discriminate].
  inversion Hg. subst r. clear Hg Hr.
  cbn [r_total_links_checked r_valid_links r_broken_links r_warnings r_orphaned_references
       r_critical_issues r_missing_anchors r_summary r_invalid_requirement_ids r_health_score
       s_total_files_checked s_total_links s_valid_links s_broken_links_count
       s_invalid_req_ids_count s_orphaned_refs_count s_critical_issues_count
       s_warnings_count s_health_score].
  rewrite final_state_closed. cbv zeta.
  cbn [total_links valid_links broken_links warnings orphaned_references critical_issues
       missing_anchors all_files set_results].
  destruct (cached_fields docs) as [Ea [_ [_ [_ [_ [_ [Em _]]]]]]].
  rewrite Ea, Em.
  repeat split.
  - symmetry. apply valid_plus_broken.
  - apply (length_flat_map_map find_orphaned_references).
  - apply critical_le_broken.
Qed.

(** X16: the counts of a report agree with one another: every link checked
    is either valid or in [broken_links], there is one warning for each
    orphaned reference, the critical issues are no more than the broken
    links, [missing_anchors] is always empty, and the summary repeats the
    sizes of the lists and the health score. *)
Theorem report_counts_consistent (docs : list Document) :
  exists r,
    run_validator docs = Some r /\
    r_total_links_checked r = r_valid_links r + length (r_broken_links r) /\
    r_total_links_checked r = length (flat_map extract_links_from_file docs) /\
    length (r_warnings r) = length (r_orphaned_references r) /\
    length (r_critical_issues r) <= length (r_broken_links r) /\
    r_missing_anchors r = [] /\
    s_total_files_checked (r_summary r) = length docs /\
    s_total_links (r_summary r) = r_total_links_checked r /\
    s_valid_links (r_summary r) = r_valid_links r /\
    s_broken_links_count (r_summary r) = length (r_broken_links r) /\
    s_invalid_req_ids_count (r_summary r) = length (r_invalid_requirement_ids r) /\
    s_orphaned_refs_count (r_summary r) = length (r_orphaned_references r) /\
    s_critical_issues_count (r_summary r) = length (r_critical_issues r) /\
    s_warnings_count (r_summary r) = length (r_warnings r) /\
    s_health_score (r_summary r) = r_health_score r.
Proof. exact (report_counts docs). Qed.

(* ===================================================================== *)
(** ** A clean run *)
(* ===================================================================== *)

Section ExactQuotients.
Import F64 F64Facts.
Local Open Scope Z_scope.

Lemma rne_div_exact q d : 0 < d -> rne_div (q * d) d = q.
Proof.
  intros Hd. apply Z.le_antisymm; [apply rne_div_le | apply rne_div_ge]; lia.
Qed.

Lemma shift_small n d k :
  0 < d -> 0 <= n -> 0 <= k < 2 ^ 53 -> n <= k * d -> shift n d <= 1074.
Proof.
  intros Hd Hn Hk Hle. pose proof unit_pos as HP.
  replace 1074 with (1126 - 52) by lia. apply shift_bound; try lia.
  assert (n * unit <= k * unit * d) by nia.
  assert (k * unit * d < 2 ^ 53 * unit * d) by nia.
  replace (2 ^ (1126 + 1)) with (2 ^ 53 * unit); [lia |].
  unfold unit. rewrite <- Z.pow_add_r by lia. reflexivity.
Qed.

(** A quotient that is a small integer is not rounded. *)
Lemma round_exact k d :
  0 < d -> 0 <= k < 2 ^ 53 -> round (k * d) d = Some (k * unit).
Proof.
  intros Hd Hk.
  assert (Hn : 0 <= k * d) by nia.
  destruct (round_bounded (k * d) d k Hd Hn Hk ltac:(lia)) as [x [R B]].
  rewrite R. f_equal. apply round_some in R. subst x.
  pose proof (shift_small (k * d) d k Hd Hn Hk ltac:(lia)) as Hs.
  pose proof (shift_nonneg (k * d) d) as Hs0.
  set (s := shift (k * d) d) in *.
  assert (HU : unit = 2 ^ (1074 - s) * 2 ^ s).
  { unfold unit. rewrite <- Z.pow_add_r by lia. f_equal. lia. }
  assert (Hp : 0 < 2 ^ s) by (apply Z.pow_pos_nonneg; lia).
  assert (E : k * d * unit = k * 2 ^ (1074 - s) * (d * 2 ^ s)).
  { rewrite HU at 1. ring. }
  rewrite E, rne_div_exact by nia. rewrite <- Z.mul_assoc, <- HU. reflexivity.
Qed.

(** When every link is valid the link score is 100. *)
Lemma link_score_all_valid (t : nat) : link_score t t = Some 100.
Proof.
  unfold link_score. destruct (Nat.ltb_spec 0 t) as [Ht | Ht]; [| reflexivity].
  unfold div_int.
  replace (Z.of_nat t) with (1 * Z.of_nat t) at 1 by lia.
  rewrite round_exact by lia.
  unfold mul, of_int.
  replace (1 * unit * (100 * unit)) with (100 * (unit * unit)) by ring.
  pose proof unit_pos as HP.
  rewrite round_exact by nia.
  unfold to_int. rewrite Z.div_mul by lia. reflexivity.
Qed.

End ExactQuotients.

(** X17: the health score of a run (of fewer than [2^45] links) is 100
    exactly when the report has no broken link and no invalid requirement
    ID. *)
Theorem health_score_100_iff_clean (docs : list Document) :
  (Z.of_nat (length (flat_map extract_links_from_file docs)) < 2 ^ 45)%Z ->
  exists r,
    run_validator docs = Some r /\
    (r_health_score r = 100%Z <->
     r_broken_links r = [] /\ r_invalid_requirement_ids r = []).
Proof.
  intros Hsmall.
  destruct (report_counts docs) as [r [Hr [Hsum [Htot _]]]].
  destruct (run_validator_fields docs) as [r' [Hr' [Hh [Ht [Hv [_ [Hi _]]]]]]].
  rewrite Hr in Hr'. inversion Hr'. subst r'. clear Hr'.
  rewrite <- Ht, <- Hv, <- Hi in Hh.
  exists r. split; [exact Hr |].
  set (t := r_total_links_checked r) in *. set (v := r_valid_links r) in *.
  set (n := length (r_invalid_requirement_ids r)) in *.
  assert (Hle : v <= t) by lia.
  assert (Hsm : (Z.of_nat t < 2 ^ 45)%Z) by (unfold t; lia).
  assert (Hn0 : n = 0 <-> r_invalid_requirement_ids r = []).
  { unfold n. destruct (r_invalid_requirement_ids r); cbn [length]; split; congruence. }
  clearbody t v n.
  unfold health_score in Hh.
  destruct (link_score_range t v Hle) as [b [Eb Hb]]. rewrite Eb in Hh.
  assert (Hp : penalised b n = r_health_score r) by congruence. clear Hh.
  split.
  - intros H100. rewrite H100 in Hp.
    assert (Hn : n = 0).
    { destruct n as [| n']; [reflexivity |]. unfold penalised in Hp. lia. }
    assert (Hb100 : b = 100%Z) by (rewrite Hn in Hp; cbn in Hp; lia).
    assert (Hvt : v = t).
    { destruct (Nat.eq_dec t 0) as [E0 | Hpos]; [lia |].
      destruct (link_score_floor t v b ltac:(lia) Hsm Hle Eb) as [[_ Hup] _].
      subst b.
      assert (Hq : (100 * Z.of_nat t <= 100 * Z.of_nat v)%Z).
      { assert (Hd : (Z.of_nat t * (100 * Z.of_nat v / Z.of_nat t) <= 100 * Z.of_nat v)%Z)
          by (apply Z.mul_div_le; lia).
        nia. }
      lia. }
    split.
    + destruct (r_broken_links r); [reflexivity | cbn [length] in Hsum; lia].
    + apply Hn0. exact Hn.
  - intros [Hbr Hin]. rewrite Hbr in Hsum. cbn [length] in Hsum.
    assert (Hvt : v = t) by lia.
    assert (Hn : n = 0) by (apply Hn0; exact Hin).
    rewrite Hvt, link_score_all_valid in Eb. inversion Eb. subst b.
    rewrite <- Hp, Hn. reflexivity.
Qed.

Lemma health_score_100_iff_clean_witness :
  exists r,
    run_validator sample_docs = Some r /\
    (r_health_score r = 100%Z <->
     r_broken_links r = [] /\ r_invalid_requirement_ids r = []).
Proof.
  apply (health_score_100_iff_clean sample_docs). vm_compute. reflexivity.
Defined.

(* ===================================================================== *)
(** ** Headers *)
(* ===================================================================== *)

Lemma space_not_hash c : Char.space c = true -> Char.is_char "#" c = false.
Proof. destruct c as [[] [] [] [] [] [] [] []]; vm_compute; auto. Qed.

Lemma stops_app p w t : w <> "" -> Re.stops p w -> Re.stops p (w +:+ t).
Proof. destruct w as [| c w]; [congruence |]. intros _ H. exact H. Qed.

Lemma run_bol k prev s cs :
  Re.run Re.Bol k prev s cs = if Re.at_bol prev then k prev s cs else None.
Proof. reflexivity. Qed.

Lemma run_eol k prev s cs :
  Re.run Re.Eol k prev s cs = if Re.at_eol s then k prev s cs else None.
Proof. reflexivity. Qed.

Lemma at_eol_stops rest : Re.stops Char.dot rest -> Re.at_eol rest = true.
Proof.
  destruct rest as [| c rest]; [reflexivity |]. cbn [Re.stops Re.at_eol].
  unfold Char.dot. intros H. apply negb_false_iff in H. exact H.
Qed.

Lemma match_header_here prev hashes spaces title rest :
  Re.at_bol prev = true ->
  word_of (Char.is_char "#") hashes -> word_of Char.space spaces ->
  word_of Char.dot title -> Re.stops Char.space title -> Re.stops Char.dot rest ->
  Re.match_here Pat.header prev (hashes +:+ spaces +:+ title +:+ rest) =
  Some {| Re.m_text := hashes +:+ spaces +:+ title; Re.m_groups := [(1, title)] |}.
Proof.
  intros Hbol [Hh1 Hh2] [Hs1 Hs2] [Ht1 Ht2] Hstop Hrest.
  unfold Re.match_here.
  assert (E : Re.run Pat.header (fun _ t0 cs => Some (t0, cs)) prev
                     (hashes +:+ spaces +:+ title +:+ rest) []
              = Some (rest, [(1, title)])).
  { unfold Pat.header. rewrite run_cat, run_bol, Hbol.
    rewrite run_cat. apply run_rep1_greedy; [exact Hh1 | exact Hh2 | |].
    { destruct spaces as [| c sp]; [congruence |]. rewrite app_cons_s. cbn [Re.stops].
      cbn [Str.all] in Hs2. apply andb_true_iff in Hs2. apply space_not_hash, Hs2. }
    rewrite run_cat. apply run_rep1_greedy; [exact Hs1 | exact Hs2 | |].
    { apply stops_app; assumption. }
    rewrite run_cat, run_grp. apply run_rep1_greedy; [exact Ht1 | exact Ht2 | exact Hrest |].
    cbv beta. rewrite run_eol, (at_eol_stops rest Hrest), consumed_app. reflexivity. }
  rewrite E. f_equal. f_equal.
  replace (hashes +:+ spaces +:+ title +:+ rest) with ((hashes +:+ spaces +:+ title) +:+ rest)
    by (str_norm; reflexivity).
  apply consumed_app.
Qed.

Lemma match_header_first prev c s :
  c <> "#"%char -> Re.match_here Pat.header prev (String c s) = None.
Proof.
  intros Hc. unfold Re.match_here, Pat.header. rewrite run_cat, run_bol.
  destruct (Re.at_bol prev); [| reflexivity].
  rewrite run_cat. cbn [Re.run]. unfold Char.is_char.
  destruct (Ascii.eqb_spec c "#"); [congruence | reflexivity].
Qed.

Lemma no_header_without_hash a b :
  Str.has_char "#" a = false ->
  forall a1 a2 pv, a = a1 +:+ a2 -> a2 <> "" -> Re.match_here Pat.header pv (a2 +:+ b) = None.
Proof.
  intros Ha a1 a2 pv E Hne. subst a. apply has_char_suffix in Ha.
  destruct a2 as [| c a2]; [congruence |]. rewrite app_cons_s.
  apply match_header_first. cbn [Str.has_char] in Ha. apply orb_false_iff in Ha.
  destruct Ha as [Hc _]. intros ->. discriminate.
Qed.

(** X18: the first header of a file gives an anchor.  When no [#] comes
    before it and it starts a line, a header made of hashes, white space
    and a title that runs to the end of its line puts the anchor of that
    title in the anchor set of the file. *)
Theorem first_header_anchor (name pre hashes spaces title rest : string) :
  Str.has_char "#" pre = false -> Re.at_bol (Re.last_char None pre) = true ->
  word_of (Char.is_char "#") hashes -> word_of Char.space spaces ->
  word_of Char.dot title -> Re.stops Char.space title -> Re.stops Char.dot rest ->
  header_anchor title ∈
    extract_anchors_from_file (text_doc name (pre +:+ hashes +:+ spaces +:+ title +:+ rest)).
Proof.
  intros Hpre Hbol Hh Hs Ht Hstop Hrest.
  apply anchors_iff. left.
  exists {| Re.m_text := hashes +:+ spaces +:+ title; Re.m_groups := [(1, title)] |}.
  split; [| reflexivity].
  cbn [doc_text text_doc]. unfold Re.finditer.
  rewrite scan_prefix_none by (apply no_header_without_hash; exact Hpre).
  pose proof (match_header_here _ hashes spaces title rest Hbol Hh Hs Ht Hstop Hrest) as Hm.
  destruct Hh as [Hh1 Hh2]. destruct hashes as [| c hs]; [congruence |].
  replace (String c hs +:+ spaces +:+ title +:+ rest)
    with (String c (hs +:+ spaces +:+ title) +:+ rest) in * by (str_norm; reflexivity).
  rewrite (scan_match _ _ _ _ _ _ Hm); [left; reflexivity |].
  cbn [Re.m_text]. str_norm. reflexivity.
Qed.

Lemma first_header_anchor_witness :
  header_anchor "Hello World!" ∈
    extract_anchors_from_file
      (text_doc "A.md" ("intro" +:+ nl +:+ "##" +:+ " " +:+ "Hello World!" +:+ (nl +:+ "text"))).
Proof.
  apply (first_header_anchor "A.md" ("intro" +:+ nl) "##" " " "Hello World!" (nl +:+ "text"));
    try reflexivity; split; try discriminate; reflexivity.
Defined.

(* ===================================================================== *)
(** ** The priority groups of apply-edits.py *)
(* ===================================================================== *)

Section ApplyEditsFacts.
Import ApplyEdits.

Lemma value_eqb_spec v p : value_eqb v p = true <-> v = Text p.
Proof.
  destruct v as [s |]; cbn [value_eqb]; [| split; discriminate].
  rewrite String.eqb_eq. split; [intros ->; reflexivity | intros E; inversion E; reflexivity].
Qed.

Lemma one_group v :
  let n := fun p => if value_eqb v p then 1 else 0 in
  n "HIGH" + n "MEDIUM" + n "LOW" <= 1 /\
  (n "HIGH" + n "MEDIUM" + n "LOW" = 1 <->
   exists p, v = Text p /\ In p ["HIGH"; "MEDIUM"; "LOW"]).
Proof.
  cbv zeta. destruct v as [s |]; cbn [value_eqb].
  - destruct (String.eqb_spec s "HIGH") as [-> | H1];
      [cbn; split; [lia | split; [intros _; exists "HIGH"; cbn; auto | reflexivity]] |].
    destruct (String.eqb_spec s "MEDIUM") as [-> | H2];
      [cbn; split; [lia | split; [intros _; exists "MEDIUM"; cbn; auto | reflexivity]] |].
    destruct (String.eqb_spec s "LOW") as [-> | H3];
      [cbn; split; [lia | split; [intros _; exists "LOW"; cbn; auto | reflexivity]] |].
    split; [cbn; lia |]. split; [cbn; lia |].
    intros [p [E Hin]]. inversion E. subst p. cbn in Hin. intuition congruence.
  - split; [cbn; lia |]. split; [cbn; lia |]. intros [p [E _]]. discriminate E.
Qed.

(** X19: the three priority groups never hold more edits than the plan,
    and they hold all of them exactly when every edit has one of the
    priorities HIGH, MEDIUM and LOW: an edit of another priority is counted
    in the total and shown in no group. *)
Theorem priority_groups_count (edits h m l : list Edit) :
  high_edits edits = Some h -> medium_edits edits = Some m -> low_edits edits = Some l ->
  length h + length m + length l <= length edits /\
  (length h + length m + length l = length edits <-> Forall grouped edits).
Proof.
  unfold high_edits, medium_edits, low_edits.
  revert h m l. induction edits as [| e rest IH]; intros h m l Hh Hm Hl.
  - cbn in Hh, Hm, Hl. inversion Hh. inversion Hm. inversion Hl. cbn.
    split; [lia |]. split; [constructor | reflexivity].
  - cbn [edits_with] in Hh, Hm, Hl.
    destruct (e !! "priority") as [v |] eqn:Ev; [| discriminate Hh].
    destruct (edits_with "HIGH" rest) as [h' |]; [| discriminate Hh].
    destruct (edits_with "MEDIUM" rest) as [m' |]; [| discriminate Hm].
    destruct (edits_with "LOW" rest) as [l' |]; [| discriminate Hl].
    destruct (IH h' m' l' eq_refl eq_refl eq_refl) as [Hle Hiff].
    destruct (one_group v) as [H1 H2]. cbv zeta in H1, H2.
    inversion Hh. inversion Hm. inversion Hl. clear Hh Hm Hl. subst h m l.
    assert (Eh : forall p (x : list Edit),
               length (if value_eqb v p then e :: x else x)
               = (if value_eqb v p then 1 else 0) + length x)
      by (intros p x; destruct (value_eqb v p); reflexivity).
    rewrite !Eh. cbn [length]. split; [lia |]. split.
    + intros E. constructor.
      * destruct H2 as [H2 _]. destruct H2 as [p [-> Hp]]; [lia |].
        exists p. split; [exact Ev | exact Hp].
      * apply Hiff. lia.
    + intros HF. inversion HF as [| x xs [p [Ep Hp]] Hrest]. subst x xs.
      apply Hiff in Hrest. rewrite Ev in Ep. inversion Ep. subst v.
      destruct H2 as [_ H2]. specialize (H2 (ex_intro _ p (conj eq_refl Hp))). lia.
Qed.

Lemma priority_groups_count_witness :
  length [ ({[ "priority" := Text "HIGH" ]} : Edit) ] + length (@nil Edit) + length (@nil Edit)
    <= length plan_sample /\
  (length [ ({[ "priority" := Text "HIGH" ]} : Edit) ] + length (@nil Edit) + length (@nil Edit)
     = length plan_sample <-> Forall grouped plan_sample).
Proof.
  apply (priority_groups_count plan_sample [ {[ "priority" := Text "HIGH" ]} ] [] []);
    vm_compute; reflexivity.
Defined.

(** X20: building a priority group fails with a [KeyError] exactly when
    some edit of the plan has no priority, whatever the priority asked
    for. *)
Theorem priority_key_error (p : string) (edits : list Edit) :
  edits_with p edits = None <-> Exists (fun e => e !! "priority" = None) edits.
Proof.
  induction edits as [| e rest IH]; cbn [edits_with].
  - split; [discriminate | intros H; inversion H].
  - destruct (e !! "priority") as [v |] eqn:Ev.
    + destruct (edits_with p rest) as [l |].
      * split; [discriminate |]. intros H. inversion H as [x xs Hx | x xs Hx]; subst.
        -- congruence.
        -- apply IH in Hx. discriminate Hx.
      * split; [| reflexivity]. intros _. apply Exists_cons_tl. apply IH. reflexivity.
    + split; [| reflexivity]. intros _. apply Exists_cons_hd. exact Ev.
Qed.

End ApplyEditsFacts.

(* ===================================================================== *)
(** * The properties stated by the specification *)
(* ===================================================================== *)

(* ===================================================================== *)
(** ** Link resolution *)
(* ===================================================================== *)

(** C2, amended: a link [[x](F#A)] whose anchor part [A] is not empty is
    valid exactly when the target file ([F], or the source document when
    [F] is empty) is a known file name and [A] is in the anchor set cached
    for that file. *)
Theorem validate_link_file_and_anchor
        (self : LinkValidator) (source_file : Document) (x F A : string) :
  Str.has_char "#" F = false ->
  A <> "" ->
  fst (validate_link self source_file x (F +:+ "#" +:+ A)) = true <->
  target_file_of source_file F ∈ file_names self /\
  anchor_known self (target_file_of source_file F) A.
Proof.
  intros HF HA. change ("#" +:+ A) with (String "#" A).
  rewrite (validate_link_split _ _ _ _ _ HF). cbv zeta.
  unfold anchor_known.
  destruct A as [| a A]; [congruence |].
  destruct (bool_decide_reflect (target_file_of source_file F ∈ file_names self)) as [Hin | Hout];
    cbn [negb].
  - destruct (anchors self !! target_file_of source_file F) as [known |] eqn:Ea.
    + destruct (bool_decide_reflect (String a A ∈ known)) as [Hk | Hk]; cbn [negb fst].
      * split; [intros _ | reflexivity]. split; [exact Hin | exists known; split; [reflexivity | exact Hk]].
      * split; [discriminate |]. intros [_ [k [Ek Hin']]]. inversion Ek. subst k. contradiction.
    + cbn [fst]. split; [discriminate |]. intros [_ [k [Ek _]]]. discriminate.
  - cbn [fst]. split; [discriminate |]. intros [Hin _]. contradiction.
Qed.

(** C9: with an empty anchor part the anchor check is skipped; only the
    target file decides, whatever the anchor caches hold. *)
Theorem validate_link_skips_empty_anchor
        (self : LinkValidator) (source_file : Document) (x F : string) :
  Str.has_char "#" F = false ->
  (fst (validate_link self source_file x (F +:+ "#")) = true <->
   target_file_of source_file F ∈ file_names self) /\
  (forall self' : LinkValidator,
      file_names self' = file_names self ->
      validate_link self' source_file x (F +:+ "#") =
      validate_link self source_file x (F +:+ "#")).
Proof.
  intros HF. split.
  - rewrite (validate_link_split _ _ _ _ _ HF). cbv zeta.
    destruct (bool_decide_reflect (target_file_of source_file F ∈ file_names self)) as [Hin | Hout];
      cbn [negb fst]; split; try reflexivity; try discriminate; try (intros _; exact Hin).
    intros Hin. contradiction.
  - intros self' Hn. rewrite !(validate_link_split _ _ _ _ _ HF). cbv zeta.
    rewrite Hn. reflexivity.
Qed.

Lemma validate_link_file_and_anchor_witness :
  fst (validate_link (cached sample_docs) sample_a "ok" ("B.md" +:+ "#" +:+ "other")) = true <->
  target_file_of sample_a "B.md" ∈ file_names (cached sample_docs) /\
  anchor_known (cached sample_docs) (target_file_of sample_a "B.md") "other".
Proof.
  apply validate_link_file_and_anchor; [reflexivity | discriminate].
Defined.

(** C2 as stated fails for an empty anchor part: [[top](B.md#)] is valid
    although the empty string is no anchor of [B.md]. *)
Lemma validate_link_empty_anchor_counterexample :
  ~ (forall (self : LinkValidator) (source_file : Document) (x F A : string),
        Str.has_char "#" F = false ->
        fst (validate_link self source_file x (F +:+ "#" +:+ A)) = true <->
        target_file_of source_file F ∈ file_names self /\
        anchor_known self (target_file_of source_file F) A).
Proof.
  intros H.
  specialize (H (cached sample_docs) sample_a "top" "B.md" "" eq_refl).
  destruct H as [H _].
  assert (V : fst (validate_link (cached sample_docs) sample_a "top" ("B.md" +:+ "#" +:+ "")) = true)
    by (vm_compute; reflexivity).
  destruct (H V) as [_ [known [Ek Hin]]].
  assert (Hd : match anchors (cached sample_docs) !! target_file_of sample_a "B.md" with
               | Some k => bool_decide ("" ∈ k)
               | None => false
               end = false) by (vm_compute; reflexivity).
  rewrite Ek in Hd. apply bool_decide_eq_false in Hd. exact (Hd Hin).
Qed.

Lemma validate_link_skips_empty_anchor_witness :
  (fst (validate_link (cached sample_docs) sample_a "top" ("B.md" +:+ "#")) = true <->
   target_file_of sample_a "B.md" ∈ file_names (cached sample_docs)) /\
  (forall self' : LinkValidator,
      file_names self' = file_names (cached sample_docs) ->
      validate_link self' sample_a "top" ("B.md" +:+ "#") =
      validate_link (cached sample_docs) sample_a "top" ("B.md" +:+ "#")).
Proof.
  apply validate_link_skips_empty_anchor. reflexivity.
Defined.

(* ===================================================================== *)
(** ** The slug of a header title *)
(* ===================================================================== *)

Lemma lower_lower_char c : Char.lower (Char.lower c) = Char.lower c.
Proof. destruct c as [[] [] [] [] [] [] [] []]; vm_compute; reflexivity. Qed.

Lemma lower_lower s : Str.lower (Str.lower s) = Str.lower s.
Proof.
  unfold Str.lower. induction s as [| c s IH]; [reflexivity |].
  cbn [Str.map]. rewrite lower_lower_char, IH. reflexivity.
Qed.

Lemma space_not_hyphen c : Char.space c = true -> Char.is_char "-" c = false.
Proof. destruct c as [[] [] [] [] [] [] [] []]; vm_compute; auto. Qed.

(** White space at the start gives at most a hyphen at the start. *)
Lemma drop_hyphens_lstrip s : forall b,
  drop_while (Char.is_char "-") (collapse_spaces b s) =
  drop_while (Char.is_char "-") (collapse_spaces false (Str.lstrip s)).
Proof.
  induction s as [| c s IH]; intros b; [reflexivity |].
  cbn [collapse_spaces Str.lstrip]. destruct (Char.space c) eqn:Ec.
  - destruct b; [apply IH |]. cbn [drop_while]. apply IH.
  - cbn [collapse_spaces]. rewrite Ec. reflexivity.
Qed.

Lemma drop_trailing_cons p c x y :
  drop_trailing p x = drop_trailing p y ->
  drop_trailing p (String c x) = drop_trailing p (String c y).
Proof. intros H. cbn [drop_trailing]. rewrite H. reflexivity. Qed.

(** White space at the end gives at most a hyphen at the end. *)
Lemma drop_hyphens_rstrip s : forall b,
  drop_trailing (Char.is_char "-") (collapse_spaces b s) =
  drop_trailing (Char.is_char "-") (collapse_spaces b (Str.rstrip s)).
Proof.
  induction s as [| c s IH]; intros b; [reflexivity |].
  cbn [Str.rstrip]. destruct (Str.rstrip s) as [| c' r] eqn:Er.
  - destruct (Char.space c) eqn:Ec.
    + cbn [collapse_spaces]. rewrite Ec. pose proof (IH true) as H. cbn [collapse_spaces] in H.
      destruct b; [exact H |]. cbn [drop_trailing]. rewrite H. reflexivity.
    + cbn [collapse_spaces]. rewrite Ec. apply drop_trailing_cons. apply (IH false).
  - cbn [collapse_spaces]. destruct (Char.space c) eqn:Ec.
    + destruct b; [apply (IH true) |]. apply drop_trailing_cons. apply (IH true).
    + apply drop_trailing_cons. apply (IH false).
Qed.

Lemma drop_trailing_drop_while p s :
  drop_trailing p (drop_while p s) = drop_while p (drop_trailing p s).
Proof.
  induction s as [| c s IH]; [reflexivity |].
  cbn [drop_while]. destruct (p c) eqn:Ec.
  - rewrite IH. cbn [drop_trailing]. rewrite Ec.
    destruct (drop_trailing p s) as [| c' r]; [reflexivity |].
    cbn [drop_while]. rewrite Ec. reflexivity.
  - cbn [drop_trailing]. rewrite Ec.
    destruct (drop_trailing p s) as [| c' r]; cbn [drop_while]; rewrite Ec; reflexivity.
Qed.

(** C4 as stated fails: hyphens at the ends of a title are not trimmed;
    the title [-a] has the anchor [-a]. *)
Lemma header_anchor_hyphen_counterexample :
  ~ (forall header : string, header_anchor header = spec_header_anchor header).
Proof.
  intros H. specialize (H "-a").
  assert (A : header_anchor "-a" = "-a") by (vm_compute; reflexivity).
  assert (S : spec_header_anchor "-a" = "a") by (vm_compute; reflexivity).
  rewrite A, S in H. discriminate H.
Qed.

(** C4, amended: the anchor of a title is the title in lower case, without
    the characters that are neither word characters, white space nor
    hyphens, without the white space at its ends, each run of white space
    left replaced by one hyphen.  Hyphens are not trimmed: the anchor is
    the specified one up to the hyphens at its ends.  It does not depend on
    the case of the title; [Hello World!] and [hello world] both give
    [hello-world]. *)
Theorem header_anchor_slug (header : string) :
  header_anchor header =
    collapse_spaces false (Str.strip (Str.keep kept_char (Str.lower header))) /\
  trim_hyphens (header_anchor header) = spec_header_anchor header /\
  header_anchor (Str.lower header) = header_anchor header /\
  (forall other, Str.lower other = Str.lower header ->
                 header_anchor other = header_anchor header) /\
  header_anchor "Hello World!" = "hello-world" /\
  header_anchor "hello world" = "hello-world".
Proof.
  split; [apply header_anchor_closed |].
  split.
  { rewrite header_anchor_closed. unfold spec_header_anchor, trim_hyphens, Str.strip.
    set (K := Str.keep kept_char (Str.lower header)).
    rewrite (drop_hyphens_lstrip K false).
    rewrite !drop_trailing_drop_while. f_equal.
    symmetry. apply drop_hyphens_rstrip. }
  split; [rewrite !header_anchor_closed, lower_lower; reflexivity |].
  split; [intros other E; rewrite !header_anchor_closed, E; reflexivity |].
  split; vm_compute; reflexivity.
Qed.

(* ===================================================================== *)
(** ** The anchors of a document *)
(* ===================================================================== *)

(** C7: the anchor set of a document is a function of its text alone, and
    it holds the lower-case form - and the exact form - of every
    requirement ID of the text, that is of every token
    [PREFIX-CATEGORY-NUMBER] that the text has between square brackets. *)
Theorem anchors_hold_requirement_ids (D : Document) (tok : string) :
  req_token tok -> occurs_in ("[" +:+ tok +:+ "]") (doc_text D) ->
  Str.lower tok ∈ extract_anchors_from_file D /\
  tok ∈ extract_anchors_from_file D /\
  (forall D' : Document,
      doc_text D' = doc_text D ->
      extract_anchors_from_file D' = extract_anchors_from_file D).
Proof.
  intros Htok Hocc. split; [| split].
  - apply anchors_iff. right. exists tok. split; [exact Htok |]. split; [exact Hocc |].
    right. reflexivity.
  - apply anchors_iff. right. exists tok. split; [exact Htok |]. split; [exact Hocc |].
    left. reflexivity.
  - intros D' E. unfold extract_anchors_from_file. rewrite E. reflexivity.
Qed.

Lemma anchors_hold_requirement_ids_witness :
  Str.lower "REQ-API-1" ∈ extract_anchors_from_file sample_b /\
  "REQ-API-1" ∈ extract_anchors_from_file sample_b /\
  (forall D' : Document,
      doc_text D' = doc_text sample_b ->
      extract_anchors_from_file D' = extract_anchors_from_file sample_b).
Proof.
  apply (anchors_hold_requirement_ids sample_b "REQ-API-1").
  - exists "REQ", "API", "1". split; [reflexivity |].
    split; [| split]; split; try discriminate; reflexivity.
  - exists ("# Other" +:+ nl), " see DBD-FOO-2 and [DBD-X-1](A.md)". reflexivity.
Defined.

(* ===================================================================== *)
(** ** Restrictions of a list *)
(* ===================================================================== *)

(** A filter by a test that decides [P] is the restriction to [P]. *)
Lemma restricted_filter {A : Type} (P : A -> Prop) (p : A -> bool) (l : list A) :
  (forall x, In x l -> (p x = true <-> P x)) -> restricted P l (List.filter p l).
Proof.
  induction l as [| x l IH]; intros H; cbn [List.filter]; [constructor |].
  assert (IH' : restricted P l (List.filter p l))
    by (apply IH; intros y Hy; apply H; right; exact Hy).
  destruct (p x) eqn:E.
  - apply restricted_keep; [apply H; [left; reflexivity | exact E] | exact IH'].
  - apply restricted_skip; [| exact IH'].
    intros HP. apply H in HP; [congruence | left; reflexivity].
Qed.

(** A list has one restriction to [P]. *)
Lemma restricted_determined {A : Type} (P : A -> Prop) (p : A -> bool) (l k : list A) :
  restricted P l k -> (forall x, In x l -> (p x = true <-> P x)) -> k = List.filter p l.
Proof.
  induction 1 as [| x l k HP _ IH | x l k HP _ IH]; intros H; cbn [List.filter];
    [reflexivity | |].
  - assert (E : p x = true) by (apply H; [left; reflexivity | exact HP]).
    rewrite E, IH; [reflexivity |]. intros y Hy. apply H. right. exact Hy.
  - assert (E : p x = false).
    { destruct (p x) eqn:E; [| reflexivity]. exfalso. apply HP, H; [left; reflexivity | exact E]. }
    rewrite E. apply IH. intros y Hy. apply H. right. exact Hy.
Qed.

(* ===================================================================== *)
(** ** Substrings *)
(* ===================================================================== *)

Lemma startswith_prefix (p s : string) :
  Str.startswith p s = true -> exists post, s = p +:+ post.
Proof.
  revert s. induction p as [| a p IH]; intros s H.
  - exists s. rewrite app_nil_l_s. reflexivity.
  - destruct s as [| b s]; [discriminate H |].
    cbn [Str.startswith] in H. apply andb_true_iff in H. destruct H as [Hab Hs].
    apply Ascii.eqb_eq in Hab. subst b.
    destruct (IH s Hs) as [post ->]. exists post. rewrite app_cons_s. reflexivity.
Qed.

(** [needle in s] holds exactly when [needle] occurs in [s]. *)
Lemma contains_iff_occurs (n s : string) :
  Str.contains n s = true <-> occurs_in n s.
Proof.
  split.
  - induction s as [| c s IH]; cbn [Str.contains]; intros H.
    + rewrite orb_false_r in H. destruct (startswith_prefix _ _ H) as [post E].
      exists "", post. rewrite app_nil_l_s. exact E.
    + apply orb_true_iff in H. destruct H as [H | H].
      * destruct (startswith_prefix _ _ H) as [post E].
        exists "", post. rewrite app_nil_l_s. exact E.
      * destruct (IH H) as [pre [post E]]. exists (String c pre), post.
        rewrite app_cons_s, <- E. reflexivity.
  - intros [pre [post ->]]. apply contains_later. apply contains_here.
Qed.

Lemma names_spec016_017_escalated (link_target : string) :
  names_spec016_017 link_target = true <-> escalated link_target.
Proof.
  unfold names_spec016_017, escalated.
  rewrite orb_true_iff, !contains_iff_occurs. reflexivity.
Qed.

(* ===================================================================== *)
(** ** Critical issues *)
(* ===================================================================== *)

(** C6: checking a link adds an entry to [critical_issues] exactly when
    the link is broken and [SPEC016] or [SPEC017] occurs in its target,
    and changes nothing there otherwise.  Over a whole run the broken
    links are the links found to be broken, in order, and the critical
    issues are the entries of those of them whose target holds one of the
    two names: a broken link to another target and a valid link have no
    entry. *)
Theorem critical_issues_escalation (docs : list Document) :
  (forall (self : LinkValidator) (file_path : Document) (link_text link_target : string),
      let verdict := validate_link self file_path link_text link_target in
      let after := check_link file_path self (link_text, link_target) in
      (fst verdict = false -> escalated link_target ->
       critical_issues after =
       critical_issues self ++ [doc_name file_path +:+ ": " +:+ snd verdict]) /\
      (~ escalated link_target -> critical_issues after = critical_issues self) /\
      (fst verdict = true -> critical_issues after = critical_issues self)) /\
  exists r,
    run_validator docs = Some r /\
    exists broken critical : Document -> list (string * string),
      (forall d, restricted (broken_in docs d) (extract_links_from_file d) (broken d)) /\
      (forall d, restricted (fun l => escalated (snd l)) (broken d) (critical d)) /\
      r_broken_links r =
        flat_map (fun d => map (broken_entry (cached docs) d) (broken d)) docs /\
      r_critical_issues r =
        flat_map (fun d => map (critical_entry (cached docs) d) (critical d)) docs.
Proof.
  split.
  - intros self file_path link_text link_target. cbv zeta. unfold check_link.
    pose proof (names_spec016_017_escalated link_target) as He.
    unfold names_spec016_017 in He.
    destruct (validate_link self file_path link_text link_target) as [[] err];
      cbn [fst snd]; (split; [| split]); try reflexivity; try discriminate.
    + intros _ Hesc. apply He in Hesc. rewrite Hesc. reflexivity.
    + intros Hn.
      destruct (Str.contains "SPEC016" link_target || Str.contains "SPEC017" link_target);
        [exfalso; apply Hn, He; reflexivity | reflexivity].
  - destruct (run_validator_fields docs) as [r [Hr [_ [_ [_ [Hb [_ [_ [_ [Hc _]]]]]]]]]].
    exists r. split; [exact Hr |].
    exists (fun d => broken_of (cached docs) d (extract_links_from_file d)),
           (fun d => critical_of (cached docs) d (extract_links_from_file d)).
    split; [| split; [| split]].
    + intros d. unfold broken_of. apply restricted_filter. intros l _.
      unfold broken_in, link_ok. apply negb_true_iff.
    + intros d. unfold critical_of. apply restricted_filter. intros l _.
      apply names_spec016_017_escalated.
    + rewrite Hb, final_state_closed. reflexivity.
    + rewrite Hc, final_state_closed. reflexivity.
Qed.

Lemma critical_issues_escalation_witness :
  exists r,
    run_validator sample_docs = Some r /\
    r_critical_issues r = ["A.md: Target file not found: SPEC016-x.md"] /\
    length (r_broken_links r) = 3.
Proof.
  destruct (critical_issues_escalation sample_docs)
    as [_ [r [Hr [broken [critical [Hb [Hc [Eb Ec]]]]]]]].
  exists r. split; [exact Hr |].
  assert (Bk : forall d, broken d = broken_of (cached sample_docs) d (extract_links_from_file d)).
  { intros d. apply (restricted_determined _ _ _ _ (Hb d)). intros l _.
    unfold broken_in, link_ok. apply negb_true_iff. }
  assert (Cr : forall d, critical d = critical_of (cached sample_docs) d (extract_links_from_file d)).
  { intros d. unfold critical_of. rewrite <- Bk.
    apply (restricted_determined _ _ _ _ (Hc d)). intros l _.
    apply names_spec016_017_escalated. }
  assert (F : forall (B : Type) (f : Document -> list B),
             flat_map f sample_docs = f sample_a ++ f sample_b).
  { intros B f. unfold sample_docs. cbn [flat_map]. rewrite app_nil_r. reflexivity. }
  rewrite Ec, Eb, !F, !Cr, !Bk.
  split; vm_compute; reflexivity.
Defined.

(* ===================================================================== *)
(** ** Requirement references *)
(* ===================================================================== *)

Lemma existsb_defined_in self req_id files :
  existsb (defined_in self req_id) files = true <->
  exists f, In f files /\ indexed_in self req_id f.
Proof.
  rewrite existsb_exists. unfold defined_in, indexed_in.
  split; intros [f [Hin H]]; exists f; split; try exact Hin.
  - destruct (requirement_ids self !! f) as [ids |]; [| discriminate].
    exists ids. split; [reflexivity |]. apply bool_decide_eq_true in H. exact H.
  - destruct H as [ids [E Hm]]. rewrite E. apply bool_decide_eq_true. exact Hm.
Qed.

(** The text before the first hyphen of a token is its prefix. *)
Lemma before_first_prefix (tok P : string) :
  has_prefix tok P -> Str.before_first "-" tok = P.
Proof.
  intros [rest [-> HP]]. induction P as [| c P IH].
  - reflexivity.
  - cbn [Str.has_char] in HP. apply orb_false_iff in HP. destruct HP as [Hc HP].
    rewrite app_cons_s. cbn [Str.before_first]. rewrite Hc, (IH HP). reflexivity.
Qed.

Lemma req_token_has_prefix (tok : string) :
  req_token tok -> exists P, has_prefix tok P.
Proof.
  intros [P [C [N [-> [[_ HP] _]]]]]. exists P. split with (x := C +:+ "-" +:+ N).
  split; [reflexivity |]. exact (all_has_char _ "-" P eq_refl HP).
Qed.

(** The candidate files the validator looks up are those of the mapping. *)
Lemma expected_files_mapped (P : string) (files : list string) :
  mapped_to P files <-> expected_files_of P = files /\ files <> [].
Proof.
  unfold mapped_to, prefix_documents. split.
  - cbn [In]. intros H.
    repeat (destruct H as [H | H]; [inversion H; subst P files; split; [reflexivity | discriminate] |]).
    destruct H.
  - intros [E Hne]. unfold expected_files_of, file_map in E. cbn [dict_get] in E.
    repeat match type of E with
           | context [String.eqb ?k P] =>
               destruct (String.eqb_spec k P) as [<- | _];
                 [subst files; cbn [In]; tauto |]
           end.
    congruence.
Qed.

Lemma occurs_in_join (sep f : string) (l : list string) :
  In f l -> occurs_in f (Str.join sep l).
Proof. intros H. apply contains_iff_occurs. apply contains_join. exact H. Qed.

Lemma occurs_in_later (f a s : string) : occurs_in f s -> occurs_in f (a +:+ s).
Proof.
  intros [pre [post ->]]. exists (a +:+ pre), post. rewrite app_assoc_s. reflexivity.
Qed.

(** In a run the requirement index of a file name holds the tokens its
    file has between brackets. *)
Lemma indexed_iff_defined (docs : list Document) (tok f : string) :
  List.NoDup (map doc_name docs) -> req_token tok ->
  indexed_in (cached docs) tok f <-> defined_by docs tok f.
Proof.
  intros Hnd Htok. unfold indexed_in, defined_by. split.
  - intros [ids [E Hin]].
    assert (Hf : In f (map doc_name docs)).
    { apply file_names_cached.
      assert (Hd : f ∈ dom (requirement_ids (cached docs))) by (apply elem_of_dom; eauto).
      destruct (fold_cache_dom docs (init docs)) as [_ Dr].
      destruct (cached_fields docs) as [_ [Ef _]].
      rewrite cached_fold in *. rewrite Dr in Hd. rewrite Ef. set_solver. }
    apply in_map_iff in Hf. destruct Hf as [d [Ed Hd]].
    destruct (cached_entries docs d Hnd Hd) as [_ [Hr _]].
    rewrite Ed, E in Hr. inversion Hr. subst ids.
    exists d. split; [exact Hd |]. split; [exact Ed |].
    apply ids_iff_references, references_iff_bracketed in Hin. apply Hin.
  - intros [d [Hd [Ed Hocc]]].
    destruct (cached_entries docs d Hnd Hd) as [_ [Hr _]].
    exists (extract_requirement_ids_from_file d). split; [rewrite <- Ed; exact Hr |].
    apply ids_iff_references, references_iff_bracketed. split; assumption.
Qed.

(** The verdict on a reference of a run. *)
Lemma verdict_of_reference (docs : list Document) (tok : string) :
  List.NoDup (map doc_name docs) -> req_token tok ->
  fst (validate_requirement_reference (cached docs) tok) = false <->
  undefined_reference docs tok.
Proof.
  intros Hnd Htok. destruct (req_token_has_prefix tok Htok) as [P HP].
  unfold validate_requirement_reference. rewrite (before_first_prefix tok P HP).
  split.
  - intros H. exists P, (expected_files_of P).
    destruct (expected_files_of P) as [| f0 fs] eqn:Ef; [discriminate H |].
    split; [exact HP |]. split; [apply expected_files_mapped; split; [exact Ef | discriminate] |].
    intros f Hf Hdef.
    assert (Hex : existsb (defined_in (cached docs) tok) (f0 :: fs) = true).
    { apply existsb_defined_in. exists f. split; [exact Hf |].
      apply indexed_iff_defined; assumption. }
    rewrite Hex in H. discriminate H.
  - intros [P' [files [HP' [Hm Hnone]]]].
    rewrite <- (before_first_prefix tok P' HP'), (before_first_prefix tok P HP) in Hm.
    apply expected_files_mapped in Hm. destruct Hm as [Ef Hne]. rewrite Ef.
    destruct files as [| f0 fs]; [congruence |].
    destruct (existsb (defined_in (cached docs) tok) (f0 :: fs)) eqn:Ex; [| reflexivity].
    exfalso. apply existsb_defined_in in Ex. destruct Ex as [f [Hf Hidx]].
    apply (Hnone f Hf). apply indexed_iff_defined in Hidx; assumption.
Qed.

(** The message of an invalid reference. *)
Lemma error_of_reference (self : LinkValidator) (tok P : string) :
  has_prefix tok P ->
  fst (validate_requirement_reference self tok) = false ->
  mapped_to P (expected_files_of P) /\
  snd (validate_requirement_reference self tok) = requirement_error tok (expected_files_of P).
Proof.
  intros HP. unfold validate_requirement_reference. rewrite (before_first_prefix tok P HP).
  destruct (expected_files_of P) as [| f0 fs] eqn:Ef; [discriminate |].
  destruct (existsb _ _); [discriminate |]. intros _.
  split; [apply expected_files_mapped; split; [exact Ef | discriminate] | reflexivity].
Qed.

Lemma Forall2_flat_map {A B C : Type} (R : B -> C -> Prop)
      (f : A -> list B) (g : A -> list C) (l : list A) :
  (forall a, Forall2 R (f a) (g a)) -> Forall2 R (flat_map f l) (flat_map g l).
Proof.
  intros H. induction l as [| a l IH]; cbn [flat_map]; [constructor |].
  apply Forall2_app; [apply H | exact IH].
Qed.

Lemma Forall2_map_both {A B C : Type} (R : B -> C -> Prop)
      (f : A -> B) (g : A -> C) (l : list A) :
  (forall a, In a l -> R (f a) (g a)) -> Forall2 R (map f l) (map g l).
Proof.
  induction l as [| a l IH]; intros H; cbn [map]; constructor.
  - apply H. left. reflexivity.
  - apply IH. intros b Hb. apply H. right. exact Hb.
Qed.

(** C5: a reference whose prefix is not in the mapping is valid whatever
    the indexes hold.  In a run the invalid-requirement-ID issues are, in
    order, those of the references [[PREFIX-CATEGORY-NUMBER]] of each file
    whose prefix is mapped and whose token is between brackets in none of
    the candidate documents of the prefix; each issue names the file and
    the token, and its message lists every candidate document. *)
Theorem requirement_reference_validity (docs : list Document) :
  List.NoDup (map doc_name docs) ->
  (forall (self : LinkValidator) (tok P : string),
      has_prefix tok P -> (forall files, ~ mapped_to P files) ->
      validate_requirement_reference self tok = (true, "")) /\
  exists r,
    run_validator docs = Some r /\
    exists invalid : Document -> list string,
      (forall d, restricted (undefined_reference docs)
                            (find_requirement_references d) (invalid d)) /\
      Forall2 reports_reference
              (flat_map (fun d => map (pair d) (invalid d)) docs)
              (r_invalid_requirement_ids r).
Proof.
  intros Hnd. split.
  - intros self tok P HP Hun. unfold validate_requirement_reference.
    rewrite (before_first_prefix tok P HP).
    destruct (expected_files_of P) as [| f0 fs] eqn:Ef; [reflexivity |].
    exfalso. apply (Hun (f0 :: fs)). apply expected_files_mapped.
    split; [exact Ef | discriminate].
  - destruct (run_validator_fields docs) as [r [Hr [_ [_ [_ [_ [Hi _]]]]]]].
    exists r. split; [exact Hr |].
    exists (fun d => invalid_of (cached docs) (find_requirement_references d)).
    assert (Htok : forall d tok,
               In tok (invalid_of (cached docs) (find_requirement_references d)) ->
               req_token tok /\ fst (validate_requirement_reference (cached docs) tok) = false).
    { intros d tok Hin. unfold invalid_of in Hin. apply filter_In in Hin.
      destruct Hin as [Hin Hv]. apply references_iff_bracketed in Hin.
      split; [apply Hin |]. unfold req_ok in Hv. apply negb_true_iff in Hv. exact Hv. }
    split.
    + intros d. unfold invalid_of. apply restricted_filter. intros tok Hin.
      apply references_iff_bracketed in Hin. destruct Hin as [Ht _].
      unfold req_ok. rewrite negb_true_iff. apply verdict_of_reference; assumption.
    + rewrite Hi, final_state_closed. cbv zeta. cbn [invalid_requirement_ids set_results].
      apply Forall2_flat_map. intros d. apply Forall2_map_both. intros tok Hin.
      destruct (Htok d tok Hin) as [Ht Hv].
      destruct (req_token_has_prefix tok Ht) as [P HP].
      destruct (error_of_reference (cached docs) tok P HP Hv) as [Hm He].
      unfold reports_reference, invalid_entry, req_error. cbn [fst snd ir_file ir_requirement_id ir_error].
      split; [reflexivity |]. split; [reflexivity |].
      exists P, (expected_files_of P).
      split; [exact HP |]. split; [exact Hm |]. split; [exact He |].
      intros f Hf. rewrite He. unfold requirement_error.
      do 3 apply occurs_in_later. apply occurs_in_join. exact Hf.
Qed.

Lemma requirement_reference_validity_witness :
  (forall (self : LinkValidator) (tok P : string),
      has_prefix tok P -> (forall files, ~ mapped_to P files) ->
      validate_requirement_reference self tok = (true, "")) /\
  exists r,
    run_validator sample_docs = Some r /\
    exists invalid : Document -> list string,
      (forall d, restricted (undefined_reference sample_docs)
                            (find_requirement_references d) (invalid d)) /\
      Forall2 reports_reference
              (flat_map (fun d => map (pair d) (invalid d)) sample_docs)
              (r_invalid_requirement_ids r).
Proof.
  apply (requirement_reference_validity sample_docs).
  repeat constructor; cbn; intuition discriminate.
Defined.

(* ===================================================================== *)
(** ** Tokens in the text of a link *)
(* ===================================================================== *)








(* ===================================================================== *)
(** ** The health score *)
(* ===================================================================== *)

Section DyadicQuotients.
Import F64 F64Facts.
Local Open Scope Z_scope.




End DyadicQuotients.


(** Nor is the score the integer part of the exact quotient: with 29 valid
    links out of 100 it is 28, the two roundings of the binary64
    arithmetic leaving the product just below 29. *)
Lemma health_score_below_quotient :
  ~ (forall (docs : list Document) (r : Report),
        run_validator docs = Some r ->
        r_health_score r =
        floor_health_score (r_total_links_checked r) (r_valid_links r)
                           (length (r_invalid_requirement_ids r))).
Proof.
  intros H.
  assert (E : exists r, run_validator [sample_hundred] = Some r /\
                        r_total_links_checked r = 100 /\ r_valid_links r = 29 /\
                        length (r_invalid_requirement_ids r) = 0 /\
                        r_health_score r = 28%Z).
  { vm_compute. eexists. repeat split. }
  destruct E as [r [Hr [Ht [Hv [Hn Hh]]]]].
  specialize (H _ _ Hr). rewrite Ht, Hv, Hn, Hh in H. clear Hr.
  assert (S : floor_health_score 100 29 0 = 29%Z) by (vm_compute; reflexivity).
  rewrite S in H. discriminate H.
Qed.



(** C8: in every run the health score is between 0 and 100; with the other
    counts fixed it does not go up when links that are not valid are added
    ([t <= t']) nor when invalid requirement IDs are added ([n <= n']). *)
Theorem health_score_monotone_bounded (docs : list Document) (t t' v n n' : nat) :
  v <= t -> t <= t' -> n <= n' ->
  (exists r, run_validator docs = Some r /\ (0 <= r_health_score r <= 100)%Z) /\
  (exists h h1 h2 : Z,
      health_score t v n = Some h /\
      health_score t' v n = Some h1 /\
      health_score t v n' = Some h2 /\
      (h1 <= h /\ h2 <= h /\ 0 <= h <= 100)%Z).
Proof.
  intros Hv Ht Hn. split.
  - destruct (run_validator_fields docs) as [r [Hr [Hh _]]].
    destruct (final_counters docs) as [_ [_ Hle]].
    exists r. split; [exact Hr |].
    unfold health_score in Hh.
    destruct (link_score_range _ _ Hle) as [b [Eb Hb]]. rewrite Eb in Hh.
    inversion Hh as [Hp]. apply penalised_range. exact Hb.
  - destruct (link_score_range t v Hv) as [b [Eb Hb]].
    destruct (link_score_range t' v ltac:(lia)) as [b' [Eb' Hb']].
    pose proof (link_score_mono t t' v b b' Hv Ht Eb Eb') as Hm.
    exists (penalised b n), (penalised b' n), (penalised b n').
    unfold health_score. rewrite Eb, Eb'. repeat split.
    + apply penalised_mono; lia.
    + apply penalised_mono; lia.
    + apply penalised_range; exact Hb.
    + apply penalised_range; exact Hb.
Qed.

Lemma health_score_monotone_bounded_witness :
  (exists r, run_validator sample_docs = Some r /\ (0 <= r_health_score r <= 100)%Z) /\
  (exists h h1 h2 : Z,
      health_score 3 2 1 = Some h /\
      health_score 4 2 1 = Some h1 /\
      health_score 3 2 2 = Some h2 /\
      (h1 <= h /\ h2 <= h /\ 0 <= h <= 100)%Z).
Proof.
  apply (health_score_monotone_bounded sample_docs 3 4 2 1 2); lia.
Defined.

(* ===================================================================== *)
(** ** Documents with issues *)
(* ===================================================================== *)

Lemma with_count_cons c x l :
  with_count c (x :: l) = if Nat.eqb (issue_count x) c then x :: with_count c l else with_count c l.
Proof. reflexivity. Qed.

Lemma with_count_insert c x l :
  with_count c (insert_by_count x l) = with_count c (x :: l).
Proof.
  induction l as [| y l IH]; [reflexivity |].
  cbn [insert_by_count].
  destruct (Nat.leb_spec (length (snd y)) (length (snd x))) as [Hle | Hgt]; [reflexivity |].
  rewrite (with_count_cons c y), IH, !with_count_cons.
  destruct (Nat.eqb_spec (issue_count y) c) as [Ey | Ny];
    destruct (Nat.eqb_spec (issue_count x) c) as [Ex | Nx]; try reflexivity.
  unfold issue_count in Ey, Ex. lia.
Qed.

(** The sort keeps the order of the entries that have as many issues. *)
Lemma sorted_by_count_stable l c :
  with_count c (sorted_by_count l) = with_count c l.
Proof.
  induction l as [| x l IH]; [reflexivity |].
  unfold sorted_by_count in *. cbn [fold_right].
  rewrite with_count_insert, !with_count_cons, IH. reflexivity.
Qed.

Lemma with_count_in c x l : In x (with_count c l) <-> In x l /\ issue_count x = c.
Proof.
  unfold with_count. rewrite filter_In. rewrite Nat.eqb_eq. reflexivity.
Qed.

Lemma by_count_desc_trans : Relations_1.Transitive by_count_desc.
Proof. intros x y z. unfold by_count_desc. lia. Qed.

Lemma sorted_head_max x s :
  Sorted by_count_desc (x :: s) -> forall y, In y s -> issue_count y <= issue_count x.
Proof.
  intros H. apply (Sorted_StronglySorted by_count_desc_trans) in H.
  inversion H as [| a l _ Hall]. subst. intros y Hy.
  rewrite List.Forall_forall in Hall. exact (Hall y Hy).
Qed.

(** A list has one stable sort by decreasing count. *)
Lemma sorted_same_counts s : forall s',
  Sorted by_count_desc s -> Sorted by_count_desc s' ->
  (forall c, with_count c s = with_count c s') -> s = s'.
Proof.
  induction s as [| x s IH]; intros s' Hs Hs' Hc.
  - destruct s' as [| y s']; [reflexivity |].
    specialize (Hc (issue_count y)). rewrite with_count_cons, Nat.eqb_refl in Hc.
    discriminate Hc.
  - destruct s' as [| y s'].
    + specialize (Hc (issue_count x)). rewrite with_count_cons, Nat.eqb_refl in Hc.
      discriminate Hc.
    + assert (Hxy : issue_count x <= issue_count y).
      { assert (Hin : In x (with_count (issue_count x) (y :: s'))).
        { rewrite <- Hc. apply with_count_in. split; [left; reflexivity | reflexivity]. }
        apply with_count_in in Hin. destruct Hin as [[<- | Hin] _]; [lia |].
        exact (sorted_head_max y s' Hs' x Hin). }
      assert (Hyx : issue_count y <= issue_count x).
      { assert (Hin : In y (with_count (issue_count y) (x :: s))).
        { rewrite Hc. apply with_count_in. split; [left; reflexivity | reflexivity]. }
        apply with_count_in in Hin. destruct Hin as [[<- | Hin] _]; [lia |].
        exact (sorted_head_max x s Hs y Hin). }
      assert (E : issue_count y = issue_count x) by lia.
      pose proof (Hc (issue_count x)) as H0.
      rewrite !with_count_cons, E, Nat.eqb_refl in H0. inversion H0 as [[Exy H1]]. subst y.
      f_equal. apply IH.
      * inversion Hs. assumption.
      * inversion Hs'. assumption.
      * intros c. specialize (Hc c). rewrite !with_count_cons in Hc.
        destruct (Nat.eqb (issue_count x) c); [inversion Hc; reflexivity | exact Hc].
Qed.

(** C3 as stated fails: a document whose only finding is an orphaned
    reference has no entry in [documents_with_issues]. *)
Lemma documents_with_issues_orphan_counterexample :
  ~ (forall (docs : list Document) (r : Report),
        run_validator docs = Some r ->
        r_documents_with_issues r = spec_documents_with_issues docs).
Proof.
  intros H.
  assert (E : exists r, run_validator [sample_orphan] = Some r /\
                        r_documents_with_issues r = [] /\
                        length (r_warnings r) = 1).
  { vm_compute. eexists. repeat split. }
  destruct E as [r [Hr [Hd _]]].
  specialize (H _ _ Hr). rewrite Hd in H. clear Hr.
  assert (S : spec_documents_with_issues [sample_orphan] =
              [("O.md", ["O.md: Orphaned reference SRC-AB-1 (not in markdown link)"])])
    by (vm_compute; reflexivity).
  rewrite S in H. discriminate H.
Qed.

(** C3, amended: [documents_with_issues] maps each document that has a
    broken link or an invalid requirement reference to its broken-link
    errors followed by its invalid-requirement errors; orphan warnings are
    not part of it (they are in [warnings]).  Only the ten documents with
    most issues are kept: the first ten of the tally sorted by decreasing
    count, documents with as many issues staying in the order of the
    tally.  That order is the only one with these two properties, so the
    ten documents kept are determined. *)
Theorem documents_with_issues_top10 (docs : list Document) :
  List.NoDup (map doc_name docs) ->
  exists r,
    run_validator docs = Some r /\
    r_documents_with_issues r = firstn 10 (sorted_by_count (error_tally docs)) /\
    Permutation (sorted_by_count (error_tally docs)) (error_tally docs) /\
    Sorted by_count_desc (sorted_by_count (error_tally docs)) /\
    length (r_documents_with_issues r) <= 10 /\
    r_warnings r =
      flat_map (fun d => map (orphan_warning d) (find_orphaned_references d)) docs /\
    stable_by_count (error_tally docs) (sorted_by_count (error_tally docs)) /\
    (forall s, stable_by_count (error_tally docs) s ->
               r_documents_with_issues r = firstn 10 s).
Proof.
  intros Hnd.
  destruct (run_validator_fields docs) as [r [Hr [_ [_ [_ [_ [_ [_ [Hd [_ Hw]]]]]]]]]].
  exists r. split; [exact Hr |].
  assert (Ed : r_documents_with_issues r = firstn 10 (sorted_by_count (error_tally docs))).
  { rewrite Hd, final_state_closed. cbv zeta. cbn [documents_with_issues set_results].
    rewrite fold_dwi_extend; [reflexivity | exact Hnd | intros d _ []]. }
  assert (Hst : stable_by_count (error_tally docs) (sorted_by_count (error_tally docs))).
  { split; [apply sorted_by_count_sorted | intros c; apply sorted_by_count_stable]. }
  split; [exact Ed |].
  split; [apply sorted_by_count_perm |].
  split; [apply sorted_by_count_sorted |].
  split; [rewrite Ed; apply firstn_le_length |].
  split; [rewrite Hw, final_state_closed; reflexivity |].
  split; [exact Hst |].
  intros s [Hs Hc]. rewrite Ed. f_equal.
  apply sorted_same_counts; [apply Hst | exact Hs |].
  intros c. rewrite Hc. apply Hst.
Qed.

Lemma documents_with_issues_top10_witness :
  exists r,
    run_validator sample_docs = Some r /\
    r_documents_with_issues r = firstn 10 (sorted_by_count (error_tally sample_docs)) /\
    Permutation (sorted_by_count (error_tally sample_docs)) (error_tally sample_docs) /\
    Sorted by_count_desc (sorted_by_count (error_tally sample_docs)) /\
    length (r_documents_with_issues r) <= 10 /\
    r_warnings r =
      flat_map (fun d => map (orphan_warning d) (find_orphaned_references d)) sample_docs /\
    stable_by_count (error_tally sample_docs) (sorted_by_count (error_tally sample_docs)) /\
    (forall s, stable_by_count (error_tally sample_docs) s ->
               r_documents_with_issues r = firstn 10 s).
Proof.
  apply (documents_with_issues_top10 sample_docs).
  repeat constructor; cbn; intuition discriminate.
Defined.


Example header_ex :
  map (Re.m_group 1) (Re.finditer Pat.header ("# Hello World!" +:+ nl +:+ "text" +:+ nl +:+ "##  Two  " +:+ nl +:+ "#x"))
  = ["Hello World!"; "Two  "].
Proof. vm_compute. reflexivity. Qed.

Example link_ex :
  map (fun m => (Re.m_group 1 m, Re.m_group 2 m))
      (Re.finditer Pat.link "See [REQ-ABC-1](file.md) and [a [b](c#d) x](y) [z]()")
  = [("REQ-ABC-1", "file.md"); ("a [b", "c#d")].
Proof. vm_compute. reflexivity. Qed.

